(** * IES2HDR: the 1-D / 2-D decision and the conversion driver of [main.cpp]

    The development embeds [IES2HDR(path, outpath, info)] of [src/main.cpp].

    - The numeric code is written once, over an interface [Arith] that names
      every arithmetic operation, comparison, constant and implicit conversion
      the C++ text uses on [float] and on [double].
    - [IEEE] instantiates the interface with binary32 and binary64 numbers
      (round to nearest even, infinities, NaN), built on the executable
      [SpecFloat] operations: the classifier can be run on a concrete grid.
    - The classifier as section 4.1 of the specification words it is
      written a second time ([described_avgVariation], [described_use1D]),
      with its own loops, and compared with the code.
    - What scaling the samples does to the result is settled on the
      binary32 / binary64 numbers, from lemmas on the rounding of
      [SpecFloat] ([rnd], [SFshift]).
    - The loader, the two resamplers, the file system and the RGBE codec are
      collaborators whose code is not part of [main.cpp]; they are the fields
      of [Collaborators], and the driver records every call it makes to them
      in a trace. *)

From Stdlib Require Import ZArith List Bool String Strings.Byte Lia.
From Stdlib Require Import QArith Qabs.
From Stdlib Require Import SpecFloat.
Import ListNotations.

Set Implicit Arguments.
Local Open Scope Z_scope.

(** ** A writer monad: a value together with the log of what was done *)

Section WriterMonad.
Context {E : Type}.

Definition Writer (X : Type) : Type := (X * list E)%type.

Definition ret {X : Type} (x : X) : Writer X := (x, []).

Definition bind {X Y : Type} (m : Writer X) (k : X -> Writer Y) : Writer Y :=
  let (y, l2) := k (fst m) in (y, snd m ++ l2).

Definition tell (e : E) : Writer unit := (tt, [e]).

Definition value {X : Type} (m : Writer X) : X := fst m.
Definition logged {X : Type} (m : Writer X) : list E := snd m.

(** [for (int i = 0; i < n; ++i) body], over an explicit index list. *)
Fixpoint for_each {S : Type} (idx : list Z) (body : Z -> S -> Writer S) (s : S)
  : Writer S :=
  match idx with
  | [] => ret s
  | i :: rest => bind (body i s) (for_each rest body)
  end.
End WriterMonad.

Declare Scope writer_scope.
Delimit Scope writer_scope with writer.
Notation "x <- m ;; k" := (bind m (fun x => k))
  (at level 61, m at next level, right associativity) : writer_scope.
Notation "m ;;; k" := (bind m (fun _ => k))
  (at level 61, right associativity) : writer_scope.

(** The indices [0, 1, ..., n-1] of a C [for] loop; empty when [n <= 0]. *)
Definition range (n : Z) : list Z := map Z.of_nat (seq 0 (Z.to_nat n)).

(** ** The arithmetic the C++ text uses *)

Class Arith : Type := {
  flt : Type;                       (* float *)
  dbl : Type;                       (* double *)
  FLT_MAX : flt;                    (* std::numeric_limits<float>::max() *)
  FLT_LOWEST : flt;                 (* std::numeric_limits<float>::lowest() *)
  f_zero : flt;                     (* 0.0f *)
  f_ratio_bound : flt;              (* 1.2f *)
  f_lt : flt -> flt -> bool;        (* <  on float *)
  f_mul : flt -> flt -> flt;        (* *  on float *)
  f_div : flt -> flt -> flt;        (* /  on float *)
  d_of_f : flt -> dbl;              (* implicit float -> double *)
  d_of_int : Z -> dbl;              (* implicit int -> double *)
  d_zero : dbl;                     (* 0.0 *)
  d_penalty : dbl;                  (* 0.5 *)
  d_threshold : dbl;                (* 0.15 *)
  d_lt : dbl -> dbl -> bool;        (* <  on double *)
  d_add : dbl -> dbl -> dbl;
  d_sub : dbl -> dbl -> dbl;
  d_mul : dbl -> dbl -> dbl;
  d_div : dbl -> dbl -> dbl;
  d_sqrt : dbl -> dbl               (* std::sqrt *)
}.

(** ** The photometric grid and the classifier *)

Section Classifier.
Context {A : Arith}.

(** The fields of [IESFileInfo] that [IES2HDR] reads.  [ies_Loader.h] is not
    part of the sources; the two counts are signed integers there and are
    copied into [int] locals, and [getCandalaValues()] is the flat vector of
    [float] samples. *)
Record IESFileInfo : Type := {
  anglesNumH : Z;
  anglesNumV : Z;
  candalaValues : list flt
}.

(** [candalaValues[i]].  Reading past the end of the vector has no defined
    behaviour in C++; the model reads [0.0f] there, and the theorems on
    grids that are read assume [grid_ok]. *)
Definition at_index (values : list flt) (i : Z) : flt :=
  nth (Z.to_nat i) values f_zero.

Definition grid_ok (info : IESFileInfo) : Prop :=
  Z.of_nat (List.length (candalaValues info)) = anglesNumH info * anglesNumV info.

(** [std::min(a, b)] is [(b < a) ? b : a]; [std::max(a, b)] is
    [(a < b) ? b : a]. *)
Definition f_std_min (a b : flt) : flt := if f_lt b a then b else a.
Definition f_std_max (a b : flt) : flt := if f_lt a b then b else a.
Definition d_std_max (a b : dbl) : dbl := if d_lt a b then b else a.

(** The four locals of the inner loop. *)
Record SliceStats : Type := {
  minVal : flt;
  maxVal : flt;
  sum : dbl;
  sumSq : dbl
}.

Definition stats_init : SliceStats :=
  {| minVal := FLT_MAX; maxVal := FLT_LOWEST; sum := d_zero; sumSq := d_zero |}.

(** One iteration of the inner loop on the sample [val]. *)
Definition stats_add (st : SliceStats) (val : flt) : SliceStats :=
  {| minVal := f_std_min (minVal st) val;
     maxVal := f_std_max (maxVal st) val;
     sum := d_add (sum st) (d_of_f val);
     sumSq := d_add (sumSq st) (d_of_f (f_mul val val)) |}.

(** The samples of vertical angle [v]: offsets [h * V + v], [h] in [0, H). *)
Definition slice (info : IESFileInfo) (v : Z) : list flt :=
  map (fun h => at_index (candalaValues info) (h * anglesNumV info + v))
      (range (anglesNumH info)).

(** The inner loop. *)
Definition slice_stats (info : IESFileInfo) (v : Z) : SliceStats :=
  fold_left stats_add (slice info v) stats_init.

(** Every [/] the classifier executes is logged with its operands. *)
Inductive division : Type :=
| DivDouble (num den : dbl)
| DivFloat (num den : flt).

Definition div_d (x y : dbl) : Writer dbl :=
  (tell (DivDouble x y) ;;; ret (d_div x y))%writer.
Definition div_f (x y : flt) : Writer flt :=
  (tell (DivFloat x y) ;;; ret (f_div x y))%writer.

(** [mean], [variance], [stdDev] and [coeffVar] of a slice. *)
Definition coeff_var (horizontalAngles : Z) (st : SliceStats) : Writer dbl :=
  (mean <- div_d (sum st) (d_of_int horizontalAngles) ;;
   meanSq <- div_d (sumSq st) (d_of_int horizontalAngles) ;;
   let variance := d_sub meanSq (d_mul mean mean) in
   let stdDev := d_sqrt (d_std_max d_zero variance) in
   div_d stdDev mean)%writer.

(** [minVal > 0.0f && maxVal / minVal > 1.2f]; [&&] evaluates the division
    only when its left operand holds. *)
Definition ratio_exceeded (st : SliceStats) : Writer bool :=
  if f_lt f_zero (minVal st)
  then (ratio <- div_f (maxVal st) (minVal st) ;;
        ret (f_lt f_ratio_bound ratio))%writer
  else ret false.

(** What one vertical angle does to the accumulator [avgVariation]. *)
Definition slice_step (horizontalAngles : Z) (avgVariation : dbl) (st : SliceStats)
  : Writer dbl :=
  if d_lt d_zero (sum st) then
    (coeffVar <- coeff_var horizontalAngles st ;;
     let avgVariation := d_add avgVariation coeffVar in
     penalize <- ratio_exceeded st ;;
     ret (if penalize then d_add avgVariation d_penalty else avgVariation))%writer
  else ret avgVariation.

(** The outer loop: the value of [avgVariation] before the final division. *)
Definition running_total (info : IESFileInfo) : Writer dbl :=
  for_each (range (anglesNumV info))
           (fun v avg => slice_step (anglesNumH info) avg (slice_stats info v))
           d_zero.

(** [avgVariation] after [avgVariation /= verticalAngles]. *)
Definition average_variation (info : IESFileInfo) : Writer dbl :=
  (total <- running_total info ;;
   div_d total (d_of_int (anglesNumV info)))%writer.

(** The outcome of the decision: [use1D], and the score when the [else]
    branch computed one. *)
Record Classification : Type := {
  use1D : bool;
  avgVariation : option dbl
}.

Definition classify (info : IESFileInfo) : Writer Classification :=
  if anglesNumH info <=? 1 then
    ret {| use1D := true; avgVariation := None |}
  else
    (avg <- average_variation info ;;
     ret {| use1D := d_lt avg d_threshold; avgVariation := Some avg |})%writer.
End Classifier.

Arguments IESFileInfo A : clear implicits.
Arguments SliceStats A : clear implicits.
Arguments Classification A : clear implicits.
Arguments division A : clear implicits.

(** ** The conversion driver *)

Section Driver.
Context {A : Arith}.

(** The lines written to [std::cout]. *)
Inductive message : Type :=
| ErrOpenInput (path : string)
| InfoSingleAngle
| InfoVariation (avg : dbl)
| InfoDecision (oneD : bool)
| ErrCreateOutput (outpath path : string).

(** The calls [IES2HDR] makes to the outside, in program order, each with
    the arguments that matter here and with what the call answered. *)
Inductive event : Type :=
| OpenInput (path : string) (opened : bool)
| LoadIES (size : Z) (ok : bool)
| Cout (m : message)
| SaveAs1D (len : nat) (width channel : Z) (ok : bool)
| SaveAs2D (len : nat) (width height channel : Z) (ok : bool)
| Fopen (outpath : string) (opened : bool)
| HeaderWritten (width height : Z) (ok : bool)
| PixelsWritten (len : nat) (width height : Z) (ok : bool)
| Fclose.

(** The collaborators: the input file system, [IESLoadHelper], [std::fopen]
    and the RGBE codec of [rgbe.h].  The codec's two writers return a status
    code; [true] stands for success. *)
Record Collaborators : Type := {
  read_file : string -> option (list byte);
  load : list byte -> Z -> IESFileInfo A -> bool * IESFileInfo A;
  saveAs1D : IESFileInfo A -> list flt -> Z -> Z -> bool * list flt;
  saveAs2D : IESFileInfo A -> list flt -> Z -> Z -> Z -> bool * list flt;
  fopen_wb : string -> bool;
  RGBE_WriteHeader : Z -> Z -> bool;
  RGBE_WritePixels_RLE : list flt -> Z -> Z -> bool
}.

Record IESOutputData : Type := {
  width : Z;
  height : Z;
  channel : Z;
  stream : list flt
}.

(** Multiplication of [std::uint32_t]. *)
Definition u32_mul (x y : Z) : Z := (x * y) mod 2 ^ 32.

(** [std::vector<float>::resize(n)] on an empty vector. *)
Definition resized (n : Z) : list flt := repeat f_zero (Z.to_nat n).

(** Lines 39-43. *)
Definition HDRdata_init : IESOutputData :=
  let width := 128 in
  let height := 128 in
  let channel := 3 in
  {| width := width; height := height; channel := channel;
     stream := resized (u32_mul (u32_mul width height) channel) |}.

Variable c : Collaborators.

(** Lines 123-140: open the output, write header and pixels, close.  The
    status codes of the two writers are not looked at. *)
Definition emit_hdr (path outpath : string) (HDRdata : IESOutputData)
  : Writer (E := event) bool :=
  (let fp := fopen_wb c outpath in
   tell (Fopen outpath fp) ;;;
   if negb fp then
     tell (Cout (ErrCreateOutput outpath path)) ;;;
     ret false
   else
     tell (HeaderWritten (width HDRdata) (height HDRdata)
             (RGBE_WriteHeader c (width HDRdata) (height HDRdata))) ;;;
     tell (PixelsWritten (List.length (stream HDRdata)) (width HDRdata) (height HDRdata)
             (RGBE_WritePixels_RLE c (stream HDRdata) (width HDRdata) (height HDRdata))) ;;;
     tell Fclose ;;;
     ret true)%writer.

(** Lines 46-110 as the driver sees them: the decision and its log lines. *)
Definition decide_1D (info : IESFileInfo A) : Writer (E := event) bool :=
  (let cls := value (classify info) in
   match avgVariation cls with
   | None => tell (Cout InfoSingleAngle)
   | Some avg =>
       tell (Cout (InfoVariation avg)) ;;;
       tell (Cout (InfoDecision (use1D cls)))
   end ;;;
   ret (use1D cls))%writer.

(** A resampler fills the buffer through [float*]: whatever it writes, the
    vector keeps its length. *)
Definition written_into (buffer filled : list flt) : list flt :=
  firstn (List.length buffer) (filled ++ skipn (List.length filled) buffer).

Definition with_stream (HDRdata : IESOutputData) (s : list flt) : IESOutputData :=
  {| width := width HDRdata; height := height HDRdata;
     channel := channel HDRdata; stream := s |}.

(** Lines 112-121: exactly one resampler runs, on the buffer of [HDRdata]. *)
Definition resample (oneD : bool) (info : IESFileInfo A) (HDRdata : IESOutputData)
  : Writer (E := event) (bool * IESOutputData) :=
  (if oneD then
     let (ok, filled) :=
       saveAs1D c info (stream HDRdata) (width HDRdata) (channel HDRdata) in
     tell (SaveAs1D (List.length (stream HDRdata)) (width HDRdata) (channel HDRdata) ok) ;;;
     ret (ok, with_stream HDRdata (written_into (stream HDRdata) filled))
   else
     let (ok, filled) :=
       saveAs2D c info (stream HDRdata) (width HDRdata) (height HDRdata)
                (channel HDRdata) in
     tell (SaveAs2D (List.length (stream HDRdata)) (width HDRdata) (height HDRdata)
             (channel HDRdata) ok) ;;;
     ret (ok, with_stream HDRdata (written_into (stream HDRdata) filled)))%writer.

(** [bool IES2HDR(const std::string& path, const std::string& outpath,
    IESFileInfo& info)]: the returned flag and [info] as the call leaves it. *)
Definition IES2HDR (path outpath : string) (info : IESFileInfo A)
  : Writer (E := event) (bool * IESFileInfo A) :=
  (match read_file c path with
   | None =>
       tell (OpenInput path false) ;;;
       tell (Cout (ErrOpenInput path)) ;;;
       ret (false, info)
   | Some content =>
       tell (OpenInput path true) ;;;
       let streamSize := Z.of_nat (List.length content) in
       let IESBuffer := content ++ [x00] in
       let (loaded, info) := load c IESBuffer streamSize info in
       tell (LoadIES streamSize loaded) ;;;
       if negb loaded then ret (false, info)
       else
         let HDRdata := HDRdata_init in
         oneD <- decide_1D info ;;
         resampled <- resample oneD info HDRdata ;;
         if negb (fst resampled) then ret (false, info)
         else
           written <- emit_hdr path outpath (snd resampled) ;;
           ret (written, info)
   end)%writer.
End Driver.

Arguments Collaborators A : clear implicits.
Arguments event A : clear implicits.
Arguments message A : clear implicits.
Arguments IESOutputData A : clear implicits.

(** ** Predicates on traces and grids used in the statements *)

Section Observations.
Context {A : Arith}.

(** The events that touch the output file. *)
Definition touches_output (e : event A) : bool :=
  match e with
  | Fopen _ _ | HeaderWritten _ _ _ | PixelsWritten _ _ _ _ | Fclose => true
  | _ => false
  end.

(** A resampler call that answered failure. *)
Definition resampler_failed (e : event A) : bool :=
  match e with
  | SaveAs1D _ _ _ ok | SaveAs2D _ _ _ _ ok => negb ok
  | _ => false
  end.

(** An emission step that answered failure. *)
Definition emission_failed (e : event A) : bool :=
  match e with
  | Fopen _ opened => negb opened
  | HeaderWritten _ _ ok | PixelsWritten _ _ _ ok => negb ok
  | _ => false
  end.

(** The geometry an event carries is the fixed 128 x 128 x 3 one. *)
Definition fixed_geometry (e : event A) : Prop :=
  match e with
  | SaveAs1D len w ch _ => w = 128 /\ ch = 3 /\ Z.of_nat len = 128 * 128 * 3
  | SaveAs2D len w h ch _ =>
      w = 128 /\ h = 128 /\ ch = 3 /\ Z.of_nat len = 128 * 128 * 3
  | HeaderWritten w h _ => w = 128 /\ h = 128
  | PixelsWritten len w h _ => w = 128 /\ h = 128 /\ Z.of_nat len = 128 * 128 * 3
  | _ => True
  end.

Definition is_cout (e : event A) : bool :=
  match e with Cout _ => true | _ => false end.

(** The runs of [IES2HDR], by the stage at which they end. *)
Inductive run_of (c : Collaborators A) (path outpath : string)
          (info : IESFileInfo A)
  : Writer (E := event A) (bool * IESFileInfo A) -> Prop :=
| RunNoInput :
    run_of c path outpath info
      ((false, info), [OpenInput path false; Cout (ErrOpenInput path)])
| RunLoadFailed size info' :
    run_of c path outpath info
      ((false, info'), [OpenInput path true; LoadIES size false])
| RunResampleFailed size info' prints call :
    forallb is_cout prints = true ->
    call = (let d := HDRdata_init in
            if use1D (value (classify info'))
            then SaveAs1D (List.length (stream d)) (width d) (channel d) false
            else SaveAs2D (List.length (stream d)) (width d) (height d)
                          (channel d) false) ->
    run_of c path outpath info
      ((false, info'),
       OpenInput path true :: LoadIES size true :: prints ++ [call])
| RunEmitted size info' prints call filled :
    forallb is_cout prints = true ->
    call = (let d := HDRdata_init in
            if use1D (value (classify info'))
            then SaveAs1D (List.length (stream d)) (width d) (channel d) true
            else SaveAs2D (List.length (stream d)) (width d) (height d)
                          (channel d) true) ->
    run_of c path outpath info
      ((fopen_wb c outpath, info'),
       OpenInput path true :: LoadIES size true :: prints ++ [call]
         ++ logged (emit_hdr c path outpath
                      (with_stream HDRdata_init
                         (written_into (stream HDRdata_init) filled)))).

(** The samples of [info] at offsets [h * V + v], for all [h] in [0, H),
    are the float [x]. *)
Definition slice_is (info : IESFileInfo A) (v : Z) (x : flt) : Prop :=
  forall h, 0 <= h < anglesNumH info ->
    at_index (candalaValues info) (h * anglesNumV info + v) = x.

(** Every candela sample multiplied by the float [k]. *)
Definition scale (k : flt) (info : IESFileInfo A) : IESFileInfo A :=
  {| anglesNumH := anglesNumH info;
     anglesNumV := anglesNumV info;
     candalaValues := map (f_mul k) (candalaValues info) |}.

(** The two facts about zero that an all-zero slice relies on:
    [0.0 + (double)0.0f] is [0.0], and [0.0 < 0.0] is false. *)
Class ZeroLaws : Prop := {
  add_zero_zero : d_add d_zero (d_of_f f_zero) = d_zero;
  zero_not_lt_zero : d_lt d_zero d_zero = false
}.
End Observations.

(** ** The classifier as section 4.1 of the specification describes it

    Written from the words of the specification, with loops, index lists
    and sample access of its own; the arithmetic is the program's.  The
    constants 1.2, 0.5 and 0.15 are the literals [1.2f], [0.5] and [0.15] of
    the code. *)

Section Described.
Context {A : Arith}.

(** The indices 0, 1, ..., n - 1, in increasing order; none when [n <= 0]. *)
Fixpoint count_up (k : nat) : list Z :=
  match k with
  | O => []
  | S k' => count_up k' ++ [Z.of_nat k']
  end.

Definition indices (n : Z) : list Z := count_up (Z.to_nat n).



(** [sum] and [sumOfSquares] over the values, accumulated in their order. *)
Fixpoint sum_from (acc : dbl) (vals : list flt) : dbl :=
  match vals with
  | [] => acc
  | x :: rest => sum_from (d_add acc (d_of_f x)) rest
  end.

Fixpoint sumOfSquares_from (acc : dbl) (vals : list flt) : dbl :=
  match vals with
  | [] => acc
  | x :: rest => sumOfSquares_from (d_add acc (d_of_f (f_mul x x))) rest
  end.


(** The least and the greatest of [m] and the values that follow it; of
    two values neither of which is below the other, the earlier one is
    kept. *)
Fixpoint least_from (m : flt) (vals : list flt) : flt :=
  match vals with
  | [] => m
  | x :: rest => least_from (if f_lt x m then x else m) rest
  end.

Fixpoint greatest_from (m : flt) (vals : list flt) : flt :=
  match vals with
  | [] => m
  | x :: rest => greatest_from (if f_lt m x then x else m) rest
  end.










End Described.

(** ** IEEE 754 arithmetic: [float] is binary32, [double] is binary64 *)

Module IEEE.
Definition prec32 : Z := 24.
Definition emax32 : Z := 128.
Definition prec64 : Z := 53.
Definition emax64 : Z := 1024.

(** The binary32 and binary64 numbers nearest to the integer ratio [n / d]:
    a decimal literal is the correctly rounded value of its digits. *)
Definition f32_of_Z (n : Z) : spec_float := binary_normalize prec32 emax32 n 0 false.
Definition f64_of_Z (n : Z) : spec_float := binary_normalize prec64 emax64 n 0 false.
Definition f32_lit (n d : Z) : spec_float :=
  SFdiv prec32 emax32 (f32_of_Z n) (f32_of_Z d).
Definition f64_lit (n d : Z) : spec_float :=
  SFdiv prec64 emax64 (f64_of_Z n) (f64_of_Z d).

(** A binary32 number is a binary64 number; only its representation
    (mantissa width) changes. *)
Definition f64_of_f32 (x : spec_float) : spec_float :=
  match x with
  | S754_finite s m e => binary_round prec64 emax64 s m e
  | _ => x
  end.

#[export] Instance arith : Arith := {|
  flt := spec_float;
  dbl := spec_float;
  FLT_MAX := S754_finite false (2 ^ 24 - 1) 104;
  FLT_LOWEST := S754_finite true (2 ^ 24 - 1) 104;
  f_zero := S754_zero false;
  f_ratio_bound := f32_lit 12 10;
  f_lt := SFltb;
  f_mul := SFmul prec32 emax32;
  f_div := SFdiv prec32 emax32;
  d_of_f := f64_of_f32;
  d_of_int := f64_of_Z;
  d_zero := S754_zero false;
  d_penalty := f64_lit 1 2;
  d_threshold := f64_lit 15 100;
  d_lt := SFltb;
  d_add := SFadd prec64 emax64;
  d_sub := SFsub prec64 emax64;
  d_mul := SFmul prec64 emax64;
  d_div := SFdiv prec64 emax64;
  d_sqrt := SFsqrt prec64 emax64
|}.

Definition grid (H V : Z) (samples : list spec_float) : IESFileInfo arith :=
  {| anglesNumH := H; anglesNumV := V; candalaValues := samples |}.

(** The rational number a finite binary number stands for: its mantissa
    times two to its exponent, with its sign. *)
Definition to_Q (x : spec_float) : Q :=
  match x with
  | S754_finite s m e =>
      ((if s then -1 else 1) * inject_Z (Zpos m) * Qpower 2 e)%Q
  | _ => 0%Q
  end.

(** Test doubles for the collaborators: the input file exists and is empty,
    the loader answers [loaded], and each later stage answers the flag given
    for it; resamplers leave the buffer as it is. *)
Definition stub (loaded : IESFileInfo arith)
           (resample_ok fopen_ok header_ok pixels_ok : bool) : Collaborators arith :=
  {| read_file := fun _ => Some [];
     load := fun _ _ _ => (true, loaded);
     saveAs1D := fun _ buffer _ _ => (resample_ok, buffer);
     saveAs2D := fun _ buffer _ _ _ => (resample_ok, buffer);
     fopen_wb := fun _ => fopen_ok;
     RGBE_WriteHeader := fun _ _ => header_ok;
     RGBE_WritePixels_RLE := fun _ _ _ => pixels_ok |}.

(** The grid of the worked example: H = 2, V = 1, samples 1.0 and 1.25. *)
Definition example_grid : IESFileInfo arith :=
  grid 2 1 [f32_of_Z 1; f32_lit 5 4].

(** H = 3, V = 1, samples 1, 1, 2, and the same grid with every sample
    multiplied by 3 (the products are exact). *)
Definition skewed_grid : IESFileInfo arith :=
  grid 3 1 [f32_of_Z 1; f32_of_Z 1; f32_of_Z 2].

(** A uniform grid, and the factor 2^64. *)
Definition uniform_grid : IESFileInfo arith := grid 2 1 [f32_of_Z 1; f32_of_Z 1].
Definition two_pow_64 : spec_float := f32_of_Z (2 ^ 64).

(** A binary32 number that is neither an infinity nor NaN. *)
Definition finite_float (x : spec_float) : bool :=
  match x with
  | S754_zero _ => true
  | S754_finite _ m e => bounded prec32 emax32 m e
  | _ => false
  end.



(** A positive finite number: neither zero, nor an infinity, nor NaN. *)
Definition finite_positive (x : spec_float) : bool :=
  match x with S754_finite false _ _ => true | _ => false end.

(** A candela sample as the data model has it: a finite binary32 number
    that is not negative. *)
Definition candela (x : spec_float) : bool :=
  match x with
  | S754_zero _ => true
  | S754_finite false m e => bounded prec32 emax32 m e
  | _ => false
  end.

(** Not negative: the sign is clear, or the number is NaN. *)
Definition not_negative (x : spec_float) : Prop :=
  match x with
  | S754_zero false | S754_infinity false | S754_finite false _ _ | S754_nan => True
  | _ => False
  end.

(** A division whose divisor is finite and not zero. *)
Definition proper_divisor (d : division arith) : bool :=
  match d with
  | DivDouble _ (S754_finite _ _ _) | DivFloat _ (S754_finite _ _ _) => true
  | _ => false
  end.

(** A grid with a single horizontal angle. *)
Definition single_angle_grid : IESFileInfo arith :=
  grid 1 3 [f32_of_Z 4; f32_of_Z 9; f32_of_Z 2].

(** H = 2, V = 2: the slice of vertical angle 0 is all zero, the slice of
    vertical angle 1 holds 5 and 7. *)
Definition dark_grid : IESFileInfo arith :=
  grid 2 2 [S754_zero false; f32_of_Z 5; S754_zero false; f32_of_Z 7].
End IEEE.


(** ** The command line: the second overload of [IES2HDR], and [main] *)

Section CommandLine.
Context {A : Arith}.

(** What [_findfirst] / [_findnext] leave in [_finddata_t], as far as [main]
    reads it. *)
Record finddata : Type := {
  attrib : Z;
  name : string
}.

(** The C runtime as lines 143-236 use it.  [splitpath] answers the drive,
    directory, file name and extension that [_splitpath] writes into its four
    buffers; [stricmp] is [_stricmp]; [A_SUBDIR] is the attribute mask
    [_A_SUBDIR] of [io.h]; [find_files pattern] lists the entries that
    [_findfirst] and then [_findnext] produce in turn, the empty list standing
    for [_findfirst] answering [-1].  [fresh_info] is a default-constructed
    [IESFileInfo]. *)
Record Runtime : Type := {
  splitpath : string -> string * string * string * string;
  stricmp : string -> string -> Z;
  A_SUBDIR : Z;
  find_files : string -> list finddata;
  fresh_info : IESFileInfo A
}.

Inductive main_message : Type :=
| ErrNoPath
| InfoConverting (filename : string)
| ErrReport (info : IESFileInfo A).

(** What [main] does, in program order: a line on [std::cout], the call
    [std::system("pause")], one call of [IES2HDR(path, info)] with the
    trace of that conversion and the flag it returned, or a call of
    [_findfirst], [_findnext] or [_findclose]. *)
Inductive main_event : Type :=
| MainCout (m : main_message)
| SystemPause
| Converted (path : string) (events : list (event A)) (ok : bool)
| FindFirst (pattern : string)
| FindNext
| FindClose.

Variable rt : Runtime.
Variable c : Collaborators A.

(** Lines 157-160: [out = drive; out += dir; out += fname; out += ".hdr"]. *)
Definition hdr_path (path : string) : string :=
  let '(drive, dir, fname, ext) := splitpath rt path in
  (((drive ++ dir) ++ fname) ++ ".hdr")%string.

(** [bool IES2HDR(const std::string& path, IESFileInfo& info)]. *)
Definition IES2HDR_next_to_input (path : string) (info : IESFileInfo A)
  : Writer (E := event A) (bool * IESFileInfo A) :=
  IES2HDR c path (hdr_path path) info.

(** Lines 190-192 and 220-222: convert with a fresh [info]; on failure print
    [info.error()]. *)
Definition convert_and_report (filename : string) : Writer (E := main_event) unit :=
  (let run := IES2HDR_next_to_input filename (fresh_info rt) in
   tell (Converted filename (logged run) (fst (value run))) ;;;
   if negb (fst (value run))
   then tell (MainCout (ErrReport (snd (value run))))
   else ret tt)%writer.

(** [!(fileinfo.attrib & _A_SUBDIR)]. *)
Definition is_plain_file (entry : finddata) : bool :=
  Z.land (attrib entry) (A_SUBDIR rt) =? 0.

(** Lines 212-216: the directory given on the command line, a slash, the
    entry's name. *)
Definition entry_path (drive dir fname : string) (entry : finddata) : string :=
  ((((drive ++ dir) ++ fname) ++ "/") ++ name entry)%string.

(** The [do ... while (_findnext(...) == 0)] loop, over the entries in the
    order the runtime produces them: the body, then the call of [_findnext]
    that decides whether the loop goes on. *)
Fixpoint convert_entries (drive dir fname : string) (entries : list finddata)
  : Writer (E := main_event) unit :=
  match entries with
  | [] => ret tt
  | entry :: rest =>
      ((if is_plain_file entry then
          let filename := entry_path drive dir fname entry in
          tell (MainCout (InfoConverting filename)) ;;;
          convert_and_report filename
        else ret tt) ;;;
       tell FindNext ;;;
       convert_entries drive dir fname rest)%writer
  end.

(** Lines 201-227: [_findfirst]; when it found an entry, the loop and
    [_findclose]. *)
Definition convert_directory (drive dir fname : string)
  : Writer (E := main_event) unit :=
  (let path := (((drive ++ dir) ++ fname) ++ "/*.ies")%string in
   tell (FindFirst path) ;;;
   match find_files rt path with
   | [] => ret tt
   | entries => convert_entries drive dir fname entries ;;; tell FindClose
   end)%writer.

Definition EXIT_FAILURE : Z := 1.

(** [int main(int argc, const char* argv[])], for runs in which no
    collaborator throws; [argv] holds the [argc] arguments, program name
    first. *)
Definition main (argv : list string) : Writer (E := main_event) Z :=
  (let argc := Z.of_nat (List.length argv) in
   if argc <=? 1 then
     tell (MainCout ErrNoPath) ;;;
     tell SystemPause ;;;
     ret EXIT_FAILURE
   else
     let arg1 := nth 1 argv EmptyString in
     let '(drive, dir, fname, ext) := splitpath rt arg1 in
     (if stricmp rt ext ".ies" =? 0 then
        convert_and_report arg1
      else
        convert_directory drive dir fname) ;;;
     ret 0)%writer.

(** The conversions a log of [main] shows, in order: path and returned flag. *)
Fixpoint conversions (log : list main_event) : list (string * bool) :=
  match log with
  | [] => []
  | Converted path _ ok :: rest => (path, ok) :: conversions rest
  | _ :: rest => conversions rest
  end.

(** The [info.error()] reports a log of [main] shows. *)
Fixpoint error_reports (log : list main_event) : nat :=
  match log with
  | [] => 0%nat
  | MainCout (ErrReport _) :: rest => S (error_reports rest)
  | _ :: rest => error_reports rest
  end.

(** The calls of the directory search. *)
Definition is_search (e : main_event) : bool :=
  match e with FindFirst _ | FindNext | FindClose => true | _ => false end.

(** Every output path that a trace of [IES2HDR] shows being opened for
    writing. *)
Fixpoint opened_outputs (events : list (event A)) : list string :=
  match events with
  | [] => []
  | Fopen outpath _ :: rest => outpath :: opened_outputs rest
  | _ :: rest => opened_outputs rest
  end.
End CommandLine.

Arguments finddata : clear implicits.
Arguments Runtime A : clear implicits.
Arguments main_event A : clear implicits.
Arguments main_message A : clear implicits.

(** ** Further predicates on traces *)

Section MoreObservations.
Context {A : Arith}.

Definition is_resampler (e : event A) : bool :=
  match e with SaveAs1D _ _ _ _ | SaveAs2D _ _ _ _ _ => true | _ => false end.

Definition is_load (e : event A) : bool :=
  match e with LoadIES _ _ => true | _ => false end.

(** The resampler call that the decision [oneD] selects, on the buffer of
    [HDRdata_init], answering [ok]. *)
Definition selected_call (oneD ok : bool) : event A :=
  let d := HDRdata_init in
  if oneD
  then SaveAs1D (List.length (stream d)) (width d) (channel d) ok
  else SaveAs2D (List.length (stream d)) (width d) (height d) (channel d) ok.

(** The four emission events of a conversion whose output opened. *)
Definition is_emission_of (outpath : string) (tail : list (event A)) : Prop :=
  exists header_ok pixels_ok,
    tail = [Fopen outpath true;
            HeaderWritten 128 128 header_ok;
            PixelsWritten (Z.to_nat (128 * 128 * 3)) 128 128 pixels_ok;
            Fclose].

(** The answer of the resampler that [IES2HDR] would invoke on [info]. *)
Definition resampler_answer (c : Collaborators A) (info : IESFileInfo A) : bool :=
  let d := HDRdata_init in
  if use1D (value (classify info))
  then fst (saveAs1D c info (stream d) (width d) (channel d))
  else fst (saveAs2D c info (stream d) (width d) (height d) (channel d)).
End MoreObservations.

(** ** Further test doubles *)

Module Doubles.
(** Collaborators that answer each stage with the flag given for it; the
    loader hands back [loaded]. *)
Definition staged (readable load_ok resample_ok fopen_ok : bool)
           (loaded : IESFileInfo IEEE.arith) : Collaborators IEEE.arith :=
  {| read_file := fun _ => if readable then Some [] else None;
     load := fun _ _ _ => (load_ok, loaded);
     saveAs1D := fun _ buffer _ _ => (resample_ok, buffer);
     saveAs2D := fun _ buffer _ _ _ => (resample_ok, buffer);
     fopen_wb := fun _ => fopen_ok;
     RGBE_WriteHeader := fun _ _ => true;
     RGBE_WritePixels_RLE := fun _ _ _ => true |}.

(** A runtime whose [_splitpath] finds no drive and no directory, takes the
    whole argument as file name and reports the extension [ext]; a directory
    search answers [entries]. *)
Definition runtime (ext : string) (entries : list finddata) : Runtime IEEE.arith :=
  {| splitpath := fun path => (EmptyString, EmptyString, path, ext);
     stricmp := fun a b => if String.eqb a b then 0 else 1;
     A_SUBDIR := 16;
     find_files := fun _ => entries;
     fresh_info := IEEE.grid 0 0 [] |}.

(** A directory with a sub-directory between two files. *)
Definition listing : list finddata :=
  [ {| attrib := 32; name := "a.ies" |};
    {| attrib := 16; name := "old" |};
    {| attrib := 32; name := "b.ies" |} ].

(** A grid with a NaN among the samples of its only vertical angle. *)
Definition nan_grid : IESFileInfo IEEE.arith :=
  IEEE.grid 3 1 [S754_nan; IEEE.f32_of_Z 1; IEEE.f32_of_Z 2].

(** A grid with a NaN between the samples 1 and 2 of its only vertical
    angle. *)
Definition nan_inside_grid : IESFileInfo IEEE.arith :=
  IEEE.grid 3 1 [IEEE.f32_of_Z 1; S754_nan; IEEE.f32_of_Z 2].


(** Three times the sample [0.1f] on the only vertical angle. *)
Definition uniform_tenths : IESFileInfo IEEE.arith :=
  IEEE.grid 3 1 [IEEE.f32_lit 1 10; IEEE.f32_lit 1 10; IEEE.f32_lit 1 10].

(** A grid without vertical angles. *)
Definition flat_grid : IESFileInfo IEEE.arith := IEEE.grid 2 0 [].

(** Every stage succeeds, on the worked example. *)
Definition all_ok : Collaborators IEEE.arith :=
  staged true true true true IEEE.example_grid.

(** The output cannot be opened. *)
Definition no_output : Collaborators IEEE.arith :=
  staged true true true false IEEE.single_angle_grid.

(** The input cannot be opened. *)
Definition no_input : Collaborators IEEE.arith :=
  staged false true true true IEEE.example_grid.

(** A grid with one horizontal angle loads and converts. *)
Definition single_ok : Collaborators IEEE.arith :=
  staged true true true true IEEE.single_angle_grid.
End Doubles.

(** ** Further predicates on grids and on the division log *)

Section GridObservations.
Context {A : Arith}.

(** The same grid with more samples stored after the [H * V] it declares. *)
Definition with_trailing (extra : list flt) (info : IESFileInfo A) : IESFileInfo A :=
  {| anglesNumH := anglesNumH info;
     anglesNumV := anglesNumV info;
     candalaValues := candalaValues info ++ extra |}.
End GridObservations.

(** ** Rounding to nearest, as [SpecFloat] performs it

    [binary_round_aux] shifts the exact mantissa right until [prec] digits
    are left, rounds, and shifts once more when rounding carried into a new
    digit.  As long as the exponent stays above the subnormal range, what it
    does to the mantissa does not depend on the exponent: [rnd] is that
    mantissa and the amount by which the exponent moved, [finish] the
    overflow test. *)

Section RoundingModel.
Variables prec emax : Z.

Definition rnd (mx : Z) (lx : location) : Z * Z :=
  let '(mrs1, e1) := shr (shr_record_of_loc mx lx) 0 (Zdigits2 mx - prec) in
  let m2 := round_nearest_even (shr_m mrs1) (loc_of_shr_record mrs1) in
  let '(mrs2, e2) :=
    shr (shr_record_of_loc m2 loc_Exact) e1 (Zdigits2 m2 - prec) in
  (shr_m mrs2, e2).

Definition finish (s : bool) (m e : Z) : spec_float :=
  match m with
  | Z0 => S754_zero s
  | Zpos p => if e <=? emax - prec then S754_finite s p e else S754_infinity s
  | Zneg _ => S754_nan
  end.

Definition unclamped (m e : Z) : Prop :=
  emin prec emax <= e \/ emin prec emax <= Zdigits2 m + e - prec.

(** A mantissa of exactly [prec] digits. *)
Definition canon_m (m : positive) : Prop := 2 ^ (prec - 1) <= Zpos m < 2 ^ prec.
End RoundingModel.

(** The number [x] with its exponent moved by [j]: [x] times [2 ^ j]. *)
Definition SFshift (j : Z) (x : spec_float) : spec_float :=
  match x with
  | S754_finite s m e => S754_finite s m (e + j)
  | _ => x
  end.

Definition not_inf (x : spec_float) : Prop :=
  match x with S754_infinity _ => False | _ => True end.

(** The exponent of [x], when [x] is finite and not zero, is at least [L]. *)
Definition exp_ge (L : Z) (x : spec_float) : Prop :=
  match x with S754_finite _ _ e => L <= e | _ => True end.


(** ** Scaling the samples by a power of two *)

Module Scaling.
Import IEEE.

(** [2 ^ j] as a [float]; a normal binary32 number when
    [-126 <= j <= 127]. *)
Definition pow2 (j : Z) : spec_float := S754_finite false 8388608 (j - 23).

(** A sample that scaling by [2 ^ j] neither overflows nor underflows, nor
    its square: zero, or a positive normal [float] [x] with
    [2 ^ -63 <= x < 2 ^ 63] (24 mantissa digits, exponent between -86 and
    39) for which [2 ^ j * x] is in that range too. *)
Definition scalable (j : Z) (x : spec_float) : bool :=
  match x with
  | S754_zero _ => true
  | S754_finite false m e =>
      (Zpos (digits2_pos m) =? 24) && (-86 <=? e) && (e <=? 39)
      && (-86 <=? e + j) && (e + j <=? 39)
  | _ => false
  end.

(** A positive binary64 number in the normal range, with its exponent
    between [lo] and [hi]. *)
Definition pcanon (lo hi : Z) (x : spec_float) : Prop :=
  match x with
  | S754_finite false m e => canon_m 53 m /\ lo <= e <= hi
  | _ => False
  end.

(** Positive zero, or a binary64 number of either sign in the normal
    range. *)
Definition scanon0 (lo hi : Z) (x : spec_float) : Prop :=
  match x with
  | S754_zero false => True
  | S754_finite _ m e => canon_m 53 m /\ lo <= e <= hi
  | _ => False
  end.

(** What is added to [sum] or [sumSq]: a zero, or a positive number in
    the normal range. *)
Definition addend_ok (lo hi : Z) (x : spec_float) : Prop :=
  match x with
  | S754_zero _ => True
  | S754_finite false m e => canon_m 53 m /\ lo <= e <= hi
  | _ => False
  end.

(** [sum] or [sumSq] after [k] additions of such numbers: positive zero,
    or positive in the normal range and at most [2 * k] times the bound
    [2 ^ (53 + hi)] of one addend (both in units of [2 ^ lo]). *)
Definition acc_ok (lo hi k : Z) (x : spec_float) : Prop :=
  match x with
  | S754_zero false => True
  | S754_finite false m e =>
      canon_m 53 m /\ lo <= e
      /\ Zpos m * 2 ^ (e - lo) <= 2 * k * 2 ^ (53 + hi - lo)
  | _ => False
  end.

(** The four locals of the inner loop on a slice and on the same slice
    scaled by [2 ^ j], after [k] samples. *)
Definition extrema_related (j : Z) (st st' : SliceStats arith) : Prop :=
  (minVal st = FLT_MAX /\ minVal st' = FLT_MAX
   /\ maxVal st = FLT_LOWEST /\ maxVal st' = FLT_LOWEST)
  \/ (scalable j (minVal st) = true /\ minVal st' = SFshift j (minVal st)
      /\ scalable j (maxVal st) = true /\ maxVal st' = SFshift j (maxVal st)).

Definition stats_related (j k : Z) (st st' : SliceStats arith) : Prop :=
  extrema_related j st st'
  /\ sum st' = SFshift j (sum st)
  /\ acc_ok (-115) 10 k (sum st)
  /\ acc_ok (-115) 10 k (sum st')
  /\ sumSq st' = SFshift (2 * j) (sumSq st)
  /\ acc_ok (-178) 74 k (sumSq st)
  /\ acc_ok (-178) 74 k (sumSq st').
End Scaling.

(** * Properties *)

(** ** The writer monad and the loops *)

Section WriterFacts.
Context {E : Type}.

Lemma value_bind {X Y : Type} (m : Writer (E := E) X) (k : X -> Writer Y) :
  value (bind m k) = value (k (value m)).
Proof. unfold bind, value. destruct (k (fst m)); reflexivity. Qed.

Lemma logged_bind {X Y : Type} (m : Writer (E := E) X) (k : X -> Writer Y) :
  logged (bind m k) = logged m ++ logged (k (value m)).
Proof. unfold bind, value, logged. destruct (k (fst m)); reflexivity. Qed.

Lemma value_for_each {S : Type} (body : Z -> S -> Writer (E := E) S) idx s :
  value (for_each idx body s) = fold_left (fun s i => value (body i s)) idx s.
Proof.
  revert s. induction idx as [|i rest IH]; intros s; simpl.
  - reflexivity.
  - rewrite value_bind. apply IH.
Qed.
End WriterFacts.

Lemma range_length (n : Z) : List.length (range n) = Z.to_nat n.
Proof. unfold range. now rewrite length_map, length_seq. Qed.

Lemma in_range (n i : Z) : In i (range n) <-> 0 <= i < n.
Proof.
  unfold range. rewrite in_map_iff. split.
  - intros (k & <- & Hk). apply in_seq in Hk. lia.
  - intros Hi. exists (Z.to_nat i). split; [lia|]. apply in_seq. lia.
Qed.

(** ** The classifier, in any arithmetic *)

Section ClassifierFacts.
Context {A : Arith}.

Lemma slice_length (info : IESFileInfo A) (v : Z) :
  List.length (slice info v) = Z.to_nat (anglesNumH info).
Proof. unfold slice. now rewrite length_map, range_length. Qed.

Lemma slice_all (info : IESFileInfo A) (v : Z) (x : flt) :
  slice_is info v x -> Forall (eq x) (slice info v).
Proof.
  intros Hx. unfold slice. apply Forall_map, Forall_forall.
  intros h Hh. apply in_range in Hh. symmetry. now apply Hx.
Qed.

Lemma sum_of_zeros `{!ZeroLaws} (l : list flt) (st : SliceStats A) :
  Forall (eq f_zero) l -> sum st = d_zero ->
  sum (fold_left stats_add l st) = d_zero.
Proof.
  intros Hl. revert st. induction Hl as [|x l <- _ IH]; intros st Hst; simpl.
  - exact Hst.
  - apply IH. simpl. rewrite Hst. apply add_zero_zero.
Qed.

Lemma coeff_var_value (H : Z) (st : SliceStats A) :
  value (coeff_var H st)
  = let mean := d_div (sum st) (d_of_int H) in
    let variance := d_sub (d_div (sumSq st) (d_of_int H)) (d_mul mean mean) in
    d_div (d_sqrt (d_std_max d_zero variance)) mean.
Proof. reflexivity. Qed.

Lemma ratio_exceeded_value (st : SliceStats A) :
  value (ratio_exceeded st)
  = f_lt f_zero (minVal st)
    && f_lt f_ratio_bound (f_div (maxVal st) (minVal st)).
Proof. unfold ratio_exceeded. destruct (f_lt f_zero (minVal st)); reflexivity. Qed.

Lemma slice_step_value (H : Z) (total : dbl) (st : SliceStats A) :
  value (slice_step H total st)
  = if d_lt d_zero (sum st)
    then let total' := d_add total (value (coeff_var H st)) in
         if value (ratio_exceeded st) then d_add total' d_penalty else total'
    else total.
Proof.
  unfold slice_step. destruct (d_lt d_zero (sum st)); [|reflexivity].
  rewrite !value_bind. reflexivity.
Qed.

Lemma running_total_value (info : IESFileInfo A) :
  value (running_total info)
  = fold_left (fun total v =>
                 value (slice_step (anglesNumH info) total (slice_stats info v)))
              (range (anglesNumV info)) d_zero.
Proof. unfold running_total. apply value_for_each. Qed.

Lemma average_variation_value (info : IESFileInfo A) :
  value (average_variation info)
  = d_div (value (running_total info)) (d_of_int (anglesNumV info)).
Proof. unfold average_variation. rewrite value_bind. reflexivity. Qed.

Lemma classify_value (info : IESFileInfo A) :
  1 < anglesNumH info ->
  value (classify info)
  = {| use1D := d_lt (value (average_variation info)) d_threshold;
       avgVariation := Some (value (average_variation info)) |}.
Proof.
  intros HH. unfold classify.
  destruct (anglesNumH info <=? 1) eqn:E.
  - apply Z.leb_le in E. lia.
  - rewrite value_bind. reflexivity.
Qed.

(** C2. When [anglesNumH <= 1] the classifier answers [use1D = true]
    whatever the candela samples are: it computes no score and performs no
    arithmetic on the samples at all. *)
Theorem single_horizontal_angle_is_1D (info : IESFileInfo A) :
  anglesNumH info <= 1 ->
  classify info = ret {| use1D := true; avgVariation := None |}.
Proof.
  intros HH. unfold classify.
  destruct (anglesNumH info <=? 1) eqn:E; [reflexivity|].
  apply Z.leb_gt in E. lia.
Qed.

(** C4. With at least two horizontal angles, a vertical angle whose samples
    are all exactly zero leaves the running total as it was: the slice
    contributes nothing, no division is executed for it and no penalty is
    added. *)
Theorem zero_slice_contributes_nothing `{!ZeroLaws}
        (info : IESFileInfo A) (v : Z) (total : dbl) :
  2 <= anglesNumH info ->
  slice_is info v f_zero ->
  value (slice_step (anglesNumH info) total (slice_stats info v)) = total
  /\ logged (slice_step (anglesNumH info) total (slice_stats info v)) = [].
Proof.
  intros _ Hzero. unfold slice_step, slice_stats.
  rewrite sum_of_zeros; [|now apply slice_all|reflexivity].
  rewrite zero_not_lt_zero. split; reflexivity.
Qed.
End ClassifierFacts.

(** ** The driver, in any arithmetic and with any collaborators *)

Section DriverFacts.
Context {A : Arith}.
Variable c : Collaborators A.

Lemma HDRdata_init_geometry :
  width (HDRdata_init (A := A)) = 128
  /\ height (HDRdata_init (A := A)) = 128
  /\ channel (HDRdata_init (A := A)) = 3
  /\ Z.of_nat (List.length (stream (HDRdata_init (A := A)))) = 128 * 128 * 3.
Proof.
  split; [reflexivity|]. split; [reflexivity|]. split; [reflexivity|].
  unfold HDRdata_init, resized; cbn [stream].
  rewrite repeat_length, Z2Nat.id; [reflexivity|].
  vm_compute. discriminate.
Qed.

Lemma written_into_length (buffer filled : list flt) :
  List.length (written_into buffer filled) = List.length buffer.
Proof.
  unfold written_into. rewrite length_firstn, length_app, length_skipn. lia.
Qed.

(** *** The shape of each stage *)

Lemma decide_1D_run (info : IESFileInfo A) :
  value (decide_1D info) = use1D (value (classify info))
  /\ forallb is_cout (logged (decide_1D info)) = true.
Proof.
  unfold decide_1D. destruct (avgVariation (value (classify info)));
    split; reflexivity.
Qed.

Lemma resample_run (oneD : bool) (info : IESFileInfo A) (d : IESOutputData A) :
  exists ok filled call,
    resample c oneD info d
    = ((ok, with_stream d (written_into (stream d) filled)), [call])
    /\ call = (if oneD
               then SaveAs1D (List.length (stream d)) (width d) (channel d) ok
               else SaveAs2D (List.length (stream d)) (width d) (height d)
                             (channel d) ok).
Proof.
  unfold resample. destruct oneD.
  - destruct (saveAs1D c info (stream d) (width d) (channel d)) as [ok filled].
    exists ok, filled. eexists. split; reflexivity.
  - destruct (saveAs2D c info (stream d) (width d) (height d) (channel d))
      as [ok filled].
    exists ok, filled. eexists. split; reflexivity.
Qed.

Lemma emit_hdr_run (path outpath : string) (d : IESOutputData A) :
  emit_hdr c path outpath d
  = if fopen_wb c outpath
    then (true,
          [Fopen outpath true;
           HeaderWritten (width d) (height d)
                       (RGBE_WriteHeader c (width d) (height d));
           PixelsWritten (List.length (stream d)) (width d) (height d)
                       (RGBE_WritePixels_RLE c (stream d) (width d) (height d));
           Fclose])
    else (false, [Fopen outpath false; Cout (ErrCreateOutput outpath path)]).
Proof. unfold emit_hdr. destruct (fopen_wb c outpath); reflexivity. Qed.

Lemma IES2HDR_run (path outpath : string) (info : IESFileInfo A) :
  run_of c path outpath info (IES2HDR c path outpath info).
Proof.
  unfold IES2HDR. destruct (read_file c path) as [content|]; [|constructor].
  destruct (load c (content ++ [x00]) (Z.of_nat (List.length content)) info)
    as [loaded info'].
  destruct loaded; [|constructor].
  destruct (decide_1D_run info') as [Hdec Hprints].
  destruct (resample_run (value (decide_1D info')) info' HDRdata_init)
    as (ok & filled & call & Hres & Hcall).
  rewrite Hdec in Hcall.
  unfold bind at 1 2 3 4. cbn [tell fst snd negb app ret].
  fold (value (decide_1D info')). rewrite Hres. cbn [fst snd].
  fold (logged (decide_1D info')).
  destruct ok; cbn [negb].
  - unfold bind. cbn [fst snd ret app].
    rewrite app_nil_r.
    assert (Hopen : fst (emit_hdr c path outpath
              (with_stream HDRdata_init
                 (written_into (stream HDRdata_init) filled)))
            = fopen_wb c outpath).
    { rewrite emit_hdr_run. destruct (fopen_wb c outpath); reflexivity. }
    rewrite Hopen.
    eapply RunEmitted with (filled := filled); [exact Hprints|exact Hcall].
  - unfold ret. cbn [app].
    eapply RunResampleFailed; [exact Hprints|exact Hcall].
Qed.

Lemma prints_are_quiet (prints : list (event A)) :
  forallb is_cout prints = true ->
  existsb resampler_failed prints = false
  /\ existsb touches_output prints = false
  /\ Forall fixed_geometry prints
  /\ forall outpath opened, ~ In (Fopen outpath opened) prints.
Proof.
  induction prints as [|e rest IH]; cbn [forallb existsb].
  - intros _. repeat split; [constructor|]. intros ? ? [].
  - intros H. apply andb_prop in H as [He Hrest].
    destruct (IH Hrest) as (H1 & H2 & H3 & H4).
    destruct e; try discriminate. cbn. repeat split; try assumption.
    + constructor; [exact I|assumption].
    + intros outpath opened [Hin|Hin]; [discriminate|]. eapply H4, Hin.
Qed.

(** C7. Whenever the resampler that the conversion invoked answered
    failure, the conversion returns [false] and nothing touched the output
    path: it was not opened, nothing was written to it. *)
Theorem resampler_failure_aborts (path outpath : string) (info : IESFileInfo A) :
  existsb resampler_failed (logged (IES2HDR c path outpath info)) = true ->
  fst (value (IES2HDR c path outpath info)) = false
  /\ existsb touches_output (logged (IES2HDR c path outpath info)) = false.
Proof.
  destruct (IES2HDR_run path outpath info)
    as [ | size info' | size info' prints call Hp Hcall
       | size info' prints call filled Hp Hcall ];
    cbn [logged value fst snd existsb resampler_failed touches_output orb].
  - discriminate.
  - discriminate.
  - intros _. split; [reflexivity|].
    destruct (prints_are_quiet _ Hp) as (_ & Hq & _).
    rewrite existsb_app, Hq. subst call.
    destruct (use1D (value (classify info'))); reflexivity.
  - intros Hfail. exfalso.
    destruct (prints_are_quiet _ Hp) as (Hq & _).
    rewrite !existsb_app, Hq, emit_hdr_run in Hfail. subst call.
    destruct (use1D (value (classify info'))), (fopen_wb c outpath);
      discriminate Hfail.
Qed.

(** The part of emission failure that the driver does detect: a failed
    [fopen] makes the conversion return [false]. *)
Lemma fopen_failure_propagates (path outpath : string) (info : IESFileInfo A) :
  fopen_wb c outpath = false ->
  fst (value (IES2HDR c path outpath info)) = false.
Proof.
  intros Hopen.
  destruct (IES2HDR_run path outpath info); cbn [value fst]; auto.
Qed.

(** Once the output is open the conversion returns [true], whatever the
    two codec writers answered. *)
Lemma open_output_means_success (path outpath : string) (info : IESFileInfo A)
      (opened : bool) :
  In (Fopen outpath opened) (logged (IES2HDR c path outpath info)) ->
  fst (value (IES2HDR c path outpath info)) = opened.
Proof.
  destruct (IES2HDR_run path outpath info)
    as [ | size info' | size info' prints call Hp Hcall
       | size info' prints call filled Hp Hcall ];
    cbn [logged value fst snd].
  - intros [H|[H|[]]]; discriminate.
  - intros [H|[H|[]]]; discriminate.
  - intros [H|[H|H]]; try discriminate. exfalso.
    apply in_app_or in H. destruct H as [H|[H|[]]].
    + eapply (prints_are_quiet _ Hp), H.
    + subst call. destruct (use1D (value (classify info'))); discriminate.
  - intros [H|[H|H]]; try discriminate.
    apply in_app_or in H. destruct H as [H|H].
    { exfalso. eapply (prints_are_quiet _ Hp), H. }
    apply in_app_or in H. destruct H as [[H|[]]|H].
    { subst call. destruct (use1D (value (classify info'))); discriminate. }
    rewrite emit_hdr_run in H.
    destruct (fopen_wb c outpath); cbn [logged snd] in H;
      repeat (destruct H as [H|H]; [inversion H; reflexivity|]);
      destruct H.
Qed.

(** C9. The output raster is 128 x 128 with 3 channels whatever the grid
    is, its buffer has exactly width * height * channel entries, and that is
    the geometry and the buffer length every resampler call and every codec
    call of a conversion is given. *)
Theorem output_geometry_is_fixed (path outpath : string) (info : IESFileInfo A) :
  width (HDRdata_init (A := A)) = 128
  /\ height (HDRdata_init (A := A)) = 128
  /\ channel (HDRdata_init (A := A)) = 3
  /\ Z.of_nat (List.length (stream (HDRdata_init (A := A))))
     = width (HDRdata_init (A := A)) * height (HDRdata_init (A := A))
       * channel (HDRdata_init (A := A))
  /\ Forall fixed_geometry (logged (IES2HDR c path outpath info)).
Proof.
  destruct HDRdata_init_geometry as (Hw & Hh & Hc & Hlen).
  split; [exact Hw|]. split; [exact Hh|]. split; [exact Hc|].
  split; [rewrite Hw, Hh, Hc; exact Hlen|].
  assert (Hcall : forall oneD ok,
             fixed_geometry
               (let d := HDRdata_init in
                if oneD : bool
                then SaveAs1D (List.length (stream d)) (width d) (channel d) ok
                else SaveAs2D (List.length (stream d)) (width d) (height d)
                              (channel d) ok)).
  { intros [|] ok; cbv zeta; cbn [fixed_geometry]; auto. }
  destruct (IES2HDR_run path outpath info)
    as [ | size info' | size info' prints call Hp Hcall'
       | size info' prints call filled Hp Hcall' ];
    cbn [logged snd].
  - repeat constructor.
  - repeat constructor.
  - do 2 (constructor; [exact I|]).
    apply Forall_app. split; [apply (prints_are_quiet _ Hp)|].
    constructor; [|constructor]. subst call. apply Hcall.
  - do 2 (constructor; [exact I|]).
    apply Forall_app. split; [apply (prints_are_quiet _ Hp)|].
    apply Forall_app. split.
    { constructor; [|constructor]. subst call. apply Hcall. }
    rewrite emit_hdr_run.
    destruct (fopen_wb c outpath); cbn [logged snd];
      repeat constructor; cbn [with_stream width height stream];
      rewrite ?written_into_length; assumption.
Qed.
End DriverFacts.

(** ** Running the classifier and the driver on binary32 / binary64 numbers *)

Section IEEEFacts.
Import IEEE.

Lemma ieee_zero_laws : ZeroLaws (A := arith).
Proof. split; reflexivity. Qed.

Lemma ieee_literals :
  f_ratio_bound = S754_finite false 10066330 (-23)
  /\ d_threshold = S754_finite false 5404319552844595 (-55)
  /\ d_penalty = S754_finite false 4503599627370496 (-53).
Proof. repeat split; vm_compute; reflexivity. Qed.

Lemma ieee_example_run :
  use1D (value (classify example_grid)) = false
  /\ avgVariation (value (classify example_grid)) = Some (f64_lit 11 18).
Proof. split; vm_compute; reflexivity. Qed.
Lemma dark_grid_slice_is_zero : slice_is dark_grid 0 f_zero.
Proof.
  intros h Hh. cbn [anglesNumH dark_grid grid] in Hh.
  assert (Hcases : h = 0 \/ h = 1) by lia.
  destruct Hcases as [-> | ->]; reflexivity.
Qed.

(** C8, evaluated where it fails.  The input is read, loaded and resampled,
    the output file opens, and both codec writers answer failure: the
    conversion still returns [true]. *)
Theorem codec_write_failure_is_not_reported :
  existsb emission_failed
    (logged (IES2HDR (stub example_grid true true false false)
               "lamp.ies" "lamp.hdr" (grid 0 0 []))) = true
  /\ fst (value (IES2HDR (stub example_grid true true false false)
                   "lamp.ies" "lamp.hdr" (grid 0 0 []))) = true.
Proof. split; vm_compute; reflexivity. Qed.

(** C10 as stated fails on the binary32 / binary64 numbers the program
    computes with.  The uniform grid 1.0, 1.0 is classified 1-D; scaled by
    2^64 its samples are still finite, but their squares overflow [float],
    the score becomes infinite and the grid is classified 2-D. *)
Lemma scaling_can_flip_the_decision :
  ~ (forall (info : IESFileInfo arith) (k : spec_float),
        2 <= anglesNumH info ->
        1 <= anglesNumV info ->
        grid_ok info ->
        f_lt f_zero k = true ->
        forallb finite_positive (candalaValues info) = true ->
        forallb finite_positive (candalaValues (scale k info)) = true ->
        use1D (value (classify (scale k info)))
        = use1D (value (classify info))).
Proof.
  intros Hclaim.
  specialize (Hclaim uniform_grid two_pow_64).
  assert (Hflip : use1D (value (classify (scale two_pow_64 uniform_grid)))
                  = false) by (vm_compute; reflexivity).
  assert (Hplain : use1D (value (classify uniform_grid)) = true)
    by (vm_compute; reflexivity).
  rewrite Hflip, Hplain in Hclaim.
  assert (Hfalse : false = true).
  { apply Hclaim; try (vm_compute; reflexivity); cbn; lia. }
  discriminate Hfalse.
Qed.

(** Without any overflow the score is still not invariant bit for bit: the
    mean 4/3 of 1, 1, 2 is rounded, the mean 4 of 3, 3, 6 is not, and the two
    scores differ in their last binary digit. *)
Lemma scaling_changes_the_rounded_score :
  candalaValues (scale (f32_of_Z 3) skewed_grid)
  = [f32_of_Z 3; f32_of_Z 3; f32_of_Z 6]
  /\ avgVariation (value (classify skewed_grid))
     = Some (S754_finite false 7688125463633383 (-53))
  /\ avgVariation (value (classify (scale (f32_of_Z 3) skewed_grid)))
     = Some (S754_finite false 7688125463633382 (-53)).
Proof. repeat split; vm_compute; reflexivity. Qed.

Lemma single_horizontal_angle_is_1D_witness :
  anglesNumH single_angle_grid <= 1
  /\ classify single_angle_grid = ret {| use1D := true; avgVariation := None |}.
Proof.
  split; [cbn; lia|].
  apply (@single_horizontal_angle_is_1D arith single_angle_grid). cbn; lia.
Defined.

Lemma zero_slice_contributes_nothing_witness :
  2 <= anglesNumH dark_grid
  /\ slice_is dark_grid 0 f_zero
  /\ value (slice_step (anglesNumH dark_grid) d_penalty (slice_stats dark_grid 0))
     = d_penalty
  /\ logged (slice_step (anglesNumH dark_grid) d_penalty (slice_stats dark_grid 0))
     = [].
Proof.
  split; [cbn; lia|]. split; [exact dark_grid_slice_is_zero|].
  apply (@zero_slice_contributes_nothing arith ieee_zero_laws dark_grid 0 d_penalty).
  - cbn; lia.
  - exact dark_grid_slice_is_zero.
Defined.

Lemma resampler_failure_aborts_witness :
  existsb resampler_failed
    (logged (IES2HDR (stub example_grid false true true true)
               "lamp.ies" "lamp.hdr" (grid 0 0 []))) = true
  /\ fst (value (IES2HDR (stub example_grid false true true true)
                   "lamp.ies" "lamp.hdr" (grid 0 0 []))) = false
  /\ existsb touches_output
       (logged (IES2HDR (stub example_grid false true true true)
                  "lamp.ies" "lamp.hdr" (grid 0 0 []))) = false.
Proof.
  split; [vm_compute; reflexivity|].
  apply (@resampler_failure_aborts arith (stub example_grid false true true true)
           "lamp.ies" "lamp.hdr" (grid 0 0 [])).
  vm_compute; reflexivity.
Defined.
End IEEEFacts.

(** ** The worked example *)

(** C6. On the grid H = 2, V = 1 with samples 1.0 and 1.25 the classifier
    finds the mean 1.125 and the standard deviation 0.125, both exactly; its
    coefficient of variation is the double nearest to 1/9; it adds the
    penalty because 1.25 / 1.0 exceeds 1.2; it reaches the double nearest to
    11/18 as score, which is not below 0.15, and answers [use1D = false]. *)
Theorem worked_example_is_2D :
  (IEEE.to_Q (d_div (sum (slice_stats IEEE.example_grid 0)) (d_of_int 2))
   == 9 # 8)%Q
  /\ (IEEE.to_Q
        (d_sqrt
           (d_std_max d_zero
              (d_sub (d_div (sumSq (slice_stats IEEE.example_grid 0)) (d_of_int 2))
                     (d_mul (d_div (sum (slice_stats IEEE.example_grid 0))
                                   (d_of_int 2))
                            (d_div (sum (slice_stats IEEE.example_grid 0))
                                   (d_of_int 2))))))
      == 1 # 8)%Q
  /\ value (coeff_var 2 (slice_stats IEEE.example_grid 0)) = IEEE.f64_lit 1 9
  /\ (Qabs (IEEE.to_Q (IEEE.f64_lit 1 9) - (1 # 9)) <= 1 # 2 ^ 57)%Q
  /\ value (ratio_exceeded (slice_stats IEEE.example_grid 0)) = true
  /\ use1D (value (classify IEEE.example_grid)) = false
  /\ avgVariation (value (classify IEEE.example_grid))
     = Some (IEEE.f64_lit 11 18)
  /\ (Qabs (IEEE.to_Q (IEEE.f64_lit 11 18) - (11 # 18)) <= 1 # 2 ^ 54)%Q
  /\ @d_lt IEEE.arith (IEEE.f64_lit 11 18) d_threshold = false.
Proof.
  split; [vm_compute; reflexivity|].
  split; [vm_compute; reflexivity|].
  split; [vm_compute; reflexivity|].
  split; [vm_compute; discriminate|].
  split; [vm_compute; reflexivity|].
  split; [apply ieee_example_run|].
  split; [apply ieee_example_run|].
  split; [vm_compute; discriminate|].
  vm_compute; reflexivity.
Qed.

(** ** More on the driver: which runs succeed, what a run calls and in which order *)

Section DriverRuns.
Context {A : Arith}.
Variable c : Collaborators A.

(** The trace of a conversion, spelled out by the answers of the
    collaborators. *)
Lemma IES2HDR_unfold (path outpath : string) (info : IESFileInfo A) :
  IES2HDR c path outpath info
  = match read_file c path with
    | None => ((false, info), [OpenInput path false; Cout (ErrOpenInput path)])
    | Some content =>
        let size := Z.of_nat (List.length content) in
        let r := load c (content ++ [x00]) size info in
        let info' := snd r in
        if fst r then
          let call := selected_call (use1D (value (classify info')))
                                    (resampler_answer c info') in
          if resampler_answer c info' then
            ((fopen_wb c outpath, info'),
             OpenInput path true :: LoadIES size true
               :: logged (decide_1D info') ++ [call]
               ++ (if fopen_wb c outpath
                   then [Fopen outpath true;
                         HeaderWritten 128 128 (RGBE_WriteHeader c 128 128);
                         PixelsWritten (List.length (stream (HDRdata_init (A := A))))
                           128 128
                           (RGBE_WritePixels_RLE c
                              (stream (snd (value (resample c
                                 (use1D (value (classify info'))) info'
                                 HDRdata_init)))) 128 128);
                         Fclose]
                   else [Fopen outpath false;
                         Cout (ErrCreateOutput outpath path)]))
          else
            ((false, info'),
             OpenInput path true :: LoadIES size true
               :: logged (decide_1D info') ++ [call])
        else ((false, info'), [OpenInput path true; LoadIES size false])
    end.
Proof.
  unfold IES2HDR. destruct (read_file c path) as [content|]; [|reflexivity].
  cbv zeta.
  destruct (load c (content ++ [x00]) (Z.of_nat (List.length content)) info)
    as [loaded info'].
  cbn [fst snd]. destruct loaded; [|reflexivity]. cbn [negb].
  destruct (decide_1D_run info') as [Hdec _].
  unfold bind at 1 2 3. cbn [tell fst snd app].
  fold (value (decide_1D info')). fold (logged (decide_1D info')).
  rewrite Hdec.
  assert (Hres : fst (value (resample c (use1D (value (classify info'))) info'
                               HDRdata_init))
                 = resampler_answer c info'
                 /\ logged (resample c (use1D (value (classify info'))) info'
                              HDRdata_init)
                    = [selected_call (use1D (value (classify info')))
                                     (resampler_answer c info')]
                 /\ width (snd (value (resample c (use1D (value (classify info')))
                                         info' HDRdata_init))) = 128
                 /\ height (snd (value (resample c (use1D (value (classify info')))
                                          info' HDRdata_init))) = 128
                 /\ List.length (stream (snd (value (resample c
                                   (use1D (value (classify info'))) info'
                                   HDRdata_init))))
                    = List.length (stream (HDRdata_init (A := A)))).
  { unfold resample, resampler_answer, selected_call. cbv zeta.
    destruct (use1D (value (classify info'))).
    - destruct (saveAs1D c info' (stream HDRdata_init) (width HDRdata_init)
                  (channel HDRdata_init)) as [ok filled].
      cbn [bind tell ret fst snd value logged app with_stream width height stream].
      rewrite written_into_length. repeat split; reflexivity.
    - destruct (saveAs2D c info' (stream HDRdata_init) (width HDRdata_init)
                  (height HDRdata_init) (channel HDRdata_init)) as [ok filled].
      cbn [bind tell ret fst snd value logged app with_stream width height stream].
      rewrite written_into_length. repeat split; reflexivity. }
  destruct Hres as (Hok & Hlog & Hw & Hh & Hlen).
  unfold bind at 1. fold (value (resample c (use1D (value (classify info'))) info'
                                   HDRdata_init)).
  fold (logged (resample c (use1D (value (classify info'))) info' HDRdata_init)).
  rewrite Hok, Hlog.
  destruct (resampler_answer c info'); cbn [negb].
  - unfold bind. rewrite emit_hdr_run, Hw, Hh, Hlen.
    destruct (fopen_wb c outpath); cbn [fst snd ret app];
      rewrite ?app_nil_r; reflexivity.
  - unfold ret. cbn [app]. reflexivity.
Qed.
Lemma couts_are_inert (prints : list (event A)) :
  forallb is_cout prints = true ->
  filter is_resampler prints = []
  /\ existsb is_resampler prints = false
  /\ existsb touches_output prints = false
  /\ opened_outputs prints = [].
Proof.
  induction prints as [|e rest IH]; cbn [forallb]; [intros _; repeat split|].
  intros H. apply andb_prop in H as [He Hrest].
  destruct (IH Hrest) as (H1 & H2 & H3 & H4).
  destruct e; try discriminate. cbn. repeat split; assumption.
Qed.

Lemma decide_1D_log (info : IESFileInfo A) :
  logged (decide_1D info)
  = match avgVariation (value (classify info)) with
    | None => [Cout InfoSingleAngle]
    | Some avg => [Cout (InfoVariation avg);
                   Cout (InfoDecision (use1D (value (classify info))))]
    end.
Proof.
  unfold decide_1D. destruct (avgVariation (value (classify info))); reflexivity.
Qed.

Lemma no_score_means_1D (info : IESFileInfo A) :
  avgVariation (value (classify info)) = None ->
  use1D (value (classify info)) = true.
Proof.
  unfold classify. destruct (anglesNumH info <=? 1); [reflexivity|].
  rewrite value_bind. discriminate.
Qed.

Lemma buffer_length :
  List.length (stream (HDRdata_init (A := A))) = Z.to_nat (128 * 128 * 3).
Proof.
  destruct (HDRdata_init_geometry (A := A)) as (_ & _ & _ & Hlen).
  rewrite <- Hlen. now rewrite Nat2Z.id.
Qed.

Ltac by_cases path outpath info :=
  rewrite (IES2HDR_unfold path outpath info);
  destruct (read_file c path) as [content|];
  [ cbv zeta;
    destruct (load c (content ++ [x00]) (Z.of_nat (List.length content)) info)
      as [loaded info'];
    cbn [fst snd];
    destruct loaded;
    [ destruct (resampler_answer c info') eqn:Hresample;
      [ destruct (fopen_wb c outpath) eqn:Hfopen | ] | ] | ];
  cbn [value logged fst snd].

(** X1. A conversion returns [true] exactly when the input file opens, the
    loader accepts it, the resampler selected by the classifier succeeds and
    the output file opens; nothing else enters the flag. *)
Theorem conversion_succeeds_iff (path outpath : string) (info : IESFileInfo A) :
  fst (value (IES2HDR c path outpath info)) = true
  <-> exists content,
        read_file c path = Some content
        /\ fst (load c (content ++ [x00]) (Z.of_nat (List.length content)) info)
           = true
        /\ resampler_answer c
             (snd (load c (content ++ [x00]) (Z.of_nat (List.length content)) info))
           = true
        /\ fopen_wb c outpath = true.
Proof.
  rewrite (IES2HDR_unfold path outpath info).
  destruct (read_file c path) as [content|]; cbv zeta.
  - destruct (load c (content ++ [x00]) (Z.of_nat (List.length content)) info)
      as [loaded info'] eqn:Hload.
    cbn [fst snd].
    destruct loaded, (resampler_answer c info') eqn:Hres; cbn [value fst];
      split;
      try (intros H; exists content; rewrite Hload; cbn [fst snd];
           repeat split; assumption);
      try discriminate;
      intros (content' & Hread & Hl & Hr & Hf);
      injection Hread as <-; rewrite Hload in Hl, Hr; cbn [fst snd] in Hl, Hr;
      congruence.
  - cbn [value fst]. split; [discriminate|].
    intros (content & Hread & _). discriminate.
Qed.

(** X2. Once the input is loaded, a conversion invokes exactly one resampler,
    exactly once, on the 128 x 128 x 3 buffer: [saveAs1D] when the classifier
    said [use1D], [saveAs2D] otherwise. *)
Theorem one_resampler_is_dispatched
        (path outpath : string) (info : IESFileInfo A) (content : list byte) :
  read_file c path = Some content ->
  fst (load c (content ++ [x00]) (Z.of_nat (List.length content)) info) = true ->
  filter is_resampler (logged (IES2HDR c path outpath info))
  = [selected_call
       (use1D (value (classify
          (snd (load c (content ++ [x00]) (Z.of_nat (List.length content)) info)))))
       (resampler_answer c
          (snd (load c (content ++ [x00]) (Z.of_nat (List.length content)) info)))].
Proof.
  intros Hread Hload. rewrite (IES2HDR_unfold path outpath info), Hread.
  cbv zeta. rewrite Hload.
  set (info' := snd (load c (content ++ [x00])
                       (Z.of_nat (List.length content)) info)).
  destruct (decide_1D_run info') as [_ Hcouts].
  destruct (couts_are_inert _ Hcouts) as (Hfilter & _).
  assert (Hcall : forall b ok, is_resampler (selected_call (A := A) b ok) = true)
    by (intros [|] ok; reflexivity).
  destruct (resampler_answer c info'); cbn [logged snd filter is_resampler];
    rewrite !filter_app, Hfilter; cbn [filter app]; rewrite Hcall;
    [destruct (fopen_wb c outpath)|]; reflexivity.
Qed.

(** X3. When the input file cannot be opened, or the loader rejects it, the
    conversion returns [false] without invoking a resampler and without
    touching the output path. *)
Theorem unreadable_input_aborts (path outpath : string) (info : IESFileInfo A) :
  (read_file c path = None
   \/ exists content,
        read_file c path = Some content
        /\ fst (load c (content ++ [x00]) (Z.of_nat (List.length content)) info)
           = false) ->
  fst (value (IES2HDR c path outpath info)) = false
  /\ existsb is_resampler (logged (IES2HDR c path outpath info)) = false
  /\ existsb touches_output (logged (IES2HDR c path outpath info)) = false.
Proof.
  intros Hbad. rewrite (IES2HDR_unfold path outpath info).
  destruct Hbad as [Hread | (content & Hread & Hload)]; rewrite Hread.
  - repeat split; reflexivity.
  - cbv zeta. rewrite Hload. repeat split; reflexivity.
Qed.

(** X4. A conversion that returns [true] ends with exactly four output
    events, in this order: the output path is opened, the header is written
    for 128 x 128, the 49152 floats are written, the file is closed; nothing
    before them touches the output. *)
Theorem successful_run_emits_in_order
        (path outpath : string) (info : IESFileInfo A) :
  fst (value (IES2HDR c path outpath info)) = true ->
  exists before tail,
    logged (IES2HDR c path outpath info) = before ++ tail
    /\ is_emission_of outpath tail
    /\ existsb touches_output before = false.
Proof.
  by_cases path outpath info; try discriminate. intros _.
  destruct (decide_1D_run info') as [_ Hcouts].
  destruct (couts_are_inert _ Hcouts) as (_ & _ & Hquiet & _).
  exists (OpenInput path true :: LoadIES (Z.of_nat (List.length content)) true
            :: logged (decide_1D info')
            ++ [selected_call (use1D (value (classify info'))) true]).
  eexists. split; [|split].
  - cbn [app]. rewrite <- app_assoc. reflexivity.
  - unfold is_emission_of. rewrite buffer_length. do 2 eexists. reflexivity.
  - cbn [existsb touches_output orb]. rewrite existsb_app, Hquiet.
    unfold selected_call. cbv zeta.
    destruct (use1D (value (classify info'))); reflexivity.
Qed.

(** X5. A conversion that returns [false] has written nothing and closed
    nothing: the only output event its trace can hold is the [fopen] that
    failed. *)
Theorem failed_run_leaves_output_alone
        (path outpath : string) (info : IESFileInfo A) (e : event A) :
  fst (value (IES2HDR c path outpath info)) = false ->
  In e (logged (IES2HDR c path outpath info)) ->
  touches_output e = true ->
  e = Fopen outpath false.
Proof.
  by_cases path outpath info; try discriminate; intros _ Hin Hout.
  - destruct Hin as [<-|[<-|Hin]]; try discriminate Hout.
    apply in_app_or in Hin. destruct Hin as [Hin|Hin].
    + exfalso. destruct (decide_1D_run info') as [_ Hcouts].
      destruct (couts_are_inert _ Hcouts) as (_ & _ & Hquiet & _).
      assert (Hex : existsb touches_output (logged (decide_1D info')) = true)
        by (apply existsb_exists; exists e; split; assumption).
      congruence.
    + destruct Hin as [<-|[<-|[<-|[]]]]; try reflexivity; try discriminate Hout.
      exfalso. unfold selected_call in Hout. cbv zeta in Hout.
      destruct (use1D (value (classify info'))); discriminate Hout.
  - destruct Hin as [<-|[<-|Hin]]; try discriminate Hout.
    apply in_app_or in Hin. destruct Hin as [Hin|Hin].
    + exfalso. destruct (decide_1D_run info') as [_ Hcouts].
      destruct (couts_are_inert _ Hcouts) as (_ & _ & Hquiet & _).
      assert (Hex : existsb touches_output (logged (decide_1D info')) = true)
        by (apply existsb_exists; exists e; split; assumption).
      congruence.
    + destruct Hin as [<-|[]]. exfalso.
      unfold selected_call in Hout. cbv zeta in Hout.
      destruct (use1D (value (classify info'))); discriminate Hout.
  - destruct Hin as [<-|[<-|[]]]; discriminate Hout.
  - destruct Hin as [<-|[<-|[]]]; discriminate Hout.
Qed.

(** X6. The only path a conversion ever opens for writing is [outpath], and
    it opens it at most once; it opens it exactly when input, loader and
    resampler all succeeded. *)
Theorem only_outpath_is_opened (path outpath : string) (info : IESFileInfo A) :
  opened_outputs (logged (IES2HDR c path outpath info))
  = if existsb is_resampler (logged (IES2HDR c path outpath info))
       && negb (existsb resampler_failed (logged (IES2HDR c path outpath info)))
    then [outpath] else [].
Proof.
  assert (Hsel : forall b ok,
             opened_outputs [selected_call (A := A) b ok] = []
             /\ is_resampler (selected_call (A := A) b ok) = true
             /\ resampler_failed (selected_call (A := A) b ok) = negb ok)
    by (intros [|] ok; repeat split; reflexivity).
  assert (Happ : forall l1 l2 : list (event A),
             opened_outputs (l1 ++ l2) = opened_outputs l1 ++ opened_outputs l2).
  { induction l1 as [|x l1 IH]; intros l2; [reflexivity|].
    destruct x; cbn [app opened_outputs]; rewrite ?IH; reflexivity. }
  by_cases path outpath info; try reflexivity;
    destruct (decide_1D_run info') as [_ Hcouts];
    destruct (couts_are_inert _ Hcouts) as (_ & Hres & _ & Hopen);
    destruct (prints_are_quiet _ Hcouts) as (Hfail & _);
    cbn [opened_outputs existsb is_resampler resampler_failed orb];
    rewrite !Happ, !existsb_app, Hopen, Hres, Hfail;
    cbn [app existsb orb];
    destruct (Hsel (use1D (value (classify info'))) true) as (H1 & H2 & H3);
    destruct (Hsel (use1D (value (classify info'))) false) as (H1' & H2' & H3');
    cbn [opened_outputs] in H1, H1';
    rewrite ?H2, ?H3, ?H2', ?H3';
    try (unfold selected_call; cbv zeta;
         destruct (use1D (value (classify info'))));
    reflexivity.
Qed.

(** X7. [IES2HDR] itself never changes [info]: the value it leaves is the
    caller's when the input cannot be opened, and otherwise what the loader
    wrote, also when a later stage fails. *)
Theorem info_is_the_loaders (path outpath : string) (info : IESFileInfo A) :
  snd (value (IES2HDR c path outpath info))
  = match read_file c path with
    | None => info
    | Some content =>
        snd (load c (content ++ [x00]) (Z.of_nat (List.length content)) info)
    end.
Proof. by_cases path outpath info; reflexivity. Qed.

(** X8. The representation announced on the log is the one that is
    resampled: after "saving as 1D" (or the single-angle line) the call is
    [saveAs1D], after "saving as 2D" it is [saveAs2D]. *)
Theorem announced_representation_is_used
        (path outpath : string) (info : IESFileInfo A) (m : message A) :
  In (Cout m) (logged (IES2HDR c path outpath info)) ->
  match m with
  | InfoSingleAngle =>
      exists ok, In (selected_call true ok) (logged (IES2HDR c path outpath info))
  | InfoDecision oneD =>
      exists ok, In (selected_call oneD ok) (logged (IES2HDR c path outpath info))
  | _ => True
  end.
Proof.
  assert (Hdecide : forall info',
             In (Cout m) (logged (decide_1D info')) ->
             match m with
             | InfoSingleAngle => use1D (value (classify info')) = true
             | InfoDecision oneD => use1D (value (classify info')) = oneD
             | _ => True
             end).
  { intros info'. rewrite decide_1D_log.
    destruct (avgVariation (value (classify info'))) eqn:Hscore.
    - intros [H|[H|[]]]; inversion H; subst; auto.
    - intros [H|[]]; inversion H; subst. now apply no_score_means_1D. }
  assert (Hcall : forall b ok, Cout m <> selected_call (A := A) b ok)
    by (intros [|] ok; discriminate).
  by_cases path outpath info; intros Hin.
  - destruct Hin as [Hin|[Hin|Hin]]; try discriminate Hin.
    apply in_app_or in Hin. destruct Hin as [Hin|Hin].
    + specialize (Hdecide info' Hin).
      destruct m; try exact I; exists true; rewrite <- Hdecide;
        right; right; apply in_or_app; right; left; reflexivity.
    + destruct Hin as [Hin|Hin];
        [symmetry in Hin; now apply Hcall in Hin|].
      repeat (destruct Hin as [Hin|Hin]; try discriminate Hin). destruct Hin.
  - destruct Hin as [Hin|[Hin|Hin]]; try discriminate Hin.
    apply in_app_or in Hin. destruct Hin as [Hin|Hin].
    + specialize (Hdecide info' Hin).
      destruct m; try exact I; exists true; rewrite <- Hdecide;
        right; right; apply in_or_app; right; left; reflexivity.
    + destruct Hin as [Hin|Hin];
        [symmetry in Hin; now apply Hcall in Hin|].
      destruct Hin as [Hin|[Hin|[]]]; try discriminate Hin.
      inversion Hin; subst. exact I.
  - destruct Hin as [Hin|[Hin|Hin]]; try discriminate Hin.
    apply in_app_or in Hin. destruct Hin as [Hin|Hin].
    + specialize (Hdecide info' Hin).
      destruct m; try exact I; exists false; rewrite <- Hdecide;
        right; right; apply in_or_app; right; left; reflexivity.
    + destruct Hin as [Hin|[]]. symmetry in Hin. now apply Hcall in Hin.
  - destruct Hin as [Hin|[Hin|[]]]; discriminate Hin.
  - destruct Hin as [Hin|[Hin|[]]]; try discriminate Hin.
    inversion Hin; subst. exact I.
Qed.
End DriverRuns.

(** ** The command line *)

Section MainFacts.
Context {A : Arith}.
Variable rt : Runtime A.
Variable c : Collaborators A.

Lemma conversions_app (l1 l2 : list (main_event A)) :
  conversions (l1 ++ l2) = conversions l1 ++ conversions l2.
Proof.
  induction l1 as [|e l1 IH]; [reflexivity|].
  destruct e; cbn [app conversions]; rewrite IH; reflexivity.
Qed.

Lemma error_reports_app (l1 l2 : list (main_event A)) :
  error_reports (l1 ++ l2) = (error_reports l1 + error_reports l2)%nat.
Proof.
  induction l1 as [|e l1 IH]; [reflexivity|].
  destruct e as [[| |]| | | | |]; cbn [app error_reports]; rewrite IH; reflexivity.
Qed.

Lemma convert_and_report_log (filename : string) :
  logged (convert_and_report rt c filename)
  = let run := IES2HDR_next_to_input rt c filename (fresh_info rt) in
    Converted filename (logged run) (fst (value run))
      :: (if fst (value run) then [] else [MainCout (ErrReport (snd (value run)))]).
Proof.
  unfold convert_and_report. cbv zeta.
  destruct (fst (value (IES2HDR_next_to_input rt c filename (fresh_info rt))));
    reflexivity.
Qed.

Lemma convert_entries_log (drive dir fname : string) (entries : list finddata) :
  logged (convert_entries rt c drive dir fname entries)
  = flat_map (fun entry =>
                (if is_plain_file rt entry
                 then MainCout (InfoConverting (entry_path drive dir fname entry))
                        :: logged (convert_and_report rt c
                                     (entry_path drive dir fname entry))
                 else [])
                ++ [FindNext])
             entries.
Proof.
  induction entries as [|entry rest IH]; [reflexivity|].
  cbn [convert_entries flat_map]. rewrite !logged_bind, IH. rewrite app_assoc.
  f_equal. f_equal.
  destruct (is_plain_file rt entry); [|reflexivity].
  rewrite logged_bind. reflexivity.
Qed.

Lemma convert_directory_log (drive dir fname : string) :
  logged (convert_directory rt c drive dir fname)
  = let entries := find_files rt (((drive ++ dir) ++ fname) ++ "/*.ies")%string in
    FindFirst (((drive ++ dir) ++ fname) ++ "/*.ies")%string
      :: logged (convert_entries rt c drive dir fname entries)
      ++ match entries with [] => [] | _ => [FindClose] end.
Proof.
  unfold convert_directory. cbv zeta. rewrite logged_bind.
  cbn [logged tell snd app]. f_equal.
  destruct (find_files rt (((drive ++ dir) ++ fname) ++ "/*.ies")%string)
    as [|entry rest]; [reflexivity|].
  rewrite logged_bind. reflexivity.
Qed.

Lemma main_log (argv : list string) :
  logged (main rt c argv)
  = if Z.of_nat (List.length argv) <=? 1
    then [MainCout ErrNoPath; SystemPause]
    else
      let '(drive, dir, fname, ext) := splitpath rt (nth 1 argv EmptyString) in
      if stricmp rt ext ".ies" =? 0
      then logged (convert_and_report rt c (nth 1 argv EmptyString))
      else logged (convert_directory rt c drive dir fname).
Proof.
  unfold main. cbv zeta.
  destruct (Z.of_nat (List.length argv) <=? 1); [reflexivity|].
  destruct (splitpath rt (nth 1 argv EmptyString)) as [[[drive dir] fname] ext].
  rewrite logged_bind. cbn [logged ret snd]. rewrite app_nil_r.
  destruct (stricmp rt ext ".ies" =? 0); reflexivity.
Qed.

Lemma conversions_of_directory (drive dir fname : string) :
  conversions (logged (convert_directory rt c drive dir fname))
  = conversions
      (logged (convert_entries rt c drive dir fname
                 (find_files rt (((drive ++ dir) ++ fname) ++ "/*.ies")%string))).
Proof.
  rewrite convert_directory_log. cbv zeta. cbn [conversions].
  rewrite conversions_app.
  destruct (find_files rt (((drive ++ dir) ++ fname) ++ "/*.ies")%string);
    cbn [conversions]; apply app_nil_r.
Qed.

Lemma error_reports_of_directory (drive dir fname : string) :
  error_reports (logged (convert_directory rt c drive dir fname))
  = error_reports
      (logged (convert_entries rt c drive dir fname
                 (find_files rt (((drive ++ dir) ++ fname) ++ "/*.ies")%string))).
Proof.
  rewrite convert_directory_log. cbv zeta. cbn [error_reports].
  rewrite error_reports_app.
  destruct (find_files rt (((drive ++ dir) ++ fname) ++ "/*.ies")%string);
    cbn [error_reports]; apply Nat.add_0_r.
Qed.

Lemma opened_outputs_of_run (path outpath : string) (info : IESFileInfo A) :
  opened_outputs (logged (IES2HDR c path outpath info)) = []
  \/ opened_outputs (logged (IES2HDR c path outpath info)) = [outpath].
Proof.
  assert (Happ : forall l1 l2 : list (event A),
             opened_outputs (l1 ++ l2) = opened_outputs l1 ++ opened_outputs l2).
  { induction l1 as [|x l1 IH]; intros l2; [reflexivity|].
    destruct x; cbn [app opened_outputs]; rewrite ?IH; reflexivity. }
  assert (Hsel : forall b ok, opened_outputs [selected_call (A := A) b ok] = [])
    by (intros [|] ok; reflexivity).
  rewrite (IES2HDR_unfold c path outpath info).
  destruct (read_file c path) as [content|]; [|left; reflexivity].
  cbv zeta.
  destruct (load c (content ++ [x00]) (Z.of_nat (List.length content)) info)
    as [loaded info'].
  cbn [fst snd]. destruct loaded; [|left; reflexivity].
  destruct (decide_1D_run info') as [_ Hcouts].
  destruct (couts_are_inert _ Hcouts) as (_ & _ & _ & Hopen).
  destruct (resampler_answer c info'); cbn [logged snd opened_outputs];
    rewrite !Happ, Hopen, Hsel; cbn [app].
  - right. destruct (fopen_wb c outpath); reflexivity.
  - left. reflexivity.
Qed.

(** X9. [main] returns [EXIT_FAILURE] exactly when no path was given, and
    then converts nothing; with a path it returns 0, whether or not a
    conversion failed. *)
Theorem exit_status_only_reports_a_missing_argument (argv : list string) :
  (value (main rt c argv) = EXIT_FAILURE <-> (List.length argv <= 1)%nat)
  /\ (value (main rt c argv) = 0 <-> (2 <= List.length argv)%nat)
  /\ ((List.length argv <= 1)%nat -> conversions (logged (main rt c argv)) = []).
Proof.
  assert (Hval : value (main rt c argv)
                 = if Z.of_nat (List.length argv) <=? 1 then EXIT_FAILURE else 0).
  { unfold main. cbv zeta.
    destruct (Z.of_nat (List.length argv) <=? 1); [reflexivity|].
    destruct (splitpath rt (nth 1 argv EmptyString)) as [[[drive dir] fname] ext].
    rewrite value_bind. reflexivity. }
  rewrite Hval, main_log. unfold EXIT_FAILURE.
  destruct (Z.of_nat (List.length argv) <=? 1) eqn:E;
    [apply Z.leb_le in E | apply Z.leb_gt in E];
    repeat split; intros; try reflexivity; try discriminate; lia.
Qed.

(** X10. Given a path whose extension [_stricmp] does not equate with
    ".ies", [main] searches [drive + dir + fname + "/*.ies"] and converts
    the entries found, in the order found, skipping those with the
    [_A_SUBDIR] attribute; every conversion starts from a fresh [info], and a
    conversion that fails does not stop the ones after it. *)
Theorem batch_converts_every_plain_entry
        (argv : list string) (drive dir fname ext : string) :
  (2 <= List.length argv)%nat ->
  splitpath rt (nth 1 argv EmptyString) = (drive, dir, fname, ext) ->
  stricmp rt ext ".ies" <> 0 ->
  conversions (logged (main rt c argv))
  = map (fun entry =>
           let filename := entry_path drive dir fname entry in
           (filename,
            fst (value (IES2HDR_next_to_input rt c filename (fresh_info rt)))))
        (filter (is_plain_file rt)
                (find_files rt (((drive ++ dir) ++ fname) ++ "/*.ies")%string)).
Proof.
  intros Hargc Hsplit Hext. rewrite main_log.
  destruct (Z.of_nat (List.length argv) <=? 1) eqn:E;
    [apply Z.leb_le in E; lia|].
  rewrite Hsplit. apply Z.eqb_neq in Hext. rewrite Hext.
  rewrite conversions_of_directory, convert_entries_log.
  induction (find_files rt (((drive ++ dir) ++ fname) ++ "/*.ies")%string)
    as [|entry rest IH]; [reflexivity|].
  cbn [flat_map filter]. rewrite !conversions_app, IH. cbn [conversions app].
  rewrite app_nil_r.
  destruct (is_plain_file rt entry); [|reflexivity].
  rewrite convert_and_report_log. cbv zeta. cbn [conversions map app].
  destruct (fst (value (IES2HDR_next_to_input rt c
                          (entry_path drive dir fname entry) (fresh_info rt))));
    reflexivity.
Qed.

(** X11. Given a path whose extension [_stricmp] equates with ".ies",
    [main] converts that one file and nothing else: all it does is that
    conversion and, if it failed, the error line; no directory is searched
    ([_findfirst], [_findnext] and [_findclose] are not called) and the
    arguments after the first are not looked at.  Given any other path,
    [_findfirst] is the first thing [main] does. *)
Theorem single_file_is_converted_alone
        (argv : list string) (drive dir fname ext : string) :
  (2 <= List.length argv)%nat ->
  splitpath rt (nth 1 argv EmptyString) = (drive, dir, fname, ext) ->
  (stricmp rt ext ".ies" = 0 ->
   conversions (logged (main rt c argv))
   = [(nth 1 argv EmptyString,
       fst (value (IES2HDR_next_to_input rt c (nth 1 argv EmptyString)
                     (fresh_info rt))))]
   /\ logged (main rt c argv)
      = logged (convert_and_report rt c (nth 1 argv EmptyString))
   /\ existsb is_search (logged (main rt c argv)) = false)
  /\ (stricmp rt ext ".ies" <> 0 ->
      exists rest,
        logged (main rt c argv)
        = FindFirst (((drive ++ dir) ++ fname) ++ "/*.ies")%string :: rest).
Proof.
  intros Hargc Hsplit. rewrite main_log.
  destruct (Z.of_nat (List.length argv) <=? 1) eqn:E;
    [apply Z.leb_le in E; lia|].
  rewrite Hsplit. split; intros Hext.
  - rewrite Hext. cbn [Z.eqb].
    rewrite convert_and_report_log. cbv zeta.
    destruct (fst (value (IES2HDR_next_to_input rt c (nth 1 argv EmptyString)
                            (fresh_info rt))));
      repeat split; reflexivity.
  - apply Z.eqb_neq in Hext. rewrite Hext, convert_directory_log. cbv zeta.
    eexists. reflexivity.
Qed.

(** X12. [main] prints [info.error()] once for every conversion that
    returned [false] and never for one that returned [true]. *)
Theorem one_error_line_per_failed_conversion (argv : list string) :
  error_reports (logged (main rt c argv))
  = List.length (filter (fun conversion => negb (snd conversion))
                        (conversions (logged (main rt c argv)))).
Proof.
  assert (Hone : forall filename,
             error_reports (logged (convert_and_report rt c filename))
             = List.length (filter (fun conversion => negb (snd conversion))
                  (conversions (logged (convert_and_report rt c filename))))).
  { intros filename. rewrite convert_and_report_log. cbv zeta.
    destruct (fst (value (IES2HDR_next_to_input rt c filename (fresh_info rt))));
      reflexivity. }
  rewrite main_log.
  destruct (Z.of_nat (List.length argv) <=? 1); [reflexivity|].
  destruct (splitpath rt (nth 1 argv EmptyString)) as [[[drive dir] fname] ext].
  destruct (stricmp rt ext ".ies" =? 0); [apply Hone|].
  rewrite error_reports_of_directory, conversions_of_directory.
  rewrite convert_entries_log.
  induction (find_files rt (((drive ++ dir) ++ fname) ++ "/*.ies")%string)
    as [|entry rest IH]; [reflexivity|].
  cbn [flat_map].
  rewrite !error_reports_app, !conversions_app, !filter_app, !length_app, IH.
  cbn [error_reports conversions filter List.length]. rewrite !Nat.add_0_r.
  f_equal. destruct (is_plain_file rt entry); [|reflexivity].
  cbn [error_reports conversions]. apply Hone.
Qed.

(** X13. Whatever [main] converts, the only file a conversion opens for
    writing is the input's drive, directory and file name followed by
    ".hdr", and it opens it at most once. *)
Theorem main_writes_only_next_to_the_input
        (argv : list string) (path : string) (events : list (event A)) (ok : bool) :
  In (Converted path events ok) (logged (main rt c argv)) ->
  opened_outputs events = [] \/ opened_outputs events = [hdr_path rt path].
Proof.
  assert (Hone : forall filename,
             In (Converted path events ok)
                (logged (convert_and_report rt c filename)) ->
             opened_outputs events = []
             \/ opened_outputs events = [hdr_path rt path]).
  { intros filename. rewrite convert_and_report_log. cbv zeta.
    intros [Hin|Hin].
    - inversion Hin; subst. apply opened_outputs_of_run.
    - destruct (fst (value (IES2HDR_next_to_input rt c filename (fresh_info rt))));
        [destruct Hin | destruct Hin as [Hin|[]]; discriminate Hin]. }
  rewrite main_log.
  destruct (Z.of_nat (List.length argv) <=? 1).
  { intros [H|[H|[]]]; discriminate H. }
  destruct (splitpath rt (nth 1 argv EmptyString)) as [[[drive dir] fname] ext].
  destruct (stricmp rt ext ".ies" =? 0); [apply Hone|].
  rewrite convert_directory_log. cbv zeta. intros [Hin|Hin]; [discriminate Hin|].
  apply in_app_or in Hin. destruct Hin as [Hin|Hin].
  - rewrite convert_entries_log in Hin.
    apply in_flat_map in Hin. destruct Hin as (entry & _ & Hin).
    apply in_app_or in Hin. destruct Hin as [Hin|[Hin|[]]]; [|discriminate Hin].
    destruct (is_plain_file rt entry); [|destruct Hin].
    destruct Hin as [Hin|Hin]; [discriminate Hin|]. eapply Hone, Hin.
  - destruct (find_files rt (((drive ++ dir) ++ fname) ++ "/*.ies")%string);
      [destruct Hin | destruct Hin as [Hin|[]]; discriminate Hin].
Qed.
End MainFacts.

(** ** More on the classifier, in any arithmetic *)

Section ClassifierBounds.
Context {A : Arith}.

Lemma for_each_ext {E S : Type} (f g : Z -> S -> Writer (E := E) S)
      (idx : list Z) (s : S) :
  (forall i s', In i idx -> f i s' = g i s') ->
  for_each idx f s = for_each idx g s.
Proof.
  revert s. induction idx as [|i idx IH]; intros s Hfg; [reflexivity|].
  cbn [for_each]. rewrite Hfg by (left; reflexivity).
  unfold bind. rewrite IH; [reflexivity|].
  intros j s' Hj. apply Hfg. right. exact Hj.
Qed.

Lemma for_each_log_length {E S : Type} (body : Z -> S -> Writer (E := E) S)
      (idx : list Z) (s : S) (n : nat) :
  (forall i s', (List.length (logged (body i s')) <= n)%nat) ->
  (List.length (logged (for_each idx body s)) <= n * List.length idx)%nat.
Proof.
  intros Hbody. revert s. induction idx as [|i idx IH]; intros s.
  - cbn. lia.
  - cbn [for_each]. rewrite logged_bind, length_app. cbn [List.length].
    specialize (Hbody i s). specialize (IH (value (body i s))). lia.
Qed.

Lemma for_each_log_Forall {E S : Type} (P : E -> Prop)
      (body : Z -> S -> Writer (E := E) S) (idx : list Z) (s : S) :
  (forall i s', Forall P (logged (body i s'))) ->
  Forall P (logged (for_each idx body s)).
Proof.
  intros Hbody. revert s. induction idx as [|i idx IH]; intros s.
  - constructor.
  - cbn [for_each]. rewrite logged_bind. apply Forall_app. split; auto.
Qed.

Lemma slice_step_log (H : Z) (total : dbl) (st : SliceStats A) :
  logged (slice_step H total st)
  = if d_lt d_zero (sum st)
    then let mean := d_div (sum st) (d_of_int H) in
         let variance := d_sub (d_div (sumSq st) (d_of_int H)) (d_mul mean mean) in
         [DivDouble (sum st) (d_of_int H);
          DivDouble (sumSq st) (d_of_int H);
          DivDouble (d_sqrt (d_std_max d_zero variance)) mean]
         ++ (if f_lt f_zero (minVal st)
             then [DivFloat (maxVal st) (minVal st)] else [])
    else [].
Proof.
  unfold slice_step, ratio_exceeded.
  destruct (d_lt d_zero (sum st)); [|reflexivity].
  destruct (f_lt f_zero (minVal st)); reflexivity.
Qed.

Lemma classify_log (info : IESFileInfo A) :
  1 < anglesNumH info ->
  logged (classify info)
  = logged (running_total info)
    ++ [DivDouble (value (running_total info)) (d_of_int (anglesNumV info))].
Proof.
  intros HH. unfold classify.
  destruct (anglesNumH info <=? 1) eqn:E; [apply Z.leb_le in E; lia|].
  rewrite logged_bind. cbn [logged ret snd]. rewrite app_nil_r.
  unfold average_variation. rewrite logged_bind. reflexivity.
Qed.

(** X14. The classifier executes at most four divisions per vertical angle
    and one for the average: never more than [4 * V + 1], and at least the
    final one as soon as there are two horizontal angles. *)
Theorem division_count_is_bounded (info : IESFileInfo A) :
  (List.length (logged (classify info))
   <= 4 * Z.to_nat (anglesNumV info) + 1)%nat
  /\ (1 < anglesNumH info -> (1 <= List.length (logged (classify info)))%nat).
Proof.
  destruct (Z_le_gt_dec (anglesNumH info) 1) as [Hle|Hgt].
  - unfold classify. destruct (anglesNumH info <=? 1) eqn:E;
      [|apply Z.leb_gt in E; lia].
    cbn. split; lia.
  - rewrite classify_log by lia. rewrite length_app. cbn [List.length].
    split; [|lia].
    pose proof (for_each_log_length
                  (fun v avg => slice_step (anglesNumH info) avg (slice_stats info v))
                  (range (anglesNumV info)) d_zero (n := 4)) as Hloop.
    rewrite range_length in Hloop. unfold running_total.
    enough (Hok : (List.length
               (logged (for_each (range (anglesNumV info))
                  (fun v avg =>
                     slice_step (anglesNumH info) avg (slice_stats info v))
                  d_zero)) <= 4 * Z.to_nat (anglesNumV info))%nat) by lia.
    apply Hloop. intros v total. rewrite slice_step_log.
    destruct (d_lt d_zero (sum (slice_stats info v))); [|cbn; lia].
    cbv zeta. destruct (f_lt f_zero (minVal (slice_stats info v))); cbn; lia.
Qed.

Lemma at_index_app (values extra : list flt) (i : Z) :
  0 <= i < Z.of_nat (List.length values) ->
  at_index (values ++ extra) i = at_index values i.
Proof. intros Hi. unfold at_index. apply app_nth1. lia. Qed.

Lemma slice_with_trailing (extra : list flt) (info : IESFileInfo A) (v : Z) :
  grid_ok info -> 0 <= v < anglesNumV info ->
  slice (with_trailing extra info) v = slice info v.
Proof.
  intros Hok Hv. unfold slice. cbn [with_trailing anglesNumH anglesNumV candalaValues].
  apply map_ext_in. intros h Hh. apply in_range in Hh.
  apply at_index_app. unfold grid_ok in Hok. rewrite Hok. nia.
Qed.

(** X15. On a grid that holds its [H * V] samples, every read of the
    classifier is at an offset inside [0, H * V): whatever is stored after
    the declared samples changes neither the result nor the divisions
    executed. *)
Theorem reads_stay_inside_the_grid (extra : list flt) (info : IESFileInfo A) :
  grid_ok info ->
  classify (with_trailing extra info) = classify info.
Proof.
  intros Hok. unfold classify, average_variation, running_total.
  cbn [with_trailing anglesNumH anglesNumV].
  destruct (anglesNumH info <=? 1); [reflexivity|].
  f_equal. f_equal. apply for_each_ext. intros v total Hv.
  apply in_range in Hv. unfold slice_stats.
  now rewrite slice_with_trailing.
Qed.
End ClassifierBounds.

(** ** The classifier against its description, in any arithmetic *)

Section DescriptionFacts.
Context {A : Arith}.

Lemma count_up_seq (k : nat) : count_up k = map Z.of_nat (seq 0 k).
Proof.
  induction k as [|k IH]; [reflexivity|].
  cbn [count_up]. rewrite seq_S, map_app, IH. reflexivity.
Qed.

Lemma indices_range (n : Z) : indices n = range n.
Proof. apply count_up_seq. Qed.

Lemma indices_length (n : Z) : List.length (indices n) = Z.to_nat n.
Proof. rewrite indices_range. apply range_length. Qed.



(** The inner loop keeps the running extrema, the sum and the sum of
    squares of the samples it has read. *)
Lemma stats_fold (l : list flt) (st : SliceStats A) :
  fold_left stats_add l st
  = {| minVal := least_from (minVal st) l;
       maxVal := greatest_from (maxVal st) l;
       sum := sum_from (sum st) l;
       sumSq := sumOfSquares_from (sumSq st) l |}.
Proof.
  revert st. induction l as [|x l IH]; intros st.
  - destruct st; reflexivity.
  - cbn [fold_left]. rewrite IH. reflexivity.
Qed.



Lemma zero_slice_keeps_total `{!ZeroLaws}
      (info : IESFileInfo A) (v : Z) (total : dbl) :
  slice_is info v f_zero ->
  value (slice_step (anglesNumH info) total (slice_stats info v)) = total.
Proof.
  intros Hzero. unfold slice_step, slice_stats.
  rewrite sum_of_zeros; [|now apply slice_all|reflexivity].
  rewrite zero_not_lt_zero. reflexivity.
Qed.

Lemma dark_grid_keeps_zero `{!ZeroLaws} (info : IESFileInfo A) :
  (forall v, 0 <= v < anglesNumV info -> slice_is info v f_zero) ->
  value (running_total info) = d_zero.
Proof.
  intros Hdark. rewrite running_total_value.
  assert (Hfold : forall idx total,
             (forall v, In v idx -> 0 <= v < anglesNumV info) ->
             fold_left (fun total v =>
                          value (slice_step (anglesNumH info) total
                                            (slice_stats info v)))
                       idx total = total).
  { induction idx as [|v idx IH]; intros total Hidx; [reflexivity|].
    cbn [fold_left]. rewrite zero_slice_keeps_total.
    - apply IH. intros w Hw. apply Hidx. now right.
    - apply Hdark, Hidx. now left. }
  apply Hfold. intros v Hv. now apply in_range.
Qed.


(** C5. With at least two horizontal angles the score is the running
    total divided by [(double)V], [V] being the count of all vertical
    angles: the running total has passed through one step for each of the
    [V] indices, that division is the last one executed, and its divisor
    does not depend on how many steps added something.  On a grid whose
    samples are all zero no step adds anything and the score is still
    [0.0 / V]. *)
Theorem average_divides_by_all_vertical_angles (info : IESFileInfo A) :
  2 <= anglesNumH info ->
  1 <= anglesNumV info ->
  avgVariation (value (classify info))
  = Some (d_div (value (running_total info)) (d_of_int (anglesNumV info)))
  /\ value (running_total info)
     = fold_left (fun total v =>
                    value (slice_step (anglesNumH info) total (slice_stats info v)))
                 (indices (anglesNumV info)) d_zero
  /\ List.length (indices (anglesNumV info)) = Z.to_nat (anglesNumV info)
  /\ logged (classify info)
     = logged (running_total info)
       ++ [DivDouble (value (running_total info)) (d_of_int (anglesNumV info))]
  /\ (ZeroLaws ->
      (forall v, 0 <= v < anglesNumV info -> slice_is info v f_zero) ->
      avgVariation (value (classify info))
      = Some (d_div d_zero (d_of_int (anglesNumV info)))).
Proof.
  intros HH _.
  assert (Hscore : avgVariation (value (classify info))
                   = Some (d_div (value (running_total info))
                                 (d_of_int (anglesNumV info)))).
  { rewrite classify_value by lia. cbn [avgVariation].
    rewrite average_variation_value. reflexivity. }
  split; [exact Hscore|].
  split; [rewrite indices_range; apply running_total_value|].
  split; [apply indices_length|].
  split; [apply classify_log; lia|].
  intros Hlaws Hdark. rewrite Hscore, dark_grid_keeps_zero by assumption.
  reflexivity.
Qed.
End DescriptionFacts.

(** ** More on the classifier on binary32 / binary64 numbers *)

Section IEEEEdges.
Import IEEE.

Lemma nan_absorbs_left (x : spec_float) : SFadd prec64 emax64 S754_nan x = S754_nan.
Proof. destruct x; reflexivity. Qed.

Lemma nan_sum_stays (l : list spec_float) (st : SliceStats arith) :
  sum st = S754_nan -> sum (fold_left stats_add l st) = S754_nan.
Proof.
  revert st. induction l as [|x l IH]; intros st Hst; [exact Hst|].
  cbn [fold_left]. apply IH. cbn [stats_add sum d_add arith].
  rewrite Hst. apply nan_absorbs_left.
Qed.

Lemma nan_poisons_the_sum (l : list spec_float) (st : SliceStats arith) :
  In S754_nan l -> sum (fold_left stats_add l st) = S754_nan.
Proof.
  revert st. induction l as [|x l IH]; intros st Hin; [destruct Hin|].
  cbn [fold_left]. destruct Hin as [-> | Hin]; [|now apply IH].
  apply nan_sum_stays. cbn [stats_add sum d_add d_of_f arith f64_of_f32].
  destruct (sum st); reflexivity.
Qed.

(** X20. On binary32 / binary64 numbers, a NaN among the samples of a
    vertical angle silences that angle: its sum is NaN, the test [sum > 0]
    fails, and the angle adds nothing to the running total, whatever its
    other samples are. *)
Theorem nan_sample_silences_its_slice
        (info : IESFileInfo arith) (v : Z) (total : spec_float) :
  In S754_nan (slice info v) ->
  slice_step (anglesNumH info) total (slice_stats info v) = ret total.
Proof.
  intros Hnan. unfold slice_step, slice_stats.
  rewrite (nan_poisons_the_sum _ stats_init Hnan). reflexivity.
Qed.

(** X21. On binary32 / binary64 numbers, a grid with two or more horizontal
    angles and no vertical angle is classified 2-D: the average is 0.0 / 0.0,
    a NaN, and NaN is not below the threshold. *)
Theorem no_vertical_angle_gives_nan (info : IESFileInfo arith) :
  2 <= anglesNumH info ->
  anglesNumV info = 0 ->
  avgVariation (value (classify info)) = Some S754_nan
  /\ use1D (value (classify info)) = false.
Proof.
  intros HH HV. rewrite classify_value by lia.
  rewrite average_variation_value, running_total_value, HV.
  split; reflexivity.
Qed.
End IEEEEdges.

(** ** The classifier against its description, on binary32 / binary64 numbers *)

Section IEEEDescription.
Import IEEE.

Lemma digits2_pos_size (p : positive) : digits2_pos p = Pos.size p.
Proof. induction p as [p IH|p IH|]; cbn; congruence. Qed.

















Lemma average_divides_by_all_vertical_angles_witness :
  avgVariation (value (classify dark_grid))
  = Some (d_div (value (running_total dark_grid)) (d_of_int 2))
  /\ List.length (indices 2) = 2%nat.
Proof.
  destruct (@average_divides_by_all_vertical_angles arith dark_grid)
    as (Hscore & _ & Hcount & _).
  - cbn. lia.
  - cbn. lia.
  - split; [exact Hscore|exact Hcount].
Defined.
End IEEEDescription.

(** ** Rounding does not depend on the exponent, while it stays normal *)

Lemma Zdigits2_log2 (m : Z) : 0 < m -> Zdigits2 m = Z.log2 m + 1.
Proof.
  destruct m as [|p|p]; try lia. intros _.
  cbn [Zdigits2]. rewrite digits2_pos_size.
  destruct p; cbn [Pos.size Z.log2]; lia.
Qed.

Lemma Zdigits2_bounds (m : Z) :
  0 < m -> 2 ^ (Zdigits2 m - 1) <= m < 2 ^ Zdigits2 m.
Proof.
  intros Hm. rewrite Zdigits2_log2 by assumption.
  pose proof (Z.log2_spec m Hm) as H.
  replace (Z.log2 m + 1 - 1) with (Z.log2 m) by lia.
  replace (Z.log2 m + 1) with (Z.succ (Z.log2 m)) by lia. exact H.
Qed.

Lemma Zdigits2_unique (m d : Z) :
  0 < d -> 2 ^ (d - 1) <= m < 2 ^ d -> Zdigits2 m = d.
Proof.
  intros Hd Hm.
  assert (0 < m) by (pose proof (Z.pow_pos_nonneg 2 (d - 1)); lia).
  rewrite Zdigits2_log2 by assumption.
  rewrite (Z.log2_unique m (d - 1)); [lia|lia|].
  replace (Z.succ (d - 1)) with d by lia. exact Hm.
Qed.

Lemma shr_1_m (mrs : shr_record) :
  0 <= shr_m mrs -> shr_m (shr_1 mrs) = shr_m mrs / 2.
Proof.
  destruct mrs as [m r s]. cbn [shr_m]. intros Hm. rewrite <- Z.div2_div.
  destruct m as [|[p|p|]|p]; try reflexivity. lia.
Qed.

Lemma iter_pos_shr_m (p : positive) (mrs : shr_record) :
  0 <= shr_m mrs ->
  shr_m (iter_pos shr_1 p mrs) = shr_m mrs / 2 ^ Zpos p.
Proof.
  revert mrs.
  induction p as [p IH|p IH|]; intros mrs Hm; cbn [iter_pos].
  - assert (H1 : 0 <= shr_m (shr_1 mrs))
      by (rewrite shr_1_m by assumption; apply Z.div_pos; lia).
    assert (H2 : 0 <= shr_m (iter_pos shr_1 p (shr_1 mrs)))
      by (rewrite IH by assumption; apply Z.div_pos; lia).
    rewrite IH, IH, shr_1_m by assumption.
    rewrite !Z.div_div by lia. f_equal.
    replace (Z.pos p~1) with (1 + Z.pos p + Z.pos p) by lia.
    rewrite !Z.pow_add_r, Z.pow_1_r by lia. ring.
  - assert (H2 : 0 <= shr_m (iter_pos shr_1 p mrs))
      by (rewrite IH by assumption; apply Z.div_pos; lia).
    rewrite IH, IH by assumption.
    rewrite !Z.div_div by lia. f_equal.
    replace (Z.pos p~0) with (Z.pos p + Z.pos p) by lia.
    rewrite !Z.pow_add_r by lia. ring.
  - rewrite shr_1_m by assumption. reflexivity.
Qed.

Lemma shr_base (mrs : shr_record) (e n : Z) :
  shr mrs e n = (fst (shr mrs 0 n), e + snd (shr mrs 0 n)).
Proof. destruct n; cbn [shr fst snd]; f_equal; try lia. Qed.

Lemma shr_offset (mrs : shr_record) (n : Z) : snd (shr mrs 0 n) = Z.max n 0.
Proof. destruct n; cbn [shr snd]; try lia. Qed.

Lemma shr_none (mrs : shr_record) (e n : Z) : n <= 0 -> shr mrs e n = (mrs, e).
Proof. destruct n; try reflexivity. lia. Qed.

Lemma shr_mantissa (mrs : shr_record) (n : Z) :
  0 <= shr_m mrs -> shr_m (fst (shr mrs 0 n)) = shr_m mrs / 2 ^ Z.max n 0.
Proof.
  intros Hm. destruct n as [|p|p]; cbn [shr fst].
  - cbn. now rewrite Z.div_1_r.
  - rewrite iter_pos_shr_m by assumption. reflexivity.
  - cbn. now rewrite Z.div_1_r.
Qed.

Lemma shr_record_of_loc_m (m : Z) (l : location) : shr_m (shr_record_of_loc m l) = m.
Proof. destruct l as [|[| |]]; reflexivity. Qed.

Lemma loc_of_shr_record_of_loc (m : Z) (l : location) :
  loc_of_shr_record (shr_record_of_loc m l) = l.
Proof. destruct l as [|[| |]]; reflexivity. Qed.

Lemma round_nearest_even_bounds (m : Z) (l : location) :
  m <= round_nearest_even m l <= m + 1.
Proof.
  destruct l as [|[| |]]; cbn [round_nearest_even]; try lia.
  destruct (Z.even m); lia.
Qed.

Lemma max_term_below (P X Y mx my : Z) :
  0 < P -> 0 < X -> 0 < Y -> P <= mx -> P <= my ->
  P * Z.max X Y <= mx * X + my * Y.
Proof.
  intros HP HX HY Hx Hy.
  assert (P * X <= mx * X) by (apply Z.mul_le_mono_nonneg_r; lia).
  assert (P * Y <= my * Y) by (apply Z.mul_le_mono_nonneg_r; lia).
  assert (0 <= mx * X) by (apply Z.mul_nonneg_nonneg; lia).
  assert (0 <= my * Y) by (apply Z.mul_nonneg_nonneg; lia).
  destruct (Z.max_spec X Y) as [[_ ->]|[_ ->]]; lia.
Qed.

Lemma sum_below_twice_max (Q X Y mx my : Z) :
  0 < X -> 0 < Y -> 0 < mx < Q -> 0 < my < Q ->
  mx * X + my * Y < Q * Z.max X Y * 2.
Proof.
  intros HX HY Hx Hy.
  assert (mx * X < Q * X) by (apply Z.mul_lt_mono_pos_r; lia).
  assert (my * Y < Q * Y) by (apply Z.mul_lt_mono_pos_r; lia).
  assert (Q * X <= Q * Z.max X Y) by (apply Z.mul_le_mono_nonneg_l; lia).
  assert (Q * Y <= Q * Z.max X Y) by (apply Z.mul_le_mono_nonneg_l; lia).
  lia.
Qed.

Lemma rounded_up_bound (P N M D t : Z) :
  0 < P -> 0 < N -> t <= D + 1 -> D * N <= M -> P * N <= M ->
  P * (t * N) <= (P + 1) * M.
Proof.
  intros HP HN Ht HD HM.
  assert (t * N <= (D + 1) * N) by (apply Z.mul_le_mono_nonneg_r; lia).
  assert (P * (t * N) <= P * (M + N)) by (apply Z.mul_le_mono_nonneg_l; lia).
  lia.
Qed.

Lemma difference_below_max (Q X Y a b p : Z) :
  0 < X -> 0 < Y -> 0 < Q -> 0 < a -> 0 < b ->
  a < Q * X -> b < Q * Y -> (p = a - b \/ p = b - a) ->
  p < Q * Z.max X Y.
Proof.
  intros HX HY HQ Ha Hb HaX HbY Hp.
  assert (Q * X <= Q * Z.max X Y) by (apply Z.mul_le_mono_nonneg_l; lia).
  assert (Q * Y <= Q * Z.max X Y) by (apply Z.mul_le_mono_nonneg_l; lia).
  lia.
Qed.

Section Rounding.
Variables prec emax : Z.
Hypothesis prec_pos : 0 < prec.


Lemma shr_fexp_normal (m e : Z) (l : location) :
  unclamped prec emax m e ->
  shr_fexp prec emax m e l = shr (shr_record_of_loc m l) e (Zdigits2 m - prec).
Proof.
  intros H. unfold shr_fexp, fexp.
  destruct (Z.max_spec (Zdigits2 m + e - prec) (emin prec emax)) as [[Hlt ->]|[Hge ->]].
  - destruct H as [H|H]; [|lia].
    rewrite !shr_none by lia. reflexivity.
  - f_equal. lia.
Qed.

Lemma binary_round_aux_rnd (s : bool) (mx ex : Z) (lx : location) :
  unclamped prec emax mx ex ->
  binary_round_aux prec emax s mx ex lx
  = finish prec emax s (fst (rnd prec mx lx)) (ex + snd (rnd prec mx lx)).
Proof.
  intros H. unfold binary_round_aux, rnd.
  rewrite shr_fexp_normal by assumption.
  rewrite (shr_base _ ex).
  pose proof (shr_offset (shr_record_of_loc mx lx) (Zdigits2 mx - prec)) as Hoff.
  destruct (shr (shr_record_of_loc mx lx) 0 (Zdigits2 mx - prec)) as [mrs1 n1].
  cbn [fst snd] in *.
  rewrite shr_fexp_normal by (left; destruct H; lia).
  rewrite (shr_base _ (ex + n1)), (shr_base _ n1).
  destruct (shr (shr_record_of_loc
                   (round_nearest_even (shr_m mrs1) (loc_of_shr_record mrs1))
                   loc_Exact) 0
                (Zdigits2 (round_nearest_even (shr_m mrs1) (loc_of_shr_record mrs1))
                 - prec)) as [mrs2 n2].
  cbn [fst snd]. unfold finish. rewrite Z.add_assoc. reflexivity.
Qed.

(** In the normal range the rounded mantissa has [prec] digits and the
    exponent moves by the digits dropped, plus one when the mantissa rounds
    up to the next power of two. *)
Lemma rnd_canon (mx : Z) (lx : location) :
  0 < mx -> prec <= Zdigits2 mx ->
  exists m delta,
    rnd prec mx lx = (m, Zdigits2 mx - prec + delta)
    /\ 0 <= delta <= 1
    /\ 2 ^ (prec - 1) <= m < 2 ^ prec
    /\ mx / 2 ^ (Zdigits2 mx - prec) <= m * 2 ^ delta
       <= mx / 2 ^ (Zdigits2 mx - prec) + 1.
Proof.
  intros Hmx Hd. unfold rnd.
  set (n := Zdigits2 mx - prec).
  pose proof (shr_offset (shr_record_of_loc mx lx) n) as Hoff.
  pose proof (shr_mantissa (shr_record_of_loc mx lx) n) as Hm1.
  rewrite shr_record_of_loc_m in Hm1. specialize (Hm1 ltac:(lia)).
  destruct (shr (shr_record_of_loc mx lx) 0 n) as [mrs1 n1].
  cbn [fst snd] in *. rewrite Z.max_l in Hoff, Hm1 by lia. subst n1.
  set (m1 := shr_m mrs1) in *.
  assert (Hm1b : 2 ^ (prec - 1) <= m1 < 2 ^ prec).
  { pose proof (Zdigits2_bounds Hmx) as [Hlo Hhi].
    assert (Hpow : 2 ^ (Zdigits2 mx - 1) = 2 ^ (prec - 1) * 2 ^ n)
      by (rewrite <- Z.pow_add_r by lia; f_equal; lia).
    assert (Hpow' : 2 ^ Zdigits2 mx = 2 ^ prec * 2 ^ n)
      by (rewrite <- Z.pow_add_r by lia; f_equal; lia).
    assert (0 < 2 ^ n) by (apply Z.pow_pos_nonneg; lia).
    rewrite Hm1. split.
    - apply Z.div_le_lower_bound; lia.
    - apply Z.div_lt_upper_bound; lia. }
  pose proof (round_nearest_even_bounds m1 (loc_of_shr_record mrs1)) as Hm2.
  set (m2 := round_nearest_even m1 (loc_of_shr_record mrs1)) in *.
  assert (Hpp : 2 ^ prec = 2 * 2 ^ (prec - 1)).
  { replace prec with (Z.succ (prec - 1)) at 1 by lia.
    apply Z.pow_succ_r. lia. }
  assert (0 < 2 ^ (prec - 1)) by (apply Z.pow_pos_nonneg; lia).
  destruct (Z_lt_le_dec m2 (2 ^ prec)) as [Hlt|Hge].
  - assert (Hd2 : Zdigits2 m2 = prec) by (apply Zdigits2_unique; lia).
    rewrite Hd2, Z.sub_diag. cbn [shr]. rewrite shr_record_of_loc_m.
    exists m2, 0. rewrite Z.add_0_r, Z.pow_0_r, Z.mul_1_r.
    rewrite <- Hm1. repeat split; lia.
  - assert (Hm2' : m2 = 2 ^ prec) by lia.
    assert (Hd2 : Zdigits2 m2 = prec + 1).
    { apply Zdigits2_unique; [lia|]. rewrite Hm2'.
      replace (prec + 1 - 1) with prec by lia.
      split; [lia|]. apply Z.pow_lt_mono_r; lia. }
    rewrite Hd2. replace (prec + 1 - prec) with 1 by lia.
    cbn [shr iter_pos]. rewrite shr_1_m by (rewrite shr_record_of_loc_m; lia).
    rewrite shr_record_of_loc_m.
    exists (2 ^ (prec - 1)), 1. rewrite Z.pow_1_r.
    assert (m2 / 2 = 2 ^ (prec - 1)).
    { rewrite Hm2', Hpp, Z.mul_comm. apply Z.div_mul. lia. }
    rewrite <- Hm1. repeat split; try lia. f_equal. assumption.
Qed.

Lemma finish_shift (s : bool) (m e j : Z) :
  not_inf (finish prec emax s m e) -> not_inf (finish prec emax s m (e + j)) ->
  finish prec emax s m (e + j) = SFshift j (finish prec emax s m e).
Proof.
  unfold finish. destruct m as [|p|p]; try reflexivity.
  destruct (e <=? emax - prec), (e + j <=? emax - prec); cbn; tauto.
Qed.

Lemma binary_round_aux_shift (s : bool) (mx ex j : Z) (lx : location) :
  unclamped prec emax mx ex -> unclamped prec emax mx (ex + j) ->
  not_inf (binary_round_aux prec emax s mx ex lx) ->
  not_inf (binary_round_aux prec emax s mx (ex + j) lx) ->
  binary_round_aux prec emax s mx (ex + j) lx
  = SFshift j (binary_round_aux prec emax s mx ex lx).
Proof.
  intros H1 H2. rewrite !binary_round_aux_rnd by assumption.
  replace (ex + j + snd (rnd prec mx lx)) with (ex + snd (rnd prec mx lx) + j) by lia.
  apply finish_shift.
Qed.

Lemma iter_xO (m k : positive) : Zpos (Pos.iter xO m k) = Zpos m * 2 ^ Zpos k.
Proof.
  revert m. induction k as [k IH|k IH|]; intros m; cbn [Pos.iter].
  - rewrite Pos2Z.inj_xO, !IH.
    replace (Z.pos k~1) with (1 + Z.pos k + Z.pos k) by lia.
    rewrite !Z.pow_add_r, Z.pow_1_r by lia. ring.
  - rewrite !IH. replace (Z.pos k~0) with (Z.pos k + Z.pos k) by lia.
    rewrite !Z.pow_add_r by lia. ring.
  - rewrite Pos2Z.inj_xO. rewrite Z.pow_1_r. ring.
Qed.

Lemma shl_align_spec (m : positive) (e e' : Z) :
  Zpos (fst (shl_align m e e')) = Zpos m * 2 ^ Z.max (e - e') 0
  /\ snd (shl_align m e e') = Z.min e e'.
Proof.
  unfold shl_align. destruct (e' - e) as [|d|d] eqn:E; cbn [fst snd].
  - rewrite Z.max_r by lia. rewrite Z.pow_0_r. lia.
  - rewrite Z.max_r by lia. rewrite Z.pow_0_r. lia.
  - rewrite iter_xO. rewrite Z.max_l by lia.
    replace (e - e') with (Z.pos d) by lia. lia.
Qed.

Lemma shl_align_shift (m : positive) (e e' j : Z) :
  shl_align m (e + j) (e' + j)
  = (fst (shl_align m e e'), snd (shl_align m e e') + j).
Proof.
  unfold shl_align. replace (e' + j - (e + j)) with (e' - e) by lia.
  destruct (e' - e); reflexivity.
Qed.

Lemma Zdigits2_mul_pow2 (m k : Z) :
  0 < m -> 0 <= k -> Zdigits2 (m * 2 ^ k) = Zdigits2 m + k.
Proof.
  intros Hm Hk.
  assert (0 < 2 ^ k) by (apply Z.pow_pos_nonneg; lia).
  rewrite !Zdigits2_log2 by nia.
  rewrite <- Z.shiftl_mul_pow2, Z.log2_shiftl by lia. lia.
Qed.

(** [binary_round] first brings the mantissa to [prec] digits when it has
    fewer; the outcome is described by the aligned mantissa. *)
Lemma binary_round_aligned (s : bool) (m : positive) (e : Z) :
  emin prec emax <= Zdigits2 (Zpos m) + e - prec ->
  exists mz : positive,
    Zpos mz = Zpos m * 2 ^ Z.max (prec - Zdigits2 (Zpos m)) 0
    /\ (forall j, emin prec emax <= Zdigits2 (Zpos m) + e + j - prec ->
         binary_round prec emax s m (e + j)
         = binary_round_aux prec emax s (Zpos mz)
             (Z.min e (Zdigits2 (Zpos m) + e - prec) + j) loc_Exact)
    /\ unclamped prec emax (Zpos mz) (Z.min e (Zdigits2 (Zpos m) + e - prec)).
Proof.
  intros Hu.
  exists (fst (shl_align m e (Zdigits2 (Zpos m) + e - prec))).
  destruct (shl_align_spec m e (Zdigits2 (Zpos m) + e - prec)) as [Hm He].
  split; [rewrite Hm; f_equal; f_equal; lia|]. split.
  - intros j Hj. unfold binary_round, fexp.
    change (Z.pos (digits2_pos m)) with (Zdigits2 (Zpos m)).
    rewrite Z.max_l by lia.
    replace (Zdigits2 (Z.pos m) + (e + j) - prec)
      with (Zdigits2 (Z.pos m) + e - prec + j) by lia.
    rewrite shl_align_shift, He. reflexivity.
  - right. rewrite Hm, Zdigits2_mul_pow2 by lia. lia.
Qed.

Lemma binary_round_shift (s : bool) (m : positive) (e j : Z) :
  emin prec emax <= Zdigits2 (Zpos m) + e - prec ->
  emin prec emax <= Zdigits2 (Zpos m) + e + j - prec ->
  not_inf (binary_round prec emax s m e) ->
  not_inf (binary_round prec emax s m (e + j)) ->
  binary_round prec emax s m (e + j) = SFshift j (binary_round prec emax s m e).
Proof.
  intros H1 H2.
  destruct (binary_round_aligned s m e H1) as (mz & Hmz & Hround & Hu).
  rewrite (Hround j H2).
  pose proof (Hround 0) as H0. rewrite !Z.add_0_r in H0. rewrite (H0 H1).
  apply binary_round_aux_shift; [exact Hu|].
  right. rewrite Hmz, Zdigits2_mul_pow2 by lia. lia.
Qed.

Lemma binary_normalize_shift (m e j : Z) (szero : bool) :
  (m <> 0 -> emin prec emax <= Zdigits2 m + e - prec) ->
  (m <> 0 -> emin prec emax <= Zdigits2 m + e + j - prec) ->
  not_inf (binary_normalize prec emax m e szero) ->
  not_inf (binary_normalize prec emax m (e + j) szero) ->
  binary_normalize prec emax m (e + j) szero
  = SFshift j (binary_normalize prec emax m e szero).
Proof.
  destruct m as [|p|p]; cbn [binary_normalize]; intros H1 H2.
  - reflexivity.
  - apply binary_round_shift; [apply H1|apply H2]; discriminate.
  - apply binary_round_shift; [apply H1|apply H2]; discriminate.
Qed.

Lemma binary_round_aux_canon (s : bool) (mx ex : Z) (lx : location) :
  0 < mx -> prec <= Zdigits2 mx -> unclamped prec emax mx ex ->
  Zdigits2 mx + ex + 1 <= emax ->
  exists m e,
    binary_round_aux prec emax s mx ex lx = S754_finite s m e
    /\ 2 ^ (prec - 1) <= Zpos m < 2 ^ prec
    /\ Zdigits2 mx + ex - prec <= e <= Zdigits2 mx + ex - prec + 1
    /\ Zpos m * 2 ^ (e - (Zdigits2 mx + ex - prec))
       <= mx / 2 ^ (Zdigits2 mx - prec) + 1.
Proof.
  intros Hmx Hd Hu Hmax. rewrite binary_round_aux_rnd by assumption.
  destruct (rnd_canon lx Hmx Hd) as (m & delta & Hr & Hdelta & Hm & Hv).
  rewrite Hr. cbn [fst snd]. unfold finish.
  assert (0 < 2 ^ (prec - 1)) by (apply Z.pow_pos_nonneg; lia).
  destruct m as [|p|p]; try lia.
  replace (ex + (Zdigits2 mx - prec + delta) <=? emax - prec) with true
    by (symmetry; apply Z.leb_le; lia).
  exists p, (ex + (Zdigits2 mx - prec + delta)).
  split; [reflexivity|]. split; [exact Hm|]. split; [lia|].
  replace (ex + (Zdigits2 mx - prec + delta) - (Zdigits2 mx + ex - prec))
    with delta by lia.
  lia.
Qed.

(** *** Exponent shifts commute with the operations *)

Lemma Zdigits2_pos (m : Z) : m <> 0 -> 1 <= Zdigits2 m.
Proof. destruct m as [|p|p]; cbn [Zdigits2]; lia. Qed.

Lemma SFadd_shift (x y : spec_float) (j : Z) :
  exp_ge (emin prec emax + prec - 1) x ->
  exp_ge (emin prec emax + prec - 1) y ->
  exp_ge (emin prec emax + prec - 1) (SFshift j x) ->
  exp_ge (emin prec emax + prec - 1) (SFshift j y) ->
  not_inf (SFadd prec emax x y) ->
  not_inf (SFadd prec emax (SFshift j x) (SFshift j y)) ->
  SFadd prec emax (SFshift j x) (SFshift j y) = SFshift j (SFadd prec emax x y).
Proof.
  destruct x as [sx|sx| |sx mx ex], y as [sy|sy| |sy my ey];
    try (destruct sx, sy; reflexivity); try reflexivity.
  cbn [exp_ge SFshift]. intros Hx Hy Hxj Hyj. unfold SFadd.
  rewrite Z.add_min_distr_r, !shl_align_shift. cbn [fst].
  apply binary_normalize_shift; intros Hm; apply Zdigits2_pos in Hm; lia.
Qed.

Lemma SFsub_shift (x y : spec_float) (j : Z) :
  exp_ge (emin prec emax + prec - 1) x ->
  exp_ge (emin prec emax + prec - 1) y ->
  exp_ge (emin prec emax + prec - 1) (SFshift j x) ->
  exp_ge (emin prec emax + prec - 1) (SFshift j y) ->
  not_inf (SFsub prec emax x y) ->
  not_inf (SFsub prec emax (SFshift j x) (SFshift j y)) ->
  SFsub prec emax (SFshift j x) (SFshift j y) = SFshift j (SFsub prec emax x y).
Proof.
  destruct x as [sx|sx| |sx mx ex], y as [sy|sy| |sy my ey];
    try (destruct sx, sy; reflexivity); try reflexivity.
  cbn [exp_ge SFshift]. intros Hx Hy Hxj Hyj. unfold SFsub.
  rewrite Z.add_min_distr_r, !shl_align_shift. cbn [fst].
  apply binary_normalize_shift; intros Hm; apply Zdigits2_pos in Hm; lia.
Qed.

Lemma SFmul_shift (sx : bool) (mx : positive) (ex : Z)
      (sy : bool) (my : positive) (ey j k : Z) :
  unclamped prec emax (Zpos (mx * my)) (ex + ey) ->
  unclamped prec emax (Zpos (mx * my)) (ex + ey + (j + k)) ->
  not_inf (SFmul prec emax (S754_finite sx mx ex) (S754_finite sy my ey)) ->
  not_inf (SFmul prec emax (S754_finite sx mx (ex + j)) (S754_finite sy my (ey + k))) ->
  SFmul prec emax (S754_finite sx mx (ex + j)) (S754_finite sy my (ey + k))
  = SFshift (j + k) (SFmul prec emax (S754_finite sx mx ex) (S754_finite sy my ey)).
Proof.
  intros H1 H2. cbn [SFmul].
  replace (ex + j + (ey + k)) with (ex + ey + (j + k)) by lia.
  now apply binary_round_aux_shift.
Qed.

Lemma SFdiv_shift_num (sx : bool) (mx : positive) (ex : Z)
      (sy : bool) (my : positive) (ey j : Z) :
  emin prec emax + prec <= Zdigits2 (Zpos mx) + ex - (Zdigits2 (Zpos my) + ey) ->
  emin prec emax + prec
  <= Zdigits2 (Zpos mx) + ex + j - (Zdigits2 (Zpos my) + ey) ->
  emin prec emax <= ex - ey ->
  emin prec emax <= ex + j - ey ->
  not_inf (SFdiv prec emax (S754_finite sx mx ex) (S754_finite sy my ey)) ->
  not_inf (SFdiv prec emax (S754_finite sx mx (ex + j)) (S754_finite sy my ey)) ->
  SFdiv prec emax (S754_finite sx mx (ex + j)) (S754_finite sy my ey)
  = SFshift j (SFdiv prec emax (S754_finite sx mx ex) (S754_finite sy my ey)).
Proof.
  intros H1 H2 H3 H4. cbn [SFdiv]. unfold SFdiv_core_binary, fexp.
  rewrite !Z.max_l by lia.
  replace (Z.min (Zdigits2 (Z.pos mx) + (ex + j) - (Zdigits2 (Z.pos my) + ey) - prec)
                 (ex + j - ey))
    with (Z.min (Zdigits2 (Z.pos mx) + ex - (Zdigits2 (Z.pos my) + ey) - prec)
                (ex - ey) + j) by lia.
  set (e' := Z.min (Zdigits2 (Z.pos mx) + ex - (Zdigits2 (Z.pos my) + ey) - prec)
                   (ex - ey)).
  replace (ex + j - ey - (e' + j)) with (ex - ey - e') by lia.
  destruct (Z.div_eucl _ (Z.pos my)) as [q r].
  apply binary_round_aux_shift; left; lia.
Qed.

Lemma SFdiv_shift_both (x y : spec_float) (j : Z) :
  SFdiv prec emax (SFshift j x) (SFshift j y) = SFdiv prec emax x y.
Proof.
  destruct x as [sx|sx| |sx mx ex], y as [sy|sy| |sy my ey]; try reflexivity.
  cbn [SFshift SFdiv]. unfold SFdiv_core_binary.
  replace (Zdigits2 (Z.pos mx) + (ex + j) - (Zdigits2 (Z.pos my) + (ey + j)))
    with (Zdigits2 (Z.pos mx) + ex - (Zdigits2 (Z.pos my) + ey)) by lia.
  replace (ex + j - (ey + j)) with (ex - ey) by lia. reflexivity.
Qed.

Lemma SFltb_shift_both (x y : spec_float) (j : Z) :
  SFltb (SFshift j x) (SFshift j y) = SFltb x y.
Proof.
  destruct x as [sx|sx| |sx mx ex], y as [sy|sy| |sy my ey]; try reflexivity.
  unfold SFltb. cbn [SFshift SFcompare].
  replace (ex + j ?= ey + j) with (ex ?= ey); [reflexivity|].
  rewrite !(Z.add_comm _ j). symmetry. apply Z.add_compare_mono_l.
Qed.

Lemma SFsqrt_shift (m : positive) (e j : Z) :
  emin prec emax + prec <= Z.div2 (Zdigits2 (Zpos m) + e + 1) ->
  emin prec emax + prec <= Z.div2 (Zdigits2 (Zpos m) + e + 1) + j ->
  emin prec emax <= Z.div2 e ->
  emin prec emax <= Z.div2 e + j ->
  not_inf (SFsqrt prec emax (S754_finite false m e)) ->
  not_inf (SFsqrt prec emax (S754_finite false m (e + 2 * j))) ->
  SFsqrt prec emax (S754_finite false m (e + 2 * j))
  = SFshift j (SFsqrt prec emax (S754_finite false m e)).
Proof.
  intros H1 H2 H3 H4. cbn [SFsqrt]. unfold SFsqrt_core_binary, fexp.
  assert (Hd : forall x, Z.div2 (x + 2 * j) = Z.div2 x + j).
  { intros x. rewrite !Z.div2_div. rewrite (Z.mul_comm 2 j).
    apply Z.div_add. lia. }
  replace (Zdigits2 (Z.pos m) + (e + 2 * j) + 1)
    with (Zdigits2 (Z.pos m) + e + 1 + 2 * j) by lia.
  rewrite !Hd. rewrite !Z.max_l by lia.
  replace (Z.min (Z.div2 (Zdigits2 (Z.pos m) + e + 1) + j - prec) (Z.div2 e + j))
    with (Z.min (Z.div2 (Zdigits2 (Z.pos m) + e + 1) - prec) (Z.div2 e) + j) by lia.
  set (e' := Z.min (Z.div2 (Zdigits2 (Z.pos m) + e + 1) - prec) (Z.div2 e)).
  replace (e + 2 * j - 2 * (e' + j)) with (e - 2 * e') by lia.
  destruct (Z.sqrtrem _) as [q r].
  apply binary_round_aux_shift; left; lia.
Qed.

(** *** Results in the normal range *)

Lemma canon_m_digits (m : positive) : canon_m prec m -> Zdigits2 (Zpos m) = prec.
Proof. intros H. apply Zdigits2_unique; [exact prec_pos|exact H]. Qed.

Lemma digits_canon_m (m : positive) : Zdigits2 (Zpos m) = prec -> canon_m prec m.
Proof.
  intros H. unfold canon_m. rewrite <- H. apply Zdigits2_bounds. lia.
Qed.

Lemma rnd_exact (m : Z) : Zdigits2 m = prec -> rnd prec m loc_Exact = (m, 0).
Proof.
  intros H. unfold rnd. rewrite H, Z.sub_diag. cbn [shr shr_record_of_loc shr_m
    loc_of_shr_record round_nearest_even].
  rewrite H, Z.sub_diag. reflexivity.
Qed.

Lemma binary_round_aux_exact (s : bool) (m : positive) (e : Z) :
  canon_m prec m -> unclamped prec emax (Zpos m) e -> e <= emax - prec ->
  binary_round_aux prec emax s (Zpos m) e loc_Exact = S754_finite s m e.
Proof.
  intros Hm Hu He. rewrite binary_round_aux_rnd by assumption.
  rewrite rnd_exact by now apply canon_m_digits.
  cbn [fst snd finish]. rewrite Z.add_0_r.
  apply Z.leb_le in He. now rewrite He.
Qed.

(** A mantissa of at most [prec] digits is rounded to itself, brought to
    [prec] digits. *)
Lemma binary_round_exact (s : bool) (m : positive) (e : Z) :
  Zdigits2 (Zpos m) <= prec ->
  emin prec emax <= Zdigits2 (Zpos m) + e - prec ->
  Zdigits2 (Zpos m) + e <= emax ->
  exists mz,
    binary_round prec emax s m e
    = S754_finite s mz (e - (prec - Zdigits2 (Zpos m)))
    /\ Zpos mz = Zpos m * 2 ^ (prec - Zdigits2 (Zpos m))
    /\ canon_m prec mz.
Proof.
  intros Hd Hu Hmax.
  destruct (binary_round_aligned s m e Hu) as (mz & Hmz & Hround & Hu').
  specialize (Hround 0). rewrite !Z.add_0_r in Hround. rewrite (Hround Hu).
  rewrite Z.max_l in Hmz by lia. rewrite Z.min_r in * by lia.
  assert (Hc : canon_m prec mz).
  { apply digits_canon_m. rewrite Hmz, Zdigits2_mul_pow2 by lia. lia. }
  exists mz. split; [|split; assumption].
  rewrite binary_round_aux_exact by (try assumption; lia). f_equal. lia.
Qed.

Lemma canon_m_mul (mx my : positive) :
  canon_m prec mx -> canon_m prec my ->
  2 * prec - 1 <= Zdigits2 (Zpos (mx * my)) <= 2 * prec.
Proof.
  unfold canon_m. intros Hx Hy.
  assert (Hlo : 2 ^ (2 * prec - 2) <= Zpos (mx * my)).
  { replace (2 * prec - 2) with ((prec - 1) + (prec - 1)) by lia.
    rewrite Z.pow_add_r, Pos2Z.inj_mul by lia.
    apply Z.mul_le_mono_nonneg; try lia; apply Z.pow_nonneg; lia. }
  assert (Hhi : Zpos (mx * my) < 2 ^ (2 * prec)).
  { replace (2 * prec) with (prec + prec) by lia.
    rewrite Z.pow_add_r, Pos2Z.inj_mul by lia.
    apply Z.mul_lt_mono_nonneg; lia. }
  pose proof (@Zdigits2_bounds (Zpos (mx * my)) ltac:(lia)) as [Hb1 Hb2].
  split.
  - assert (2 * prec - 2 < Zdigits2 (Z.pos (mx * my))); [|lia].
    apply (Z.pow_lt_mono_r_iff 2); try lia.
    pose proof (@Zdigits2_pos (Zpos (mx * my))). lia.
  - assert (Zdigits2 (Z.pos (mx * my)) - 1 < 2 * prec); [|lia].
    apply (Z.pow_lt_mono_r_iff 2); lia.
Qed.

Lemma SFmul_canon (sx : bool) (mx : positive) (ex : Z)
      (sy : bool) (my : positive) (ey : Z) :
  canon_m prec mx -> canon_m prec my ->
  emin prec emax <= ex + ey + prec - 1 ->
  ex + ey + 2 * prec + 1 <= emax ->
  exists m e,
    SFmul prec emax (S754_finite sx mx ex) (S754_finite sy my ey)
    = S754_finite (xorb sx sy) m e
    /\ canon_m prec m
    /\ ex + ey + prec - 1 <= e <= ex + ey + prec + 1.
Proof.
  intros Hx Hy Hlo Hhi. cbn [SFmul].
  pose proof (canon_m_mul Hx Hy) as Hd.
  destruct (binary_round_aux_canon (xorb sx sy) (mx := Zpos (mx * my))
              (ex := ex + ey) loc_Exact) as (m & e & Hr & Hm & He & _);
    try lia.
  { right. lia. }
  exists m, e. split; [exact Hr|]. split; [exact Hm|]. lia.
Qed.

Lemma binary_round_canon (s : bool) (m : positive) (e : Z) :
  emin prec emax <= Zdigits2 (Zpos m) + e - prec ->
  Zdigits2 (Zpos m) + e + 1 <= emax ->
  exists m' e',
    binary_round prec emax s m e = S754_finite s m' e'
    /\ canon_m prec m'
    /\ Zdigits2 (Zpos m) + e - prec <= e' <= Zdigits2 (Zpos m) + e - prec + 1
    /\ (prec <= Zdigits2 (Zpos m) ->
        Zpos m' * 2 ^ (e' - (Zdigits2 (Zpos m) + e - prec))
        <= Zpos m / 2 ^ (Zdigits2 (Zpos m) - prec) + 1).
Proof.
  intros Hu Hmax.
  destruct (binary_round_aligned s m e Hu) as (mz & Hmz & Hround & Hu').
  specialize (Hround 0). rewrite !Z.add_0_r in Hround. rewrite (Hround Hu).
  assert (Hdz : Zdigits2 (Zpos mz)
                = Zdigits2 (Zpos m) + Z.max (prec - Zdigits2 (Zpos m)) 0)
    by (rewrite Hmz; apply Zdigits2_mul_pow2; lia).
  destruct (binary_round_aux_canon s (mx := Zpos mz)
              (ex := Z.min e (Zdigits2 (Zpos m) + e - prec)) loc_Exact)
    as (m' & e' & Hr & Hm' & He' & Hv); try lia; try assumption.
  exists m', e'. split; [exact Hr|]. split; [exact Hm'|]. split; [lia|].
  intros Hd. rewrite Z.max_r in Hmz, Hdz by lia.
  rewrite Z.pow_0_r, Z.mul_1_r in Hmz. rewrite Z.add_0_r in Hdz.
  rewrite Z.min_l in Hv by lia. rewrite Hdz, Hmz in Hv. exact Hv.
Qed.

Lemma SFdiv_canon (sx : bool) (mx : positive) (ex : Z)
      (sy : bool) (my : positive) (ey : Z) :
  canon_m prec mx -> canon_m prec my ->
  emin prec emax <= ex - ey - prec ->
  ex - ey + 2 <= emax ->
  exists m e,
    SFdiv prec emax (S754_finite sx mx ex) (S754_finite sy my ey)
    = S754_finite (xorb sx sy) m e
    /\ canon_m prec m
    /\ ex - ey - prec <= e <= ex - ey - prec + 2.
Proof.
  intros Hx Hy Hlo Hhi. cbn [SFdiv]. unfold SFdiv_core_binary, fexp.
  rewrite !canon_m_digits by assumption.
  rewrite Z.max_l by lia.
  replace (Z.min (prec + ex - (prec + ey) - prec) (ex - ey))
    with (ex - ey - prec) by lia.
  replace (ex - ey - (ex - ey - prec)) with prec by lia.
  assert (Hshift : match prec with
                   | 0 => Z.pos mx
                   | Z.pos _ => Z.shiftl (Z.pos mx) prec
                   | Z.neg _ => 0
                   end = Zpos mx * 2 ^ prec).
  { destruct prec as [|p|p] eqn:E; try lia.
    apply Z.shiftl_mul_pow2. lia. }
  rewrite Hshift.
  assert (Hq : fst (Z.div_eucl (Z.pos mx * 2 ^ prec) (Z.pos my))
               = Z.pos mx * 2 ^ prec / Z.pos my) by reflexivity.
  destruct (Z.div_eucl (Z.pos mx * 2 ^ prec) (Z.pos my)) as [q r].
  cbn [fst] in Hq. unfold canon_m in Hx, Hy.
  assert (Hpp : 2 ^ prec = 2 * 2 ^ (prec - 1)).
  { replace prec with (Z.succ (prec - 1)) at 1 by lia.
    apply Z.pow_succ_r. lia. }
  assert (0 < 2 ^ (prec - 1)) by (apply Z.pow_pos_nonneg; lia).
  assert (Hqlo : 2 ^ (prec - 1) <= q).
  { rewrite Hq. apply Z.div_le_lower_bound; [lia|]. nia. }
  assert (Hqhi : q < 2 ^ (prec + 1)).
  { rewrite Hq. apply Z.div_lt_upper_bound; [lia|].
    rewrite Z.pow_add_r, Z.pow_1_r by lia. nia. }
  assert (Hdq : prec <= Zdigits2 q <= prec + 1).
  { pose proof (@Zdigits2_bounds q ltac:(lia)) as [Hb1 Hb2]. split.
    - assert (prec - 1 < Zdigits2 q); [|lia].
      apply (Z.pow_lt_mono_r_iff 2); try lia.
      pose proof (@Zdigits2_pos q). lia.
    - assert (Zdigits2 q - 1 < prec + 1); [|lia].
      apply (Z.pow_lt_mono_r_iff 2); lia. }
  destruct (binary_round_aux_canon (xorb sx sy) (mx := q)
              (ex := ex - ey - prec) (new_location (Zpos my) r))
    as (m & e & Hr & Hm & He & _); try lia.
  { left. lia. }
  exists m, e. split; [exact Hr|]. split; [exact Hm|]. lia.
Qed.

(** The sum of two positive numbers in the normal range: it is in the
    normal range, its exponent is not below those of the summands, and it
    exceeds the exact sum by less than one part in [2 ^ (prec - 1)]. *)
Lemma SFadd_canon (mx : positive) (ex : Z) (my : positive) (ey : Z) :
  canon_m prec mx -> canon_m prec my ->
  emin prec emax <= Z.min ex ey ->
  Z.max ex ey + prec + 2 <= emax ->
  exists m e,
    SFadd prec emax (S754_finite false mx ex) (S754_finite false my ey)
    = S754_finite false m e
    /\ canon_m prec m
    /\ Z.max ex ey <= e <= Z.max ex ey + 2
    /\ 2 ^ (prec - 1) * (Zpos m * 2 ^ (e - Z.min ex ey))
       <= (2 ^ (prec - 1) + 1)
          * (Zpos mx * 2 ^ (ex - Z.min ex ey) + Zpos my * 2 ^ (ey - Z.min ex ey)).
Proof.
  intros Hx Hy Hlo Hhi. unfold SFadd. cbn [cond_Zopp].
  set (ez := Z.min ex ey) in *.
  destruct (shl_align_spec mx ex ez) as [Ha _].
  destruct (shl_align_spec my ey ez) as [Hb _].
  rewrite Z.max_l in Ha, Hb by lia.
  set (a := fst (shl_align mx ex ez)) in *.
  set (b := fst (shl_align my ey ez)) in *.
  cbn [Z.add binary_normalize].
  assert (HM : Zpos (a + b) = Zpos mx * 2 ^ (ex - ez) + Zpos my * 2 ^ (ey - ez))
    by (rewrite Pos2Z.inj_add; lia).
  unfold canon_m in Hx, Hy.
  assert (Hpp : 2 ^ prec = 2 * 2 ^ (prec - 1)).
  { replace prec with (Z.succ (prec - 1)) at 1 by lia.
    apply Z.pow_succ_r. lia. }
  assert (0 < 2 ^ (prec - 1)) by (apply Z.pow_pos_nonneg; lia).
  assert (Hex : 1 <= 2 ^ (ex - ez)) by (apply Z.lt_pred_le, Z.pow_pos_nonneg; lia).
  assert (Hey : 1 <= 2 ^ (ey - ez)) by (apply Z.lt_pred_le, Z.pow_pos_nonneg; lia).
  assert (Hmax : 2 ^ (Z.max ex ey - ez) = Z.max (2 ^ (ex - ez)) (2 ^ (ey - ez))).
  { destruct (Z.max_spec ex ey) as [[Hle ->]|[Hle ->]].
    - rewrite Z.max_r; [reflexivity|]. apply Z.pow_le_mono_r; lia.
    - rewrite Z.max_l; [reflexivity|]. apply Z.pow_le_mono_r; lia. }
  pose proof (@Zdigits2_bounds (Zpos (a + b)) ltac:(lia)) as [Hb1 Hb2].
  assert (Hdlo : prec + (Z.max ex ey - ez) <= Zdigits2 (Zpos (a + b))).
  { assert (prec - 1 + (Z.max ex ey - ez) < Zdigits2 (Zpos (a + b))); [|lia].
    apply (Z.pow_lt_mono_r_iff 2); try lia.
    - pose proof (@Zdigits2_pos (Zpos (a + b))). lia.
    - rewrite Z.pow_add_r, Hmax by lia.
      eapply Z.le_lt_trans; [|exact Hb2]. rewrite HM.
      apply max_term_below; lia. }
  assert (Hdhi : Zdigits2 (Zpos (a + b)) <= prec + (Z.max ex ey - ez) + 1).
  { assert (Zdigits2 (Zpos (a + b)) - 1 < prec + (Z.max ex ey - ez) + 1); [|lia].
    apply (Z.pow_lt_mono_r_iff 2); try lia.
    rewrite !Z.pow_add_r, Z.pow_1_r, Hmax by lia.
    eapply Z.le_lt_trans; [exact Hb1|]. rewrite HM.
    apply sum_below_twice_max; lia. }
  destruct (@binary_round_canon false (a + b) ez) as (m & e & Hr & Hm & He & Hv);
    try lia.
  specialize (Hv ltac:(lia)).
  exists m, e. split; [exact Hr|]. split; [exact Hm|]. split; [lia|].
  set (n := Zdigits2 (Zpos (a + b)) - prec) in *.
  assert (Hn : 0 <= n) by lia.
  assert (H2n : 0 < 2 ^ n) by (apply Z.pow_pos_nonneg; lia).
  assert (Hdec : e - ez = (e - (Zdigits2 (Zpos (a + b)) + ez - prec)) + n) by lia.
  rewrite Hdec, Z.pow_add_r by lia.
  rewrite <- HM.
  assert (Hfloor : Zpos (a + b) / 2 ^ n * 2 ^ n <= Zpos (a + b)).
  { rewrite Z.mul_comm. apply Z.mul_div_le. lia. }
  assert (Hulp : 2 ^ (prec - 1) * 2 ^ n <= Zpos (a + b)).
  { rewrite <- Z.pow_add_r by lia.
    replace (prec - 1 + n) with (Zdigits2 (Zpos (a + b)) - 1) by lia. exact Hb1. }
  rewrite (Z.mul_assoc (Zpos m)).
  apply (@rounded_up_bound _ _ _ (Zpos (a + b) / 2 ^ n)); try assumption.
Qed.

(** The difference of two positive numbers in the normal range is zero or
    in the normal range, whatever its sign. *)
Lemma SFsub_canon (mx : positive) (ex : Z) (my : positive) (ey : Z) :
  canon_m prec mx -> canon_m prec my ->
  emin prec emax + prec - 1 <= Z.min ex ey ->
  Z.max ex ey + prec + 1 <= emax ->
  SFsub prec emax (S754_finite false mx ex) (S754_finite false my ey)
  = S754_zero false
  \/ exists s m e,
      SFsub prec emax (S754_finite false mx ex) (S754_finite false my ey)
      = S754_finite s m e
      /\ canon_m prec m
      /\ Z.min ex ey - prec + 1 <= e <= Z.max ex ey + 1.
Proof.
  intros Hx Hy Hlo Hhi. unfold SFsub. cbn [cond_Zopp].
  set (ez := Z.min ex ey) in *.
  destruct (shl_align_spec mx ex ez) as [Ha _].
  destruct (shl_align_spec my ey ez) as [Hb _].
  rewrite Z.max_l in Ha, Hb by lia.
  set (a := fst (shl_align mx ex ez)) in *.
  set (b := fst (shl_align my ey ez)) in *.
  unfold canon_m in Hx, Hy.
  assert (Hex : 0 < 2 ^ (ex - ez)) by (apply Z.pow_pos_nonneg; lia).
  assert (Hey : 0 < 2 ^ (ey - ez)) by (apply Z.pow_pos_nonneg; lia).
  assert (Hmax : 2 ^ (Z.max ex ey - ez) = Z.max (2 ^ (ex - ez)) (2 ^ (ey - ez))).
  { destruct (Z.max_spec ex ey) as [[Hle ->]|[Hle ->]].
    - rewrite Z.max_r; [reflexivity|]. apply Z.pow_le_mono_r; lia.
    - rewrite Z.max_l; [reflexivity|]. apply Z.pow_le_mono_r; lia. }
  assert (Hbound : forall p : positive,
             Zpos p < 2 ^ prec * 2 ^ (Z.max ex ey - ez) ->
             forall s,
             exists m e,
               binary_round prec emax s p ez = S754_finite s m e
               /\ canon_m prec m /\ ez - prec + 1 <= e <= Z.max ex ey + 1).
  { intros p Hp s.
    pose proof (@Zdigits2_bounds (Zpos p) ltac:(lia)) as [Hb1 Hb2].
    pose proof (@Zdigits2_pos (Zpos p) ltac:(lia)) as Hd1.
    assert (Hdhi : Zdigits2 (Zpos p) <= prec + (Z.max ex ey - ez)).
    { assert (Zdigits2 (Zpos p) - 1 < prec + (Z.max ex ey - ez)); [|lia].
      apply (Z.pow_lt_mono_r_iff 2); try lia.
      rewrite Z.pow_add_r by lia. lia. }
    destruct (@binary_round_canon s p ez) as (m & e & Hr & Hm & He & _); try lia.
    exists m, e. split; [exact Hr|]. split; [exact Hm|]. lia. }
  destruct (Z.pos a - Z.pos b) as [|p|p] eqn:E; cbn [binary_normalize].
  - left. reflexivity.
  - right. exists false.
    apply Hbound. rewrite Hmax.
    apply (@difference_below_max _ _ _ (Zpos a) (Zpos b)); try lia;
      rewrite ?Ha, ?Hb; apply Z.mul_lt_mono_pos_r; lia.
  - right. exists true.
    apply Hbound. rewrite Hmax.
    apply (@difference_below_max _ _ _ (Zpos a) (Zpos b)); try lia;
      rewrite ?Ha, ?Hb; apply Z.mul_lt_mono_pos_r; lia.
Qed.
End Rounding.

(** *** Square roots of binary64 numbers *)

Lemma SFsqrt_canon (m : positive) (e : Z) :
  canon_m 53 m ->
  - 1000 <= e <= 1000 ->
  exists m' e',
    SFsqrt 53 1024 (S754_finite false m e) = S754_finite false m' e'
    /\ canon_m 53 m'
    /\ Z.div2 e - 26 <= e' <= Z.div2 e - 25.
Proof.
  intros Hm He. cbn [SFsqrt]. unfold SFsqrt_core_binary.
  rewrite (canon_m_digits (prec := 53)) by (try assumption; lia).
  assert (Hhalf : Z.div2 (53 + e + 1) = 27 + Z.div2 e).
  { rewrite !Z.div2_div. replace (53 + e + 1) with (27 * 2 + e) by lia.
    apply Z.div_add_l. lia. }
  rewrite Hhalf. unfold fexp, emin.
  assert (Hdiv : 2 * Z.div2 e <= e <= 2 * Z.div2 e + 1).
  { rewrite Z.div2_div. pose proof (Z.mod_pos_bound e 2 ltac:(lia)).
    pose proof (Z.div_mod e 2 ltac:(lia)). lia. }
  rewrite Z.max_l by lia.
  replace (Z.min (27 + Z.div2 e - 53) (Z.div2 e)) with (Z.div2 e - 26) by lia.
  set (s := e - 2 * (Z.div2 e - 26)).
  assert (Hs : s = 52 \/ s = 53) by lia.
  unfold canon_m in Hm. change (2 ^ (53 - 1)) with 4503599627370496 in Hm.
  change (2 ^ 53) with 9007199254740992 in Hm.
  assert (Hshift : match s with
                   | 0 => Z.pos m
                   | Z.pos _ => Z.shiftl (Z.pos m) s
                   | Z.neg _ => 0
                   end = Zpos m * 2 ^ s).
  { destruct Hs as [-> | ->]; apply Z.shiftl_mul_pow2; lia. }
  rewrite Hshift.
  pose proof (Z.sqrtrem_sqrt (Zpos m * 2 ^ s)) as Hq.
  destruct (Z.sqrtrem (Zpos m * 2 ^ s)) as [q r]. cbn [fst] in Hq.
  assert (Hqb : 4503599627370496 <= q < 9007199254740992).
  { rewrite Hq. split.
    - apply Z.sqrt_le_square; [|lia|].
      + destruct Hs as [-> | ->]; lia.
      + destruct Hs as [-> | ->];
          [change (2 ^ 52) with 4503599627370496
          |change (2 ^ 53) with 9007199254740992]; nia.
    - apply Z.sqrt_lt_square; [|lia|].
      + destruct Hs as [-> | ->]; lia.
      + destruct Hs as [-> | ->];
          [change (2 ^ 52) with 4503599627370496
          |change (2 ^ 53) with 9007199254740992]; nia. }
  assert (Hdq : Zdigits2 q = 53).
  { apply Zdigits2_unique; [lia|].
    change (2 ^ (53 - 1)) with 4503599627370496.
    change (2 ^ 53) with 9007199254740992. exact Hqb. }
  destruct (@binary_round_aux_canon 53 1024 ltac:(lia) false q (Z.div2 e - 26)
              (if r =? 0 then loc_Exact
               else loc_Inexact (if r <=? q then Lt else Gt)))
    as (m' & e' & Hr & Hm' & He' & _); try lia.
  { left. unfold emin. lia. }
  exists m', e'. split; [exact Hr|]. split; [exact Hm'|]. lia.
Qed.

(** ** Scaling by a power of two, on binary32 / binary64 numbers *)

Section PowerOfTwoScaling.
Import IEEE.
Import Scaling.

Lemma scale_by_pow2 (m : positive) (e j : Z) :
  digits2_pos m = 24%positive -> -86 <= e + j <= 39 ->
  SFmul prec32 emax32 (pow2 j) (S754_finite false m e) = S754_finite false m (e + j).
Proof.
  intros Hd He. unfold pow2. cbn [SFmul xorb].
  assert (Hdm : Zdigits2 (Zpos (8388608 * m)) = 47).
  { cbn [Pos.mul Zdigits2 digits2_pos]. rewrite Hd. reflexivity. }
  rewrite (@binary_round_aux_rnd 24 128)
    by (right; rewrite Hdm; unfold emin; lia).
  unfold rnd. rewrite Hdm. cbn [Pos.mul].
  change (47 - 24) with 23.
  cbn [shr shr_record_of_loc iter_pos shr_1 orb shr_m loc_of_shr_record
       round_nearest_even Zdigits2].
  rewrite Hd. cbn [Z.sub Z.opp Z.add Z.pos_sub Pos.compare Pos.compare_cont
                   Z.double Z.succ_double Z.pred_double shr fst snd shr_m
                   shr_record_of_loc].
  unfold finish.
  replace (j - 23 + e + 23 <=? 128 - 24) with true
    by (symmetry; apply Z.leb_le; lia).
  f_equal. lia.
Qed.

Ltac ieee_arith :=
  cbn [flt dbl FLT_MAX FLT_LOWEST f_zero f_ratio_bound f_lt f_mul f_div
       d_of_f d_of_int d_zero d_penalty d_threshold d_lt d_add d_sub d_mul
       d_div d_sqrt arith] in *.

Lemma accumulated_bound (P S K B X : Z) :
  0 < P -> 0 < B -> 0 <= K <= P ->
  P * X <= (P + 1) * S -> S <= K * B ->
  X <= (K + 1) * B.
Proof.
  intros HP HB HK HX HS.
  assert ((P + 1) * S <= (P + 1) * (K * B))
    by (apply Z.mul_le_mono_nonneg_l; lia).
  assert (K * B <= P * B) by (apply Z.mul_le_mono_nonneg_r; lia).
  assert (P * X <= P * ((K + 1) * B)) by lia.
  apply Z.mul_le_mono_pos_l in H1; assumption.
Qed.

Lemma canon_pcanon_exp (lo hi k : Z) (m : positive) (e : Z) :
  lo <= hi -> 0 <= k <= 2 ^ 31 ->
  acc_ok lo hi k (S754_finite false m e) -> e <= hi + 33.
Proof.
  intros Hlh Hk (Hm & Hlo & Hv). unfold canon_m in Hm.
  change (2 ^ (53 - 1)) with (2 ^ 52) in Hm.
  destruct (Z_le_gt_dec e (hi + 33)) as [Hle|Hgt]; [exact Hle|exfalso].
  assert (Hpow : 2 ^ (hi + 34 - lo) <= 2 ^ (e - lo))
    by (apply Z.pow_le_mono_r; lia).
  assert (Hsplit : 2 ^ (hi + 34 - lo) = 2 ^ 34 * 2 ^ (hi - lo))
    by (rewrite <- Z.pow_add_r by lia; f_equal; lia).
  assert (Hsplit' : 2 ^ (53 + hi - lo) = 2 ^ 53 * 2 ^ (hi - lo))
    by (rewrite <- Z.pow_add_r by lia; f_equal; lia).
  assert (0 < 2 ^ (hi - lo)) by (apply Z.pow_pos_nonneg; lia).
  rewrite Hsplit' in Hv. rewrite Hsplit in Hpow.
  change (2 ^ 31) with 2147483648 in Hk.
  change (2 ^ 52) with 4503599627370496 in Hm.
  change (2 ^ 53) with 9007199254740992 in *.
  change (2 ^ 34) with 17179869184 in Hpow.
  nia.
Qed.

Lemma acc_ok_step (lo hi k : Z) (s a : spec_float) :
  -1000 <= lo -> lo <= hi -> hi <= 900 -> 0 <= k < 2 ^ 31 ->
  acc_ok lo hi k s -> addend_ok lo hi a ->
  acc_ok lo hi (k + 1) (SFadd 53 1024 s a).
Proof.
  intros Hlo Hlh Hhi Hk Hs Ha.
  assert (Hpp : 0 < 2 ^ (53 + hi - lo)) by (apply Z.pow_pos_nonneg; lia).
  destruct s as [[|]| | |[|] ms es]; try contradiction;
    destruct a as [sa| | |[|] ma ea]; try contradiction.
  - destruct sa; exact I.
  - cbn [SFadd acc_ok]. destruct Ha as (Hm & He). split; [exact Hm|].
    split; [lia|]. unfold canon_m in Hm.
    assert (Hpow : 2 ^ (ea - lo) <= 2 ^ (hi - lo)) by (apply Z.pow_le_mono_r; lia).
    assert (Hsplit' : 2 ^ (53 + hi - lo) = 2 ^ 53 * 2 ^ (hi - lo))
      by (rewrite <- Z.pow_add_r by lia; f_equal; lia).
    assert (0 < 2 ^ (ea - lo)) by (apply Z.pow_pos_nonneg; lia).
    rewrite Hsplit'. nia.
  - cbn [SFadd acc_ok]. destruct Hs as (Hm & He & Hv).
    split; [exact Hm|]. split; [exact He|]. nia.
  - pose proof (@canon_pcanon_exp lo hi k ms es Hlh ltac:(lia) Hs) as Hes.
    destruct Hs as (Hms & Hes' & Hvs). destruct Ha as (Hma & Hea).
    destruct (@SFadd_canon 53 1024 ltac:(lia) ms es ma ea)
      as (m & e & Hr & Hm & He & Hv); try assumption; try (unfold emin; lia).
    rewrite Hr. cbn [acc_ok]. split; [exact Hm|]. split; [lia|].
    set (ez := Z.min es ea) in *.
    assert (Hez : lo <= ez) by lia.
    assert (Hsplit : forall x, ez <= x -> 2 ^ (x - lo) = 2 ^ (x - ez) * 2 ^ (ez - lo))
      by (intros x Hx; rewrite <- Z.pow_add_r by lia; f_equal; lia).
    rewrite (Hsplit e) by lia. rewrite (Hsplit es) in Hvs by lia.
    assert (Hva : Zpos ma * (2 ^ (ea - ez) * 2 ^ (ez - lo)) <= 2 ^ (53 + hi - lo)).
    { rewrite <- Hsplit by lia. unfold canon_m in Hma.
      assert (Hpow : 2 ^ (ea - lo) <= 2 ^ (hi - lo))
        by (apply Z.pow_le_mono_r; lia).
      assert (Hsplit' : 2 ^ (53 + hi - lo) = 2 ^ 53 * 2 ^ (hi - lo))
        by (rewrite <- Z.pow_add_r by lia; f_equal; lia).
      assert (0 < 2 ^ (ea - lo)) by (apply Z.pow_pos_nonneg; lia).
      rewrite Hsplit'. nia. }
    change (2 ^ (53 - 1)) with 4503599627370496 in Hv.
    change (2 ^ 31) with 2147483648 in Hk.
    assert (H0 : 0 < 2 ^ (ez - lo)) by (apply Z.pow_pos_nonneg; lia).
    set (B := 2 ^ (53 + hi - lo)) in *.
    set (t := 2 ^ (ez - lo)) in *.
    set (N' := Zpos m * 2 ^ (e - ez)) in *.
    set (Ns := Zpos ms * 2 ^ (es - ez)) in *.
    set (Na := Zpos ma * 2 ^ (ea - ez)) in *.
    assert (Hsum : (Ns + Na) * t <= (2 * k + 1) * B).
    { rewrite Z.mul_add_distr_r. unfold Ns, Na. rewrite <- !Z.mul_assoc. lia. }
    assert (HP : 4503599627370496 * (N' * t)
                 <= (4503599627370496 + 1) * ((Ns + Na) * t)).
    { rewrite !Z.mul_assoc. apply Z.mul_le_mono_nonneg_r; lia. }
    rewrite Z.mul_assoc. fold N'.
    replace (2 * (k + 1) * B) with ((2 * k + 1 + 1) * B) by ring.
    apply (@accumulated_bound 4503599627370496 ((Ns + Na) * t) (2 * k + 1) B);
      lia.
Qed.

Lemma canon24_of_digits (m : positive) : digits2_pos m = 24%positive -> canon_m 24 m.
Proof.
  intros Hd. apply digits_canon_m. cbn [Zdigits2]. now rewrite Hd.
Qed.

(** A binary32 number in the normal range is the binary64 number with the
    same sign, 29 more mantissa bits and the exponent lowered by 29. *)
Lemma f64_of_f32_canon (s : bool) (m : positive) (e : Z) :
  canon_m 24 m -> -1000 <= e <= 900 ->
  f64_of_f32 (S754_finite s m e) = S754_finite s (m * 536870912) (e - 29)
  /\ canon_m 53 (m * 536870912).
Proof.
  intros Hm He. cbn [f64_of_f32]. unfold prec64, emax64.
  pose proof (@canon_m_digits 24 ltac:(lia) m Hm) as Hd.
  destruct (@binary_round_exact 53 1024 ltac:(lia) s m e)
    as (mz & Hr & Hmz & Hc); try (rewrite Hd; unfold emin; lia).
  rewrite Hd in Hr, Hmz. change (2 ^ (53 - 24)) with 536870912 in Hmz.
  assert (Heq : mz = (m * 536870912)%positive) by (apply Pos2Z.inj; lia).
  subst mz. split; [|exact Hc]. rewrite Hr. f_equal.
Qed.

Lemma scalable_finite (j : Z) (m : positive) (e : Z) :
  scalable j (S754_finite false m e) = true ->
  canon_m 24 m /\ -86 <= e <= 39 /\ -86 <= e + j <= 39.
Proof.
  cbn [scalable]. rewrite !andb_true_iff, Z.eqb_eq, !Z.leb_le.
  intros ((((Hd & H1) & H2) & H3) & H4).
  split; [|lia]. apply canon24_of_digits. now injection Hd.
Qed.

Lemma scalable_shift (j : Z) (x : spec_float) :
  scalable j x = true -> scalable (- j) (SFshift j x) = true.
Proof.
  destruct x as [s|s| |[|] m e]; try discriminate; try reflexivity.
  cbn [scalable SFshift]. rewrite !andb_true_iff, !Z.leb_le.
  replace (e + j + - j) with e by lia. tauto.
Qed.

Lemma SFshift_back (j : Z) (x : spec_float) : SFshift (- j) (SFshift j x) = x.
Proof. destruct x; cbn [SFshift]; try reflexivity. f_equal. lia. Qed.

(** Multiplying a sample by [2 ^ j] moves its exponent by [j]. *)
Lemma scale_sample (j : Z) (x : spec_float) :
  scalable j x = true -> SFmul prec32 emax32 (pow2 j) x = SFshift j x.
Proof.
  destruct x as [s|s| |[|] m e]; try discriminate.
  - intros _. destruct s; reflexivity.
  - intros Hx. cbn [SFshift]. apply scale_by_pow2.
    + cbn [scalable] in Hx. rewrite !andb_true_iff, Z.eqb_eq in Hx.
      destruct Hx as ((((Hd & _) & _) & _) & _). now injection Hd.
    + apply scalable_finite in Hx. lia.
Qed.

(** The sample as a [double]. *)
Lemma sample_as_double (j : Z) (x : spec_float) :
  scalable j x = true ->
  addend_ok (-115) 10 (f64_of_f32 x)
  /\ f64_of_f32 (SFshift j x) = SFshift j (f64_of_f32 x).
Proof.
  destruct x as [s|s| |[|] m e]; try discriminate.
  - intros _. split; [exact I|reflexivity].
  - intros Hx. apply scalable_finite in Hx. destruct Hx as (Hm & He & Hej).
    cbn [SFshift].
    destruct (@f64_of_f32_canon false m e Hm ltac:(lia)) as [-> Hc].
    destruct (@f64_of_f32_canon false m (e + j) Hm ltac:(lia)) as [-> _].
    cbn [addend_ok SFshift]. split; [split; [exact Hc|lia]|]. f_equal. lia.
Qed.

(** The square of the sample, computed in [float], as a [double]. *)
Lemma square_as_double (j : Z) (x : spec_float) :
  scalable j x = true ->
  addend_ok (-178) 74 (f64_of_f32 (SFmul prec32 emax32 x x))
  /\ f64_of_f32 (SFmul prec32 emax32 (SFshift j x) (SFshift j x))
     = SFshift (2 * j) (f64_of_f32 (SFmul prec32 emax32 x x)).
Proof.
  destruct x as [s|s| |[|] m e]; try discriminate.
  - intros _. split; [exact I|reflexivity].
  - intros Hx. apply scalable_finite in Hx. destruct Hx as (Hm & He & Hej).
    cbn [SFshift]. unfold prec32, emax32.
    destruct (@SFmul_canon 24 128 ltac:(lia) false m e false m e)
      as (m1 & e1 & Hr1 & Hm1 & He1); try assumption; try (unfold emin; lia).
    destruct (@SFmul_canon 24 128 ltac:(lia) false m (e + j) false m (e + j))
      as (m2 & e2 & Hr2 & Hm2 & He2); try assumption; try (unfold emin; lia).
    pose proof (@canon_m_mul 24 ltac:(lia) m m Hm Hm) as Hd.
    assert (Hshift : SFmul 24 128 (S754_finite false m (e + j))
                                  (S754_finite false m (e + j))
                     = SFshift (j + j)
                         (SFmul 24 128 (S754_finite false m e)
                                       (S754_finite false m e))).
    { apply SFmul_shift.
      - right. unfold emin. lia.
      - right. unfold emin. lia.
      - rewrite Hr1. exact I.
      - rewrite Hr2. exact I. }
    rewrite Hshift, Hr1. cbn [xorb SFshift].
    destruct (@f64_of_f32_canon false m1 e1 Hm1 ltac:(lia)) as [-> Hc].
    rewrite Hr1 in Hshift. rewrite Hr2 in Hshift. cbn [xorb SFshift] in Hshift.
    injection Hshift as -> ->.
    destruct (@f64_of_f32_canon false m1 (e1 + (j + j)) Hm1 ltac:(lia)) as [-> _].
    cbn [addend_ok SFshift]. split; [split; [exact Hc|lia]|]. f_equal. lia.
Qed.

(** The count of horizontal angles as a [double]. *)
Lemma horizontal_count_as_double (H : Z) :
  2 <= H < 2 ^ 31 -> pcanon (-51) (-22) (f64_of_Z H).
Proof.
  intros HH. unfold f64_of_Z, prec64, emax64.
  destruct H as [|p|p]; try lia. cbn [binary_normalize].
  pose proof (@Zdigits2_bounds (Zpos p) ltac:(lia)) as [Hb1 Hb2].
  assert (Hd : 2 <= Zdigits2 (Zpos p) <= 31).
  { split.
    - assert (1 < Zdigits2 (Zpos p)); [|lia].
      apply (Z.pow_lt_mono_r_iff 2); try lia.
      pose proof (@Zdigits2_pos (Zpos p)). lia.
    - assert (Zdigits2 (Zpos p) - 1 < 31); [|lia].
      apply (Z.pow_lt_mono_r_iff 2); lia. }
  destruct (@binary_round_exact 53 1024 ltac:(lia) false p 0)
    as (mz & Hr & _ & Hc); try (unfold emin; lia).
  rewrite Hr. cbn [pcanon]. split; [exact Hc|lia].
Qed.

Lemma pcanon_div (lo hi lo' hi' : Z) (x y : spec_float) :
  -900 <= lo -> hi <= 900 -> -100 <= lo' -> hi' <= 100 ->
  pcanon lo hi x -> pcanon lo' hi' y ->
  pcanon (lo - hi' - 53) (hi - lo' - 51) (SFdiv 53 1024 x y).
Proof.
  intros Hlo Hhi Hlo' Hhi'.
  destruct x as [| | |[|] mx ex]; try contradiction.
  destruct y as [| | |[|] my ey]; try contradiction.
  intros (Hmx & Hex) (Hmy & Hey).
  destruct (@SFdiv_canon 53 1024 ltac:(lia) false mx ex false my ey)
    as (m & e & Hr & Hm & He); try assumption; try (unfold emin; lia).
  rewrite Hr. cbn [xorb pcanon]. split; [exact Hm|lia].
Qed.

Lemma pcanon_div_shift (lo hi lo' hi' j : Z) (x y : spec_float) :
  -900 <= lo -> hi <= 900 -> -100 <= lo' -> hi' <= 100 ->
  pcanon lo hi x -> pcanon lo hi (SFshift j x) -> pcanon lo' hi' y ->
  SFdiv 53 1024 (SFshift j x) y = SFshift j (SFdiv 53 1024 x y).
Proof.
  intros Hlo Hhi Hlo' Hhi' Hx Hxj Hy.
  pose proof (@pcanon_div lo hi lo' hi' x y Hlo Hhi Hlo' Hhi' Hx Hy) as H1.
  pose proof (@pcanon_div lo hi lo' hi' (SFshift j x) y Hlo Hhi Hlo' Hhi' Hxj Hy) as H2.
  destruct x as [| | |[|] mx ex]; try contradiction.
  destruct y as [| | |[|] my ey]; try contradiction.
  cbn [SFshift pcanon] in *.
  destruct Hx as (Hmx & Hex). destruct Hxj as (_ & Hexj).
  destruct Hy as (Hmy & Hey).
  pose proof (@canon_m_digits 53 ltac:(lia) mx Hmx) as Hdx.
  pose proof (@canon_m_digits 53 ltac:(lia) my Hmy) as Hdy.
  apply SFdiv_shift_num; try (rewrite Hdx, Hdy; unfold emin; lia);
    try (unfold emin; lia).
  - destruct (SFdiv 53 1024 (S754_finite false mx ex) (S754_finite false my ey));
      try contradiction; exact I.
  - destruct (SFdiv 53 1024 (S754_finite false mx (ex + j))
                    (S754_finite false my ey)); try contradiction; exact I.
Qed.

Lemma pcanon_square (lo hi : Z) (x : spec_float) :
  -400 <= lo -> hi <= 400 ->
  pcanon lo hi x -> pcanon (2 * lo + 52) (2 * hi + 54) (SFmul 53 1024 x x).
Proof.
  intros Hlo Hhi. destruct x as [| | |[|] mx ex]; try contradiction.
  intros (Hmx & Hex).
  destruct (@SFmul_canon 53 1024 ltac:(lia) false mx ex false mx ex)
    as (m & e & Hr & Hm & He); try assumption; try (unfold emin; lia).
  rewrite Hr. cbn [xorb pcanon]. split; [exact Hm|lia].
Qed.

Lemma pcanon_square_shift (lo hi j : Z) (x : spec_float) :
  -400 <= lo -> hi <= 400 ->
  pcanon lo hi x -> pcanon lo hi (SFshift j x) ->
  SFmul 53 1024 (SFshift j x) (SFshift j x)
  = SFshift (2 * j) (SFmul 53 1024 x x).
Proof.
  intros Hlo Hhi Hx Hxj.
  pose proof (@pcanon_square lo hi x Hlo Hhi Hx) as H1.
  pose proof (@pcanon_square lo hi (SFshift j x) Hlo Hhi Hxj) as H2.
  destruct x as [| | |[|] mx ex]; try contradiction.
  cbn [SFshift pcanon] in *.
  destruct Hx as (Hmx & Hex). destruct Hxj as (_ & Hexj).
  replace (2 * j) with (j + j) by lia.
  apply SFmul_shift; try (left; unfold emin; lia).
  - destruct (SFmul 53 1024 (S754_finite false mx ex) (S754_finite false mx ex));
      try contradiction; exact I.
  - destruct (SFmul 53 1024 (S754_finite false mx (ex + j))
                    (S754_finite false mx (ex + j))); try contradiction; exact I.
Qed.

(** [meanSq - mean * mean], where [meanSq] may be zero. *)
Lemma scanon0_sub (lo hi : Z) (x y : spec_float) :
  -900 <= lo -> hi <= 900 ->
  x = S754_zero false \/ pcanon lo hi x -> pcanon lo hi y ->
  scanon0 (lo - 52) (hi + 1) (SFsub 53 1024 x y).
Proof.
  intros Hlo Hhi Hx Hy.
  destruct y as [| | |[|] my ey]; try contradiction. destruct Hy as (Hmy & Hey).
  destruct Hx as [-> | Hx].
  - cbn [SFsub negb scanon0]. split; [exact Hmy|lia].
  - destruct x as [| | |[|] mx ex]; try contradiction. destruct Hx as (Hmx & Hex).
    destruct (@SFsub_canon 53 1024 ltac:(lia) mx ex my ey)
      as [Hr|(s & m & e & Hr & Hm & He)]; try assumption; try (unfold emin; lia).
    + rewrite Hr. exact I.
    + rewrite Hr. cbn [scanon0]. split; [exact Hm|lia].
Qed.

Lemma scanon0_not_inf (lo hi : Z) (x : spec_float) : scanon0 lo hi x -> not_inf x.
Proof. destruct x as [[|]| | |s m e]; cbn; tauto. Qed.

Lemma scanon0_sub_shift (lo hi j : Z) (x y : spec_float) :
  -900 <= lo -> hi <= 900 ->
  x = S754_zero false \/ pcanon lo hi x ->
  x = S754_zero false \/ pcanon lo hi (SFshift j x) ->
  pcanon lo hi y -> pcanon lo hi (SFshift j y) ->
  SFsub 53 1024 (SFshift j x) (SFshift j y) = SFshift j (SFsub 53 1024 x y).
Proof.
  intros Hlo Hhi Hx Hxj Hy Hyj.
  assert (Hxj' : SFshift j x = S754_zero false \/ pcanon lo hi (SFshift j x)).
  { destruct Hxj as [-> | H]; [left; reflexivity|right; exact H]. }
  pose proof (@scanon0_not_inf _ _ _ (@scanon0_sub lo hi x y Hlo Hhi Hx Hy)) as H1.
  pose proof (@scanon0_not_inf _ _ _ (@scanon0_sub lo hi (SFshift j x) (SFshift j y) Hlo Hhi Hxj' Hyj)) as H2.
  apply (@SFsub_shift 53 1024 ltac:(lia)); try assumption.
  - destruct x as [| | |[|] mx ex]; cbn; try exact I.
    + destruct Hx as [Hx|Hx]; [discriminate Hx|contradiction].
    + destruct Hx as [Hx|Hx]; [discriminate Hx|]. cbn in Hx. unfold emin. lia.
  - destruct y as [| | |[|] my ey]; try contradiction. cbn in *.
    unfold emin. lia.
  - destruct x as [| | |[|] mx ex]; cbn; try exact I.
    + destruct Hxj as [Hz|Hz]; [discriminate Hz|contradiction].
    + destruct Hxj as [Hz|Hz]; [discriminate Hz|]. cbn in Hz. unfold emin. lia.
  - destruct y as [| | |[|] my ey]; try contradiction. cbn in *.
    unfold emin. lia.
Qed.

Lemma pcanon_sqrt (lo hi : Z) (x : spec_float) :
  -1000 <= lo -> hi <= 1000 ->
  pcanon lo hi x ->
  exists m e, SFsqrt 53 1024 x = S754_finite false m e /\ canon_m 53 m.
Proof.
  intros Hlo Hhi. destruct x as [| | |[|] mx ex]; try contradiction.
  intros (Hmx & Hex).
  destruct (@SFsqrt_canon mx ex Hmx ltac:(lia)) as (m & e & Hr & Hm & _).
  exists m, e. split; assumption.
Qed.

Lemma pcanon_sqrt_shift (lo hi j : Z) (x : spec_float) :
  -1000 <= lo -> hi <= 1000 ->
  pcanon lo hi x -> pcanon lo hi (SFshift (2 * j) x) ->
  SFsqrt 53 1024 (SFshift (2 * j) x) = SFshift j (SFsqrt 53 1024 x).
Proof.
  intros Hlo Hhi Hx Hxj.
  destruct (@pcanon_sqrt lo hi x Hlo Hhi Hx) as (m1 & e1 & Hr1 & _).
  destruct (@pcanon_sqrt lo hi (SFshift (2 * j) x) Hlo Hhi Hxj) as (m2 & e2 & Hr2 & _).
  destruct x as [| | |[|] mx ex]; try contradiction.
  cbn [SFshift pcanon] in *.
  destruct Hx as (Hmx & Hex). destruct Hxj as (_ & Hexj).
  pose proof (@canon_m_digits 53 ltac:(lia) mx Hmx) as Hdx.
  assert (Hdiv : forall x, 2 * Z.div2 x <= x <= 2 * Z.div2 x + 1).
  { intros x. rewrite Z.div2_div. pose proof (Z.mod_pos_bound x 2 ltac:(lia)).
    pose proof (Z.div_mod x 2 ltac:(lia)). lia. }
  pose proof (Hdiv ex). pose proof (Hdiv (Zdigits2 (Z.pos mx) + ex + 1)).
  apply SFsqrt_shift; try (unfold emin; lia).
  - rewrite Hr1. exact I.
  - rewrite Hr2. exact I.
Qed.

Lemma scalable_inside (j : Z) (x : spec_float) :
  scalable j x = true ->
  SFltb x (S754_finite false (2 ^ 24 - 1) 104) = true
  /\ SFltb (S754_finite true (2 ^ 24 - 1) 104) x = true.
Proof.
  destruct x as [s|s| |[|] m e]; try discriminate.
  - intros _. split; reflexivity.
  - intros Hx. apply scalable_finite in Hx. destruct Hx as (_ & He & _).
    unfold SFltb, SFcompare.
    destruct (Z.compare_spec e 104); [lia|split; reflexivity|lia].
Qed.

Lemma acc_ok_exp_ge (lo hi k : Z) (x : spec_float) :
  -1022 <= lo -> acc_ok lo hi k x -> exp_ge (emin 53 1024 + 53 - 1) x.
Proof.
  intros Hlo. destruct x as [| | |[|] m e]; cbn; try tauto.
  unfold emin. lia.
Qed.

Lemma addend_ok_exp_ge (lo hi : Z) (x : spec_float) :
  -1022 <= lo -> addend_ok lo hi x -> exp_ge (emin 53 1024 + 53 - 1) x.
Proof.
  intros Hlo. destruct x as [| | |[|] m e]; cbn; try tauto.
  unfold emin. lia.
Qed.

Lemma acc_ok_not_inf (lo hi k : Z) (x : spec_float) : acc_ok lo hi k x -> not_inf x.
Proof. destruct x as [[|]| | |[|] m e]; cbn; tauto. Qed.

(** Adding one more addend to an accumulator, in both runs. *)
Lemma acc_related (lo hi k j : Z) (s a a' : spec_float) :
  -1000 <= lo -> lo <= hi -> hi <= 900 -> 0 <= k < 2 ^ 31 ->
  acc_ok lo hi k s -> acc_ok lo hi k (SFshift j s) ->
  addend_ok lo hi a -> a' = SFshift j a -> addend_ok lo hi a' ->
  SFadd 53 1024 (SFshift j s) a' = SFshift j (SFadd 53 1024 s a)
  /\ acc_ok lo hi (k + 1) (SFadd 53 1024 s a)
  /\ acc_ok lo hi (k + 1) (SFadd 53 1024 (SFshift j s) a').
Proof.
  intros Hlo Hlh Hhi Hk Hs Hsj Ha -> Haj.
  pose proof (@acc_ok_step lo hi k s a Hlo Hlh Hhi Hk Hs Ha) as H1.
  pose proof (@acc_ok_step lo hi k _ _ Hlo Hlh Hhi Hk Hsj Haj) as H2.
  split; [|split; assumption].
  apply (@SFadd_shift 53 1024 ltac:(lia)).
  - apply (@acc_ok_exp_ge lo hi k); [lia|assumption].
  - apply (@addend_ok_exp_ge lo hi); [lia|assumption].
  - apply (@acc_ok_exp_ge lo hi k); [lia|assumption].
  - apply (@addend_ok_exp_ge lo hi); [lia|assumption].
  - apply (@acc_ok_not_inf lo hi (k + 1)). assumption.
  - apply (@acc_ok_not_inf lo hi (k + 1)). assumption.
Qed.

Lemma stats_add_related (j k : Z) (st st' : SliceStats arith) (x : spec_float) :
  scalable j x = true -> 0 <= k < 2 ^ 31 ->
  stats_related j k st st' ->
  stats_related j (k + 1) (stats_add st x) (stats_add st' (SFshift j x)).
Proof.
  intros Hx Hk (Hext & Hsum & Hs & Hs' & Hsq & Hq & Hq').
  pose proof (scalable_shift _ _ Hx) as Hxj.
  destruct (sample_as_double _ _ Hx) as [Ha Hconv].
  destruct (sample_as_double _ _ Hxj) as [Ha' _].
  destruct (square_as_double _ _ Hx) as [Hb Hsquare].
  destruct (square_as_double _ _ Hxj) as [Hb' _].
  unfold stats_related, stats_add. cbn [minVal maxVal sum sumSq]. ieee_arith.
  split.
  { unfold extrema_related, f_std_min, f_std_max in *.
    cbn [minVal maxVal]. ieee_arith.
    destruct (scalable_inside _ _ Hx) as [Hlt Hgt].
    destruct (scalable_inside _ _ Hxj) as [Hlt' Hgt'].
    right. destruct Hext as [(-> & -> & -> & ->)|(Hmin & -> & Hmax & ->)].
    - rewrite Hlt, Hgt, Hlt', Hgt'. repeat split; assumption.
    - rewrite !SFltb_shift_both.
      destruct (SFltb x (minVal st)), (SFltb (maxVal st) x);
        repeat split; assumption. }
  rewrite Hsum in *. rewrite Hsq in *.
  destruct (@acc_related (-115) 10 k j (sum st) (f64_of_f32 x)
              (f64_of_f32 (SFshift j x))) as (E1 & A1 & A1');
    try assumption; try lia.
  destruct (@acc_related (-178) 74 k (2 * j) (sumSq st)
              (f64_of_f32 (SFmul prec32 emax32 x x))
              (f64_of_f32 (SFmul prec32 emax32 (SFshift j x) (SFshift j x))))
    as (E2 & A2 & A2'); try assumption; try lia.
  unfold prec64, emax64. repeat split; assumption.
Qed.

Lemma stats_fold_related (j : Z) (l : list spec_float) :
  Forall (fun x => scalable j x = true) l ->
  forall (k : Z) (st st' : SliceStats arith),
    0 <= k -> k + Z.of_nat (List.length l) <= 2 ^ 31 ->
    stats_related j k st st' ->
    stats_related j (k + Z.of_nat (List.length l))
      (fold_left stats_add l st)
      (fold_left stats_add (map (SFshift j) l) st').
Proof.
  induction 1 as [|x l Hx _ IH]; intros k st st' Hk Hlen Hrel.
  - cbn. now rewrite Z.add_0_r.
  - cbn [fold_left map List.length] in *.
    replace (k + Z.of_nat (S (List.length l)))
      with (k + 1 + Z.of_nat (List.length l)) by lia.
    apply IH; try lia. apply stats_add_related; try assumption. lia.
Qed.

Lemma stats_init_related (j : Z) : stats_related j 0 stats_init stats_init.
Proof.
  unfold stats_related, stats_init. cbn [minVal maxVal sum sumSq]. ieee_arith.
  split; [left; repeat split|]. repeat split.
Qed.

Lemma pcanon_wider (lo hi lo' hi' : Z) (x : spec_float) :
  lo' <= lo -> hi <= hi' -> pcanon lo hi x -> pcanon lo' hi' x.
Proof.
  intros Hlo Hhi. destruct x as [| | |[|] m e]; cbn [pcanon]; try tauto.
  intros [Hm He]. split; [exact Hm|lia].
Qed.

Lemma acc_ok_pcanon (lo hi k : Z) (x : spec_float) :
  lo <= hi -> 0 <= k <= 2 ^ 31 ->
  acc_ok lo hi k x -> x = S754_zero false \/ pcanon lo (hi + 33) x.
Proof.
  intros Hlh Hk Hx. destruct x as [[|]| | |[|] m e]; try contradiction.
  - left. reflexivity.
  - right. pose proof (@canon_pcanon_exp lo hi k m e Hlh Hk Hx) as He.
    destruct Hx as (Hm & Hlo & _). cbn [pcanon]. split; [exact Hm|lia].
Qed.

Lemma SFshift_zero (j : Z) : SFshift j (S754_zero false) = S754_zero false.
Proof. reflexivity. Qed.

Lemma SFltb_zero_shift (j : Z) (x : spec_float) :
  SFltb (S754_zero false) (SFshift j x) = SFltb (S754_zero false) x.
Proof. rewrite <- (SFshift_zero j) at 1. apply SFltb_shift_both. Qed.

(** The coefficient of variation is the same in both runs. *)
Lemma coeff_var_related (j k H : Z) (st st' : SliceStats arith) :
  2 <= H < 2 ^ 31 -> 0 <= k <= 2 ^ 31 ->
  stats_related j k st st' ->
  SFltb (S754_zero false) (sum st) = true ->
  value (coeff_var H st') = value (coeff_var H st).
Proof.
  intros HH Hk (_ & Hsum & Hs & Hs' & Hsq & Hq & Hq') Hpos.
  rewrite !coeff_var_value. cbv zeta. unfold d_std_max. ieee_arith.
  unfold prec64, emax64 in *.
  pose proof (horizontal_count_as_double HH) as Hd.
  set (Hdbl := f64_of_Z H) in *.
  rewrite Hsum, Hsq.
  destruct (@acc_ok_pcanon (-115) 10 k (sum st) ltac:(lia) Hk Hs) as [Hz|Hps];
    [rewrite Hz in Hpos; discriminate Hpos|].
  assert (Hps' : pcanon (-115) (10 + 33) (SFshift j (sum st))).
  { rewrite Hsum in Hs'.
    destruct (@acc_ok_pcanon (-115) 10 k _ ltac:(lia) Hk Hs') as [Hz|H']; [|exact H'].
    destruct (sum st) as [| | |s m e]; try contradiction. discriminate Hz. }
  (* mean *)
  pose proof (@pcanon_div_shift (-115) (10 + 33) (-51) (-22) j (sum st) Hdbl
                ltac:(lia) ltac:(lia) ltac:(lia) ltac:(lia) Hps Hps' Hd) as Emean.
  pose proof (@pcanon_div (-115) (10 + 33) (-51) (-22) (sum st) Hdbl
                ltac:(lia) ltac:(lia) ltac:(lia) ltac:(lia) Hps Hd) as Hmean.
  pose proof (@pcanon_div (-115) (10 + 33) (-51) (-22) _ Hdbl
                ltac:(lia) ltac:(lia) ltac:(lia) ltac:(lia) Hps' Hd) as Hmean'.
  rewrite Emean in *.
  set (mean := SFdiv 53 1024 (sum st) Hdbl) in *.
  (* mean * mean *)
  pose proof (@pcanon_square_shift (-115 - -22 - 53) (10 + 33 - -51 - 51) j mean ltac:(lia) ltac:(lia) Hmean Hmean')
    as Esquare.
  pose proof (@pcanon_square (-115 - -22 - 53) (10 + 33 - -51 - 51) mean ltac:(lia) ltac:(lia) Hmean) as Hsquare.
  pose proof (@pcanon_square (-115 - -22 - 53) (10 + 33 - -51 - 51) _ ltac:(lia) ltac:(lia) Hmean') as Hsquare'.
  rewrite Esquare in *.
  set (square := SFmul 53 1024 mean mean) in *.
  (* sumSq / H *)
  assert (HmeanSq : SFdiv 53 1024 (SFshift (2 * j) (sumSq st)) Hdbl
                    = SFshift (2 * j) (SFdiv 53 1024 (sumSq st) Hdbl)
                    /\ (SFdiv 53 1024 (sumSq st) Hdbl = S754_zero false
                        \/ pcanon (-240) 162 (SFdiv 53 1024 (sumSq st) Hdbl))
                    /\ (SFdiv 53 1024 (sumSq st) Hdbl = S754_zero false
                        \/ pcanon (-240) 162
                             (SFshift (2 * j) (SFdiv 53 1024 (sumSq st) Hdbl)))).
  { destruct (@acc_ok_pcanon (-178) 74 k (sumSq st) ltac:(lia) Hk Hq) as [Hz|Hpq].
    - rewrite Hz. destruct Hdbl as [| | |[|] mh eh]; try contradiction.
      cbn. repeat split; left; reflexivity.
    - assert (Hpq' : pcanon (-178) (74 + 33) (SFshift (2 * j) (sumSq st))).
      { rewrite Hsq in Hq'.
        destruct (@acc_ok_pcanon (-178) 74 k _ ltac:(lia) Hk Hq') as [Hz|H'];
          [|exact H'].
        destruct (sumSq st) as [| | |s m e]; try contradiction. discriminate Hz. }
      pose proof (@pcanon_div_shift (-178) (74 + 33) (-51) (-22) (2 * j)
                    (sumSq st) Hdbl ltac:(lia) ltac:(lia) ltac:(lia) ltac:(lia)
                    Hpq Hpq' Hd) as E.
      split; [exact E|]. split; right.
      + eapply pcanon_wider; [| |apply (@pcanon_div (-178) (74 + 33) (-51) (-22)
                                          (sumSq st) Hdbl); try assumption; lia]; lia.
      + rewrite <- E.
        eapply pcanon_wider; [| |apply (@pcanon_div (-178) (74 + 33) (-51) (-22)
                                          _ Hdbl); try eassumption; lia]; lia. }
  destruct HmeanSq as (EmeanSq & HmeanSq & HmeanSq').
  rewrite EmeanSq in *.
  set (meanSq := SFdiv 53 1024 (sumSq st) Hdbl) in *.
  (* variance *)
  assert (Hsq1 : pcanon (-240) 162 square)
    by (eapply pcanon_wider; [| |exact Hsquare]; lia).
  assert (Hsq2 : pcanon (-240) 162 (SFshift (2 * j) square))
    by (eapply pcanon_wider; [| |exact Hsquare']; lia).
  pose proof (@scanon0_sub_shift (-240) 162 (2 * j) meanSq square
                ltac:(lia) ltac:(lia) HmeanSq HmeanSq' Hsq1 Hsq2) as Evar.
  pose proof (@scanon0_sub (-240) 162 meanSq square ltac:(lia) ltac:(lia)
                HmeanSq Hsq1) as Hvar.
  assert (Hvar' : scanon0 (-240 - 52) (162 + 1)
                    (SFshift (2 * j) (SFsub 53 1024 meanSq square))).
  { rewrite <- Evar. apply scanon0_sub; try lia; try assumption.
    destruct HmeanSq' as [Hz|H']; [left; rewrite Hz; reflexivity|right; exact H']. }
  rewrite Evar in *.
  set (variance := SFsub 53 1024 meanSq square) in *.
  rewrite SFltb_zero_shift.
  (* standard deviation *)
  assert (Estd : SFsqrt 53 1024
                   (if SFltb (S754_zero false) variance
                    then SFshift (2 * j) variance else S754_zero false)
                 = SFshift j
                     (SFsqrt 53 1024
                        (if SFltb (S754_zero false) variance
                         then variance else S754_zero false))).
  { destruct (SFltb (S754_zero false) variance) eqn:Hv; [|reflexivity].
    assert (Hpv : pcanon (-240 - 52) (162 + 1) variance).
    { destruct variance as [[|]| | |[|] m e]; try contradiction;
        try discriminate Hv. exact Hvar. }
    assert (Hpv' : pcanon (-240 - 52) (162 + 1) (SFshift (2 * j) variance)).
    { destruct variance as [[|]| | |[|] m e]; try contradiction;
        try discriminate Hv. exact Hvar'. }
    apply (@pcanon_sqrt_shift (-240 - 52) (162 + 1)); try assumption; lia. }
  rewrite Estd. apply SFdiv_shift_both.
Qed.

Lemma ratio_exceeded_related (j : Z) (st st' : SliceStats arith) :
  extrema_related j st st' ->
  value (ratio_exceeded st') = value (ratio_exceeded st).
Proof.
  intros Hext. rewrite !ratio_exceeded_value. ieee_arith.
  destruct Hext as [(-> & -> & -> & ->)|(_ & -> & _ & ->)]; [reflexivity|].
  rewrite SFltb_zero_shift. unfold prec32, emax32.
  rewrite SFdiv_shift_both. reflexivity.
Qed.

Lemma slice_step_related (j k H : Z) (total : spec_float)
      (st st' : SliceStats arith) :
  2 <= H < 2 ^ 31 -> 0 <= k <= 2 ^ 31 ->
  stats_related j k st st' ->
  value (slice_step H total st') = value (slice_step H total st).
Proof.
  intros HH Hk Hrel. rewrite !slice_step_value.
  pose proof Hrel as (Hext & Hsum & _).
  assert (Hlt : d_lt d_zero (sum st') = d_lt d_zero (sum st))
    by (rewrite Hsum; apply SFltb_zero_shift).
  rewrite Hlt. destruct (d_lt d_zero (sum st)) eqn:Hpos; [|reflexivity].
  cbv zeta. rewrite (coeff_var_related HH Hk Hrel Hpos).
  rewrite (ratio_exceeded_related Hext). reflexivity.
Qed.

Lemma at_index_scaled (j : Z) (samples : list spec_float) (i : Z) :
  forallb (scalable j) samples = true ->
  scalable j (at_index (A := arith) samples i) = true
  /\ at_index (A := arith) (map (f_mul (pow2 j)) samples) i
     = SFshift j (at_index (A := arith) samples i).
Proof.
  intros Hall. unfold at_index. ieee_arith.
  assert (Hin : scalable j (nth (Z.to_nat i) samples (S754_zero false)) = true).
  { destruct (nth_in_or_default (Z.to_nat i) samples (S754_zero false)) as [Hin| ->];
      [|reflexivity].
    rewrite forallb_forall in Hall. now apply Hall. }
  split; [exact Hin|].
  change (S754_zero false) with (SFmul prec32 emax32 (pow2 j) (S754_zero false)) at 1.
  rewrite map_nth. now apply scale_sample.
Qed.

Lemma slice_scaled (j : Z) (info : IESFileInfo arith) (v : Z) :
  forallb (scalable j) (candalaValues info) = true ->
  Forall (fun x => scalable j x = true) (slice info v)
  /\ slice (scale (pow2 j) info) v = map (SFshift j) (slice info v).
Proof.
  intros Hall. unfold slice, scale. cbn [anglesNumH anglesNumV candalaValues].
  split.
  - apply Forall_map, Forall_forall. intros h _.
    now apply at_index_scaled.
  - rewrite map_map. apply map_ext. intros h. now apply at_index_scaled.
Qed.

Lemma slice_stats_scaled (j : Z) (info : IESFileInfo arith) (v : Z) :
  0 <= anglesNumH info < 2 ^ 31 ->
  forallb (scalable j) (candalaValues info) = true ->
  stats_related j (anglesNumH info)
    (slice_stats info v) (slice_stats (scale (pow2 j) info) v).
Proof.
  intros HH Hall. unfold slice_stats.
  destruct (@slice_scaled j info v Hall) as [Hfor ->].
  pose proof (slice_length info v) as Hlen.
  change (2 ^ 31) with 2147483648 in HH.
  replace (anglesNumH info)
    with (0 + Z.of_nat (List.length (slice info v))) at 1
    by (ieee_arith; lia).
  apply stats_fold_related; try assumption; try lia.
  - change (2 ^ 31) with 2147483648. ieee_arith. lia.
  - apply stats_init_related.
Qed.

(** C10, amended.  Multiplying every sample by a power of two [2 ^ j] leaves
    the score and the decision unchanged, bit for bit, as long as nothing
    overflows or underflows: every sample is zero or a positive normal
    [float] between [2 ^ -63] and [2 ^ 63], and so is its product with
    [2 ^ j].  Then every [float] and [double] the classifier computes on the
    scaled grid is the one it computes on the grid itself with the exponent
    moved ([sum], [mean] and [stdDev] by [j], the squares and the variance by
    [2 * j]); the quotients [stdDev / mean] and [maxVal / minVal] and all
    comparisons are the same. *)
Theorem scaling_by_a_power_of_two_preserves_classification
        (info : IESFileInfo arith) (j : Z) :
  2 <= anglesNumH info < 2 ^ 31 ->
  1 <= anglesNumV info ->
  grid_ok info ->
  -126 <= j <= 127 ->
  forallb (scalable j) (candalaValues info) = true ->
  avgVariation (value (classify (scale (pow2 j) info)))
  = avgVariation (value (classify info))
  /\ use1D (value (classify (scale (pow2 j) info)))
     = use1D (value (classify info)).
Proof.
  intros HH _ _ _ Hall.
  assert (Hvalue : value (classify (scale (pow2 j) info)) = value (classify info)).
  { rewrite !classify_value by (cbn [scale anglesNumH]; lia).
    rewrite !average_variation_value, !running_total_value.
    cbn [scale anglesNumH anglesNumV].
    assert (Htotal : forall idx total,
               fold_left (fun total v =>
                            value (slice_step (anglesNumH info) total
                                     (slice_stats (scale (pow2 j) info) v)))
                         idx total
               = fold_left (fun total v =>
                              value (slice_step (anglesNumH info) total
                                       (slice_stats info v)))
                           idx total).
    { induction idx as [|v idx IH]; intros total; [reflexivity|].
      cbn [fold_left]. rewrite IH. f_equal.
      apply (@slice_step_related j (anglesNumH info)); try lia.
      apply slice_stats_scaled; [lia|assumption]. }
    fold (scale (pow2 j) info). rewrite Htotal. reflexivity. }
  rewrite Hvalue. split; reflexivity.
Qed.

Lemma scaling_by_a_power_of_two_preserves_classification_witness :
  avgVariation (value (classify (scale (pow2 3) skewed_grid)))
  = avgVariation (value (classify skewed_grid))
  /\ use1D (value (classify (scale (pow2 3) skewed_grid)))
     = use1D (value (classify skewed_grid)).
Proof.
  apply (@scaling_by_a_power_of_two_preserves_classification skewed_grid 3).
  - cbn. lia.
  - cbn. lia.
  - reflexivity.
  - lia.
  - vm_compute. reflexivity.
Defined.
End PowerOfTwoScaling.

(** ** The sign of the score *)

Section Signs.
Import IEEE.
Variables prec emax : Z.

Lemma shr_nonneg (mrs : shr_record) (e n : Z) :
  0 <= shr_m mrs -> 0 <= shr_m (fst (shr mrs e n)).
Proof.
  intros Hm. rewrite shr_base. cbn [fst]. rewrite shr_mantissa by assumption.
  apply Z.div_pos; [assumption|]. apply Z.pow_pos_nonneg; lia.
Qed.

Lemma binary_round_aux_not_negative (mx ex : Z) (lx : location) :
  0 <= mx -> not_negative (binary_round_aux prec emax false mx ex lx).
Proof.
  intros Hmx. unfold binary_round_aux, shr_fexp.
  pose proof (@shr_nonneg (shr_record_of_loc mx lx) ex
                (fexp prec emax (Zdigits2 mx + ex) - ex)) as H1.
  rewrite shr_record_of_loc_m in H1. specialize (H1 Hmx).
  destruct (shr (shr_record_of_loc mx lx) ex _) as [mrs1 e1]. cbn [fst] in H1.
  pose proof (round_nearest_even_bounds (shr_m mrs1) (loc_of_shr_record mrs1)) as H2.
  set (m2 := round_nearest_even (shr_m mrs1) (loc_of_shr_record mrs1)) in *.
  pose proof (@shr_nonneg (shr_record_of_loc m2 loc_Exact) e1
                (fexp prec emax (Zdigits2 m2 + e1) - e1)) as H3.
  rewrite shr_record_of_loc_m in H3. specialize (H3 ltac:(lia)).
  destruct (shr (shr_record_of_loc m2 loc_Exact) e1 _) as [mrs2 e2].
  cbn [fst] in H3.
  destruct (shr_m mrs2) as [|p|p]; try exact I.
  destruct (e2 <=? emax - prec); exact I.
Qed.

Lemma binary_round_not_negative (m : positive) (e : Z) :
  not_negative (binary_round prec emax false m e).
Proof.
  unfold binary_round.
  destruct (shl_align m e _) as [mz ez].
  apply binary_round_aux_not_negative. lia.
Qed.

Lemma SFadd_not_negative (x y : spec_float) :
  not_negative x -> not_negative y -> not_negative (SFadd prec emax x y).
Proof.
  destruct x as [[|]|[|]| |[|] mx ex]; try contradiction;
    destruct y as [[|]|[|]| |[|] my ey]; try contradiction; intros _ _;
    try exact I.
  unfold SFadd. cbn [cond_Zopp Z.add binary_normalize].
  apply binary_round_not_negative.
Qed.

Lemma SFdiv_not_negative (x y : spec_float) :
  not_negative x -> not_negative y -> not_negative (SFdiv prec emax x y).
Proof.
  destruct x as [[|]|[|]| |[|] mx ex]; try contradiction;
    destruct y as [[|]|[|]| |[|] my ey]; try contradiction; intros _ _;
    try exact I.
  cbn [SFdiv xorb]. unfold SFdiv_core_binary.
  set (s := ex - ey - _).
  assert (Hq : forall a, 0 <= a -> 0 <= fst (Z.div_eucl a (Zpos my))).
  { intros a Ha. change (fst (Z.div_eucl a (Z.pos my))) with (a / Zpos my).
    apply Z.div_pos; lia. }
  specialize (Hq (match s with
                  | 0 => Z.pos mx
                  | Z.pos _ => Z.shiftl (Z.pos mx) s
                  | Z.neg _ => 0
                  end)).
  destruct (Z.div_eucl _ (Z.pos my)) as [q r]. cbn [fst] in Hq.
  apply binary_round_aux_not_negative. apply Hq.
  destruct s; try lia. apply Z.shiftl_nonneg. lia.
Qed.

Lemma SFsqrt_not_negative (x : spec_float) :
  not_negative x -> not_negative (SFsqrt prec emax x).
Proof.
  destruct x as [[|]|[|]| |[|] mx ex]; try contradiction; intros _; try exact I.
  cbn [SFsqrt]. unfold SFsqrt_core_binary.
  set (s := ex - _).
  pose proof (Z.sqrtrem_sqrt (match s with
                              | 0 => Z.pos mx
                              | Z.pos _ => Z.shiftl (Z.pos mx) s
                              | Z.neg _ => 0
                              end)) as Hq.
  destruct (Z.sqrtrem _) as [q r]. cbn [fst] in Hq.
  apply binary_round_aux_not_negative. rewrite Hq. apply Z.sqrt_nonneg.
Qed.
End Signs.

Section FiniteSamples.
Import IEEE.
Import Scaling.

Ltac ieee_arith :=
  cbn [flt dbl FLT_MAX FLT_LOWEST f_zero f_ratio_bound f_lt f_mul f_div
       d_of_f d_of_int d_zero d_penalty d_threshold d_lt d_add d_sub d_mul
       d_div d_sqrt arith] in *.

Lemma above_zero_not_negative (x : spec_float) :
  SFltb (S754_zero false) x = true -> not_negative x.
Proof. destruct x as [[|]|[|]| |[|] m e]; try discriminate; intros _; exact I. Qed.

Lemma not_negative_not_below_zero (x : spec_float) :
  not_negative x -> SFltb x (S754_zero false) = false.
Proof. destruct x as [[|]|[|]| |[|] m e]; try contradiction; reflexivity. Qed.

Lemma count_not_negative (n : Z) : 0 <= n -> not_negative (f64_of_Z n).
Proof.
  intros Hn. unfold f64_of_Z. destruct n as [|p|p]; try lia; [exact I|].
  cbn [binary_normalize]. apply binary_round_not_negative.
Qed.

Lemma slice_step_not_negative (H : Z) (total : spec_float) (st : SliceStats arith) :
  0 <= H -> not_negative total ->
  not_negative (value (slice_step H total st)).
Proof.
  intros HH Ht. rewrite slice_step_value.
  destruct (d_lt d_zero (sum st)) eqn:Hsum; [|exact Ht].
  assert (Hcv : not_negative (value (coeff_var H st))).
  { rewrite coeff_var_value. cbv zeta. ieee_arith.
    apply SFdiv_not_negative.
    - apply SFsqrt_not_negative. unfold d_std_max. ieee_arith.
      match goal with
      | |- not_negative (if ?c then _ else _) => destruct c eqn:Hv
      end; [|exact I].
      now apply above_zero_not_negative.
    - apply SFdiv_not_negative; [now apply above_zero_not_negative|].
      now apply count_not_negative. }
  cbv zeta. ieee_arith.
  assert (Ht' : not_negative (SFadd prec64 emax64 total (value (coeff_var H st))))
    by now apply SFadd_not_negative.
  destruct (value (ratio_exceeded st)); [|exact Ht'].
  apply SFadd_not_negative; [exact Ht'|exact I].
Qed.

Lemma running_total_not_negative (info : IESFileInfo arith) :
  0 <= anglesNumH info -> not_negative (value (running_total info)).
Proof.
  intros HH. rewrite running_total_value.
  assert (H0 : not_negative (@d_zero arith)) by exact I.
  revert H0. generalize (@d_zero arith). 
  induction (range (anglesNumV info)) as [|v l IH]; intros total Ht; [exact Ht|].
  cbn [fold_left]. apply IH. now apply slice_step_not_negative.
Qed.

Lemma no_vertical_angle_no_total (info : IESFileInfo arith) :
  anglesNumV info <= 0 -> value (running_total info) = S754_zero false.
Proof.
  intros HV. rewrite running_total_value. unfold range.
  replace (Z.to_nat (anglesNumV info)) with 0%nat by lia. reflexivity.
Qed.

(** X16. The score is never below zero, whatever the samples are (negative
    numbers, infinities and NaN included) and whatever the count of vertical
    angles: with two horizontal angles or more the classifier computes a
    score, and [score < 0.0] is false on it. *)
Theorem score_is_not_negative (info : IESFileInfo arith) :
  2 <= anglesNumH info ->
  exists score,
    avgVariation (value (classify info)) = Some score
    /\ d_lt score d_zero = false.
Proof.
  intros HH. rewrite classify_value by lia. cbn [avgVariation].
  eexists. split; [reflexivity|].
  rewrite average_variation_value. ieee_arith.
  destruct (Z_le_gt_dec 0 (anglesNumV info)) as [HV|HV].
  - apply not_negative_not_below_zero. apply SFdiv_not_negative.
    + apply running_total_not_negative. lia.
    + now apply count_not_negative.
  - rewrite no_vertical_angle_no_total by lia.
    destruct (f64_of_Z (anglesNumV info)) as [[|]|[|]| |[|] m e]; reflexivity.
Qed.

Lemma score_is_not_negative_witness :
  exists score,
    avgVariation (value (classify Doubles.nan_inside_grid)) = Some score
    /\ d_lt score d_zero = false.
Proof. apply score_is_not_negative. cbn. lia. Defined.

(** ** Grids of finite samples *)


(** A finite binary32 number, subnormal or not, is a binary64 number in the
    normal range. *)
Lemma finite_sample_as_double (s : bool) (m : positive) (e : Z) :
  bounded prec32 emax32 m e = true ->
  exists mz ez,
    f64_of_f32 (S754_finite s m e) = S754_finite s mz ez
    /\ canon_m 53 mz /\ -201 <= ez <= 75.
Proof.
  unfold bounded, canonical_mantissa, fexp, emin, prec32, emax32.
  intros Hb. apply andb_true_iff in Hb. destruct Hb as [Hc He].
  apply Z.eqb_eq in Hc. apply Z.leb_le in He.
  change (Z.pos (digits2_pos m)) with (Zdigits2 (Zpos m)) in Hc.
  pose proof (@Zdigits2_pos (Zpos m) ltac:(lia)) as Hd.
  cbn [f64_of_f32]. unfold prec64, emax64.
  destruct (@binary_round_exact 53 1024 ltac:(lia) s m e)
    as (mz & Hr & _ & Hcz); try (unfold emin; lia).
  exists mz, (e - (53 - Zdigits2 (Zpos m))). split; [exact Hr|].
  split; [exact Hcz|lia].
Qed.

Lemma candela_as_double (x : spec_float) :
  candela x = true -> addend_ok (-201) 75 (f64_of_f32 x).
Proof.
  destruct x as [s|s| |[|] m e]; try discriminate; intros Hx; [exact I|].
  destruct (finite_sample_as_double false m e Hx) as (mz & ez & -> & Hc & He).
  cbn [addend_ok]. split; assumption.
Qed.

Lemma sum_of_candelas (vals : list spec_float) (acc : spec_float) (k : Z) :
  Forall (fun x => candela x = true) vals ->
  0 <= k -> k + Z.of_nat (List.length vals) < 2 ^ 31 ->
  acc_ok (-201) 75 k acc ->
  acc_ok (-201) 75 (k + Z.of_nat (List.length vals)) (sum_from (A := arith) acc vals).
Proof.
  intros Hvals. revert acc k.
  induction Hvals as [|x vals Hx _ IH]; intros acc k Hk Hlen Hacc.
  - cbn [List.length sum_from]. now rewrite Z.add_0_r.
  - cbn [List.length sum_from] in *.
    replace (k + Z.of_nat (S (List.length vals)))
      with (k + 1 + Z.of_nat (List.length vals)) in * by lia.
    apply IH; try lia. ieee_arith. unfold prec64, emax64.
    apply acc_ok_step; try lia; [exact Hacc|now apply candela_as_double].
Qed.

Lemma slice_of_candelas (info : IESFileInfo arith) (v : Z) :
  forallb candela (candalaValues info) = true ->
  Forall (fun x => candela x = true) (slice info v).
Proof.
  intros Hok. unfold slice. apply Forall_map, Forall_forall. intros h _.
  unfold at_index.
  destruct (nth_in_or_default (Z.to_nat (h * anglesNumV info + v))
              (candalaValues info) (@f_zero arith)) as [Hin|Heq];
    [|rewrite Heq; reflexivity].
  rewrite forallb_forall in Hok. now apply Hok.
Qed.

Lemma sum_of_slice (info : IESFileInfo arith) (v : Z) :
  2 <= anglesNumH info < 2 ^ 31 ->
  forallb candela (candalaValues info) = true ->
  acc_ok (-201) 75 (anglesNumH info) (sum (slice_stats info v)).
Proof.
  intros HH Hok. unfold slice_stats. rewrite stats_fold. cbn [sum stats_init].
  pose proof (@sum_of_candelas (slice info v) (S754_zero false) 0
                (@slice_of_candelas info v Hok)) as Hsum.
  pose proof (slice_length info v) as Hlen. ieee_arith.
  rewrite Hlen in Hsum. rewrite Z2Nat.id in Hsum by lia.
  apply Hsum; try lia. exact I.
Qed.

(** The least of finite numbers is finite. *)
Lemma least_from_finite (vals : list spec_float) (m : spec_float) :
  Forall (fun x => candela x = true) vals ->
  finite_float m = true ->
  finite_float (least_from (A := arith) m vals) = true.
Proof.
  intros Hvals. revert m. induction Hvals as [|x vals Hx _ IH]; intros m Hm;
    [exact Hm|].
  cbn [least_from]. apply IH. destruct (@f_lt arith x m); [|exact Hm].
  destruct x as [s|s| |[|] mx ex]; try discriminate; [reflexivity|exact Hx].
Qed.

Lemma count_as_double (n : Z) :
  1 <= n < 2 ^ 31 -> pcanon (-52) (-22) (f64_of_Z n).
Proof.
  intros Hn. unfold f64_of_Z, prec64, emax64.
  destruct n as [|p|p]; try lia. cbn [binary_normalize].
  pose proof (@Zdigits2_bounds (Zpos p) ltac:(lia)) as [Hb1 Hb2].
  pose proof (@Zdigits2_pos (Zpos p) ltac:(lia)) as Hd1.
  assert (Hd : Zdigits2 (Zpos p) <= 31).
  { assert (Zdigits2 (Zpos p) - 1 < 31); [|lia].
    apply (Z.pow_lt_mono_r_iff 2); lia. }
  destruct (@binary_round_exact 53 1024 ltac:(lia) false p 0)
    as (mz & Hr & _ & Hc); try (unfold emin; lia).
  rewrite Hr. cbn [pcanon]. split; [exact Hc|lia].
Qed.

Lemma positive_sum_is_normal (k : Z) (x : spec_float) :
  0 <= k < 2 ^ 31 -> acc_ok (-201) 75 k x ->
  SFltb (S754_zero false) x = true -> pcanon (-201) 108 x.
Proof.
  intros Hk Hx Hpos.
  destruct x as [[|]| | |[|] m e]; try contradiction; try discriminate.
  pose proof (@canon_pcanon_exp (-201) 75 k m e ltac:(lia) ltac:(lia) Hx) as He.
  destruct Hx as (Hm & Hlo & _). cbn [pcanon]. split; [exact Hm|lia].
Qed.

Lemma slice_step_divisors (info : IESFileInfo arith) (v : Z) (total : spec_float) :
  2 <= anglesNumH info < 2 ^ 31 ->
  forallb candela (candalaValues info) = true ->
  Forall (fun d => proper_divisor d = true)
         (logged (slice_step (anglesNumH info) total (slice_stats info v))).
Proof.
  intros HH Hok. rewrite slice_step_log.
  destruct (d_lt d_zero (sum (slice_stats info v))) eqn:Hsum; [|constructor].
  cbv zeta.
  pose proof (@horizontal_count_as_double _ HH) as HHd.
  assert (Hk : 0 <= anglesNumH info < 2 ^ 31) by lia.
  pose proof (@positive_sum_is_normal (anglesNumH info) _ Hk
                (@sum_of_slice info v HH Hok) Hsum) as Hs.
  pose proof (@pcanon_div (-201) 108 (-51) (-22) _ _
                ltac:(lia) ltac:(lia) ltac:(lia) ltac:(lia) Hs HHd) as Hmean.
  ieee_arith.
  assert (HdH : forall x, proper_divisor (DivDouble x (f64_of_Z (anglesNumH info))) = true).
  { intros x. destruct (f64_of_Z (anglesNumH info)) as [| | |[|] m e];
      try contradiction. reflexivity. }
  apply Forall_app. split.
  - repeat constructor; try apply HdH.
    unfold prec64, emax64.
    destruct (SFdiv 53 1024 (sum (slice_stats info v)) (f64_of_Z (anglesNumH info)))
      as [| | |[|] m e]; try contradiction. reflexivity.
  - destruct (SFltb (S754_zero false) (minVal (slice_stats info v))) eqn:Hmin;
      [|constructor].
    repeat constructor.
    assert (Hfin : finite_float (minVal (slice_stats info v)) = true).
    { unfold slice_stats. rewrite stats_fold. cbn [minVal stats_init].
      apply least_from_finite; [now apply slice_of_candelas|].
      vm_compute. reflexivity. }
    destruct (minVal (slice_stats info v)) as [s|s| |s m e]; try discriminate.
    reflexivity.
Qed.

(** X19. On a grid of finite samples none of which is negative, with the
    counts of angles in the range of [int], no division of the classifier
    has a zero, an infinity or NaN for its divisor. *)
Theorem no_division_by_zero (info : IESFileInfo arith) :
  2 <= anglesNumH info < 2 ^ 31 ->
  1 <= anglesNumV info < 2 ^ 31 ->
  forallb candela (candalaValues info) = true ->
  forallb proper_divisor (logged (classify info)) = true.
Proof.
  intros HH HV Hok. apply forallb_forall. apply Forall_forall.
  rewrite classify_log by lia. apply Forall_app. split.
  - unfold running_total. apply for_each_log_Forall.
    intros v total. now apply slice_step_divisors.
  - repeat constructor. ieee_arith.
    pose proof (@count_as_double _ HV) as HVd.
    destruct (f64_of_Z (anglesNumV info)) as [| | |[|] m e]; try contradiction.
    reflexivity.
Qed.

(** *** A positive minimum and the sum *)

Lemma least_from_positive (vals : list spec_float) (m : spec_float) :
  Forall (fun x => finite_float x = true) vals ->
  SFltb (S754_zero false) (least_from (A := arith) m vals) = true ->
  SFltb (S754_zero false) m = true
  /\ Forall (fun x => finite_positive x = true) vals.
Proof.
  intros Hvals. revert m. induction Hvals as [|x vals Hx _ IH]; intros m Hpos.
  - split; [exact Hpos|constructor].
  - cbn [least_from] in Hpos. apply IH in Hpos. destruct Hpos as [Hm' Hrest].
    destruct (@f_lt arith x m) eqn:Hlt; ieee_arith.
    + assert (Hxp : finite_positive x = true).
      { destruct x as [s|s| |[|] mx ex]; try discriminate. reflexivity. }
      split; [|constructor; assumption].
      destruct x as [s|s| |[|] mx ex]; try discriminate.
      destruct m as [[|]|[|]| |[|] mm em]; try discriminate; reflexivity.
    + split; [exact Hm'|]. constructor; [|exact Hrest].
      destruct x as [s|s| |[|] mx ex]; try discriminate; try reflexivity;
        destruct m as [[|]|[|]| |[|] mm em]; discriminate.
Qed.

Lemma add_positive (k : Z) (s a : spec_float) :
  0 <= k < 2 ^ 31 ->
  acc_ok (-201) 75 k s -> addend_ok (-201) 75 a ->
  finite_positive s = true \/ finite_positive a = true ->
  finite_positive (SFadd 53 1024 s a) = true.
Proof.
  intros Hk Hs Ha Hpos.
  destruct s as [[|]| | |[|] ms es]; try contradiction;
    destruct a as [sa| | |[|] ma ea]; try contradiction.
  - destruct Hpos as [H|H]; discriminate H.
  - reflexivity.
  - reflexivity.
  - pose proof (@canon_pcanon_exp (-201) 75 k ms es ltac:(lia) ltac:(lia) Hs) as Hes.
    destruct Hs as (Hms & Hes' & _). destruct Ha as (Hma & Hea).
    destruct (@SFadd_canon 53 1024 ltac:(lia) ms es ma ea)
      as (m & e & Hr & _); try assumption; try (unfold emin; lia).
    rewrite Hr. reflexivity.
Qed.

Lemma positive_acc_stays (vals : list spec_float) (acc : spec_float) (k : Z) :
  Forall (fun x => candela x = true) vals ->
  0 <= k -> k + Z.of_nat (List.length vals) < 2 ^ 31 ->
  acc_ok (-201) 75 k acc -> finite_positive acc = true ->
  finite_positive (sum_from (A := arith) acc vals) = true.
Proof.
  intros Hvals. revert acc k.
  induction Hvals as [|x vals Hx _ IH]; intros acc k Hk Hlen Hacc Hpos;
    [exact Hpos|].
  cbn [List.length sum_from] in *. ieee_arith. unfold prec64, emax64.
  apply (IH _ (k + 1)); try lia.
  - apply acc_ok_step; try lia; [exact Hacc|now apply candela_as_double].
  - apply (@add_positive k); try lia; [exact Hacc|now apply candela_as_double|].
    now left.
Qed.

Lemma positive_is_candela (x : spec_float) :
  finite_float x = true -> finite_positive x = true -> candela x = true.
Proof. destruct x as [s|s| |[|] m e]; try discriminate; intros H _; exact H. Qed.

Lemma sum_of_positive_samples (vals : list spec_float) :
  vals <> [] -> Z.of_nat (List.length vals) < 2 ^ 31 ->
  Forall (fun x => finite_float x = true) vals ->
  Forall (fun x => finite_positive x = true) vals ->
  SFltb (S754_zero false) (sum_from (A := arith) (S754_zero false) vals) = true.
Proof.
  intros Hne Hlen Hfin Hpos.
  assert (Hc : Forall (fun x => candela x = true) vals).
  { rewrite Forall_forall in *. intros x Hx.
    apply positive_is_candela; [now apply Hfin|now apply Hpos]. }
  destruct vals as [|x vals]; [congruence|].
  cbn [sum_from List.length] in *. ieee_arith. unfold prec64, emax64.
  inversion Hc as [|? ? Hcx Hcv]; subst. inversion Hpos as [|? ? Hpx _]; subst.
  assert (Hacc : acc_ok (-201) 75 (0 + 1) (SFadd 53 1024 (S754_zero false) (f64_of_f32 x))).
  { apply acc_ok_step; try lia; [exact I|now apply candela_as_double]. }
  assert (Hp : finite_positive (SFadd 53 1024 (S754_zero false) (f64_of_f32 x)) = true).
  { apply (@add_positive 0); try lia; [exact I|now apply candela_as_double|].
    right. destruct x as [s|s| |[|] m e]; try discriminate.
    destruct (@finite_sample_as_double false m e Hcx) as (mz & ez & -> & _).
    reflexivity. }
  pose proof (@positive_acc_stays vals _ (0 + 1) Hcv ltac:(lia) ltac:(lia) Hacc Hp) as Hs.
  match type of Hs with
  | finite_positive ?t = true => change (SFltb (S754_zero false) t = true);
      destruct t as [s|s| |[|] m e]
  end; try discriminate Hs. reflexivity.
Qed.

Lemma slice_of_finite_samples (info : IESFileInfo arith) (v : Z) :
  forallb finite_float (candalaValues info) = true ->
  Forall (fun x => finite_float x = true) (slice info v).
Proof.
  intros Hok. unfold slice. apply Forall_map, Forall_forall. intros h _.
  unfold at_index.
  destruct (nth_in_or_default (Z.to_nat (h * anglesNumV info + v))
              (candalaValues info) (@f_zero arith)) as [Hin|Heq];
    [|rewrite Heq; reflexivity].
  rewrite forallb_forall in Hok. now apply Hok.
Qed.

(** X22. On finite samples, negative ones included, a slice whose running
    minimum is positive has a positive sum: there the ratio test alone
    decides whether the penalty is added, as the description of the penalty
    has it. *)
Theorem finite_slice_penalty_follows_the_ratio_test
        (info : IESFileInfo arith) (v : Z) (total : spec_float) :
  2 <= anglesNumH info < 2 ^ 31 ->
  forallb finite_float (candalaValues info) = true ->
  (f_lt f_zero (minVal (slice_stats info v)) = true ->
   d_lt d_zero (sum (slice_stats info v)) = true)
  /\ value (slice_step (anglesNumH info) total (slice_stats info v))
     = (if value (ratio_exceeded (slice_stats info v))
        then d_add (d_add total (value (coeff_var (anglesNumH info) (slice_stats info v))))
                   d_penalty
        else if d_lt d_zero (sum (slice_stats info v))
             then d_add total (value (coeff_var (anglesNumH info) (slice_stats info v)))
             else total).
Proof.
  intros HH Hfin.
  assert (Himp : f_lt f_zero (minVal (slice_stats info v)) = true ->
                 d_lt d_zero (sum (slice_stats info v)) = true).
  { unfold slice_stats. rewrite stats_fold. cbn [minVal sum stats_init].
    intros Hmin.
    pose proof (@slice_of_finite_samples info v Hfin) as Hf.
    destruct (@least_from_positive _ _ Hf Hmin) as [_ Hpos].
    pose proof (slice_length info v) as Hlen. ieee_arith.
    apply sum_of_positive_samples; try assumption.
    - intros Hnil. rewrite Hnil in Hlen. cbn [List.length] in Hlen. lia.
    - rewrite Hlen. lia. }
  split; [exact Himp|].
  rewrite slice_step_value. cbv zeta.
  destruct (value (ratio_exceeded (slice_stats info v))) eqn:Hr.
  - rewrite ratio_exceeded_value in Hr. apply andb_true_iff in Hr.
    destruct Hr as [Hmin _]. rewrite (Himp Hmin). reflexivity.
  - destruct (d_lt d_zero (sum (slice_stats info v))); reflexivity.
Qed.

Lemma no_division_by_zero_witness :
  forallb proper_divisor (logged (classify example_grid)) = true.
Proof.
  apply no_division_by_zero.
  - cbn. lia.
  - cbn. lia.
  - vm_compute. reflexivity.
Defined.

Lemma finite_slice_penalty_follows_the_ratio_test_witness :
  (f_lt f_zero (minVal (slice_stats skewed_grid 0)) = true ->
   d_lt d_zero (sum (slice_stats skewed_grid 0)) = true)
  /\ value (slice_step (anglesNumH skewed_grid) (S754_zero false)
                       (slice_stats skewed_grid 0))
     = (if value (ratio_exceeded (slice_stats skewed_grid 0))
        then d_add (d_add (S754_zero false)
                          (value (coeff_var (anglesNumH skewed_grid)
                                            (slice_stats skewed_grid 0))))
                   d_penalty
        else if d_lt d_zero (sum (slice_stats skewed_grid 0))
             then d_add (S754_zero false)
                        (value (coeff_var (anglesNumH skewed_grid)
                                          (slice_stats skewed_grid 0)))
             else S754_zero false).
Proof.
  apply (@finite_slice_penalty_follows_the_ratio_test skewed_grid 0 (S754_zero false)).
  - cbn. lia.
  - vm_compute. reflexivity.
Defined.

(** X23. Equal samples do not always give the score 0.  On three samples
    [0.1f] the square of the sample, rounded to [float], is above the
    square of the mean computed in [double]: the variance is positive and
    the score is about 0.0002, still below the threshold. *)
Theorem uniform_slice_can_score_above_zero :
  slice_is Doubles.uniform_tenths 0 (f32_lit 1 10)
  /\ avgVariation (value (classify Doubles.uniform_tenths))
     = Some (S754_finite false 7468374953464621 (-65))
  /\ @d_lt arith d_zero (S754_finite false 7468374953464621 (-65)) = true
  /\ use1D (value (classify Doubles.uniform_tenths)) = true.
Proof.
  split; [|vm_compute; repeat split; reflexivity].
  intros h Hh. cbn [anglesNumH Doubles.uniform_tenths grid] in Hh.
  assert (Hcases : h = 0 \/ h = 1 \/ h = 2) by lia.
  destruct Hcases as [Hh0|[Hh1|Hh2]]; subst h; reflexivity.
Qed.
End FiniteSamples.

(** ** The further properties at concrete inputs *)

Section DriverWitnesses.
Import IEEE.
Local Open Scope string_scope.

Lemma one_resampler_is_dispatched_witness :
  filter is_resampler
    (logged (IES2HDR Doubles.all_ok "lamp.ies" "lamp.hdr" (grid 0 0 [])))
  = [selected_call (use1D (value (classify example_grid)))
       (resampler_answer Doubles.all_ok example_grid)].
Proof.
  apply (@one_resampler_is_dispatched arith Doubles.all_ok "lamp.ies" "lamp.hdr"
           (grid 0 0 []) []); reflexivity.
Defined.

Lemma unreadable_input_aborts_witness :
  fst (value (IES2HDR Doubles.no_input "lamp.ies" "lamp.hdr" (grid 0 0 []))) = false
  /\ existsb is_resampler
       (logged (IES2HDR Doubles.no_input "lamp.ies" "lamp.hdr" (grid 0 0 []))) = false
  /\ existsb touches_output
       (logged (IES2HDR Doubles.no_input "lamp.ies" "lamp.hdr" (grid 0 0 []))) = false.
Proof.
  apply (@unreadable_input_aborts arith Doubles.no_input "lamp.ies" "lamp.hdr"
           (grid 0 0 [])).
  left. reflexivity.
Defined.

Lemma successful_run_emits_in_order_witness :
  exists before tail,
    logged (IES2HDR Doubles.single_ok "lamp.ies" "lamp.hdr" (grid 0 0 []))
    = (before ++ tail)%list
    /\ is_emission_of "lamp.hdr" tail
    /\ existsb touches_output before = false.
Proof.
  apply (@successful_run_emits_in_order arith Doubles.single_ok "lamp.ies"
           "lamp.hdr" (grid 0 0 [])).
  vm_compute. reflexivity.
Defined.

Lemma failed_run_leaves_output_alone_witness :
  @Fopen arith "lamp.hdr" false = Fopen "lamp.hdr" false.
Proof.
  apply (@failed_run_leaves_output_alone arith Doubles.no_output "lamp.ies"
           "lamp.hdr" (grid 0 0 []) (Fopen "lamp.hdr" false)).
  - vm_compute. reflexivity.
  - rewrite IES2HDR_unfold. cbn [Doubles.no_output Doubles.staged read_file load
                                  fst snd fopen_wb].
    cbv zeta. cbn [fst snd].
    replace (resampler_answer (Doubles.staged true true true false single_angle_grid)
               single_angle_grid) with true by reflexivity.
    cbn [logged snd]. right. right. apply in_or_app. right.
    right. left. reflexivity.
  - reflexivity.
Defined.

Lemma announced_representation_is_used_witness :
  exists ok,
    In (selected_call true ok)
       (logged (IES2HDR Doubles.single_ok "lamp.ies" "lamp.hdr" (grid 0 0 []))).
Proof.
  apply (@announced_representation_is_used arith Doubles.single_ok "lamp.ies"
           "lamp.hdr" (grid 0 0 []) InfoSingleAngle).
  rewrite IES2HDR_unfold. cbn [Doubles.single_ok Doubles.staged read_file load
                                fst snd fopen_wb].
  cbv zeta. cbn [fst snd].
  replace (resampler_answer (Doubles.staged true true true true single_angle_grid)
             single_angle_grid) with true by reflexivity.
  cbn [logged snd]. right. right. apply in_or_app. left.
  rewrite decide_1D_log. left. reflexivity.
Defined.

Lemma batch_converts_every_plain_entry_witness :
  conversions (logged (main (Doubles.runtime ".txt" Doubles.listing)
                            Doubles.all_ok ["ies2hdr"; "lights"]))
  = map (fun entry =>
           let filename := entry_path "" "" "lights" entry in
           (filename,
            fst (value (IES2HDR_next_to_input
                          (Doubles.runtime ".txt" Doubles.listing) Doubles.all_ok
                          filename
                          (fresh_info (Doubles.runtime ".txt" Doubles.listing))))))
        (filter (is_plain_file (Doubles.runtime ".txt" Doubles.listing))
                (find_files (Doubles.runtime ".txt" Doubles.listing)
                            ((("" ++ "") ++ "lights") ++ "/*.ies")%string)).
Proof.
  apply (@batch_converts_every_plain_entry arith
           (Doubles.runtime ".txt" Doubles.listing) Doubles.all_ok
           ["ies2hdr"; "lights"] "" "" "lights" ".txt").
  - cbn. lia.
  - reflexivity.
  - vm_compute. discriminate.
Defined.

Lemma single_file_is_converted_alone_witness :
  conversions (logged (main (Doubles.runtime ".ies" Doubles.listing)
                            Doubles.all_ok ["ies2hdr"; "lamp.ies"; "more.ies"]))
  = [("lamp.ies",
      fst (value (IES2HDR_next_to_input
                    (Doubles.runtime ".ies" Doubles.listing) Doubles.all_ok
                    "lamp.ies"
                    (fresh_info (Doubles.runtime ".ies" Doubles.listing)))))]
  /\ existsb is_search
       (logged (main (Doubles.runtime ".ies" Doubles.listing)
                     Doubles.all_ok ["ies2hdr"; "lamp.ies"; "more.ies"])) = false.
Proof.
  destruct (@single_file_is_converted_alone arith
              (Doubles.runtime ".ies" Doubles.listing) Doubles.all_ok
              ["ies2hdr"; "lamp.ies"; "more.ies"] "" "" "lamp.ies" ".ies")
    as [Hfile _].
  - cbn. lia.
  - reflexivity.
  - destruct (Hfile eq_refl) as (Hconversions & _ & Hsearch).
    split; assumption.
Defined.

Lemma main_writes_only_next_to_the_input_witness :
  opened_outputs
    (logged (IES2HDR_next_to_input (Doubles.runtime ".ies" Doubles.listing)
               Doubles.all_ok "lamp.ies"
               (fresh_info (Doubles.runtime ".ies" Doubles.listing)))) = []
  \/ opened_outputs
       (logged (IES2HDR_next_to_input (Doubles.runtime ".ies" Doubles.listing)
                  Doubles.all_ok "lamp.ies"
                  (fresh_info (Doubles.runtime ".ies" Doubles.listing))))
     = [hdr_path (Doubles.runtime ".ies" Doubles.listing) "lamp.ies"].
Proof.
  apply (@main_writes_only_next_to_the_input arith
           (Doubles.runtime ".ies" Doubles.listing) Doubles.all_ok
           ["ies2hdr"; "lamp.ies"] "lamp.ies" _
           (fst (value (IES2HDR_next_to_input
                          (Doubles.runtime ".ies" Doubles.listing) Doubles.all_ok
                          "lamp.ies"
                          (fresh_info (Doubles.runtime ".ies" Doubles.listing)))))).
  rewrite main_log. cbn [List.length Z.of_nat Z.leb Z.compare Pos.compare
                         Pos.compare_cont Pos.of_succ_nat Pos.succ nth].
  cbn [Doubles.runtime splitpath stricmp]. cbn [String.eqb Ascii.eqb Bool.eqb Z.eqb].
  rewrite convert_and_report_log. left. reflexivity.
Defined.

Lemma reads_stay_inside_the_grid_witness :
  classify (with_trailing [S754_nan] example_grid) = classify example_grid.
Proof.
  apply (@reads_stay_inside_the_grid arith [S754_nan] example_grid).
  reflexivity.
Defined.

Lemma nan_sample_silences_its_slice_witness :
  slice_step (anglesNumH Doubles.nan_grid) (f64_lit 1 2)
             (slice_stats Doubles.nan_grid 0)
  = ret (f64_lit 1 2).
Proof.
  apply (@nan_sample_silences_its_slice Doubles.nan_grid 0 (f64_lit 1 2)).
  left. reflexivity.
Defined.

Lemma no_vertical_angle_gives_nan_witness :
  avgVariation (value (classify Doubles.flat_grid)) = Some S754_nan
  /\ use1D (value (classify Doubles.flat_grid)) = false.
Proof.
  apply (@no_vertical_angle_gives_nan Doubles.flat_grid).
  - cbn. lia.
  - reflexivity.
Defined.
End DriverWitnesses.
